(** * Dynamic 3D Delaunay triangulation kernel (cx3d::spatial_organization)

    A shallow embedding of the parts of [rational.cc] and [edge.cc]
    (classes [Rational], [Edge] and [SpaceNode]) that the specification
    talks about, together with the properties established for them.

    Conventions:
    - a C++ [double] is an IEEE-754 binary64 number, represented by
      [spec_float] with precision 53 and maximal exponent 1024;
    - a [std::shared_ptr<X>] is an [option] of an address, [None] being
      the null pointer; pointer comparison is comparison of addresses;
    - a C++ [int] is a 32-bit two's complement integer represented in [Z],
      with the wrap-around written out. *)

From Stdlib Require Import ZArith QArith Qabs Qpower Lia Lqa List Bool.
From Stdlib Require Import Floats.SpecFloat.
From stdpp Require Import base option list gmap.

Local Open Scope Z_scope.

(* ===================================================================== *)
(** * IEEE-754 binary64 numbers *)
(* ===================================================================== *)

Module Double.

Definition prec : Z := 53.
Definition emax : Z := 1024.

(** A [double].  Values built by the operations below from well-formed
    arguments are well formed ([is_double]). *)
Definition double : Type := spec_float.

Definition is_double (x : double) : Prop := valid_binary prec emax x = true.

Definition add (x y : double) : double := SFadd prec emax x y.
Definition sub (x y : double) : double := SFsub prec emax x y.
Definition mul (x y : double) : double := SFmul prec emax x y.
Definition div (x y : double) : double := SFdiv prec emax x y.
Definition opp (x : double) : double := SFopp x.
Definition abs (x : double) : double := SFabs x.
Definition ltb (x y : double) : bool := SFltb x y.
Definition eqb (x y : double) : bool := SFeqb x y.

(** The double nearest to [m * 2^e] (round to nearest, ties to even). *)
Definition of_scaled (m e : Z) : double := binary_normalize prec emax m e false.

(** Conversion of an integer, as in the C++ conversion [int -> double]. *)
Definition of_Z (z : Z) : double := of_scaled z 0.

Definition zero : double := S754_zero false.
Definition one : double := of_Z 1.
Definition two : double := of_Z 2.
Definition minus_one : double := of_Z (-1).

(** The literal [1e-10]: the binary64 number nearest to 10^-10 is
    [0x1.b7cdfd9d7bdbbp-34 = 7737125245533627 * 2^-86]. *)
Definition lit_1e_10 : double := S754_finite false 7737125245533627 (-86).

(** The literal [1e-11], [0x1.5fd7fe1796495p-37]. *)
Definition lit_1e_11 : double := S754_finite false 6189700196426901 (-89).

(** The rational number a double stands for; infinities and NaN stand
    for none. *)
Definition value (x : double) : option Q :=
  match x with
  | S754_zero _ => Some 0%Q
  | S754_finite s m e => Some (inject_Z (cond_Zopp s (Zpos m)) * Qpower 2 e)%Q
  | S754_infinity _ | S754_nan => None
  end.

(** The same number counted in units of the smallest positive double,
    [2^-1074]; an integer for every well-formed double. *)
Definition ulps (x : double) : option Z :=
  match x with
  | S754_zero _ => Some 0
  | S754_finite s m e => Some (cond_Zopp s (Zpos m * 2 ^ (e + 1074)))
  | S754_infinity _ | S754_nan => None
  end.

End Double.

Export Double(double).

(* ===================================================================== *)
(** * rational.cc : the scalar of the exact predicate *)
(* ===================================================================== *)

Module Rational.

(** [class Rational]: the big-integer numerator and denominator are
    commented out in the source; the only data member is [double value_]. *)
Record Rational : Type := create { value_ : double }.

(** Modelled from the spec: STLUtil::sgn (stl_util.h is not among the
    sources), the sign -1 / 0 / +1 of its argument, computed as
    [(0 < x) - (x < 0)]. *)
Definition sgn (x : double) : Z :=
  Z.b2z (Double.ltb Double.zero x) - Z.b2z (Double.ltb x Double.zero).

(** [bool Rational::isZero() const { return std::abs(value_) < 1e-10; }] *)
Definition isZero (r : Rational) : bool :=
  Double.ltb (Double.abs (value_ r)) Double.lit_1e_10.

(** [negate]: [value_ *= -1; return shared_from_this();]  The receiver is
    written in place and the pointer returned is the receiver itself; this
    function gives the object after the call, [SharedRational.negate] below
    the call on a store of objects. *)
Definition negate (r : Rational) : Rational :=
  create (Double.mul (value_ r) Double.minus_one).

(** [add]: [double value = value_ + other->value_; return create(value);] *)
Definition add (r other : Rational) : Rational :=
  create (Double.add (value_ r) (value_ other)).

(** [increaseBy]: [value_ += other->value_;] *)
Definition increaseBy (r other : Rational) : Rational :=
  create (Double.add (value_ r) (value_ other)).

(** [subtract]: [auto value = value_ + other->value_; return create(value);] *)
Definition subtract (r other : Rational) : Rational :=
  create (Double.add (value_ r) (value_ other)).

(** [decreaseBy]: [value_ -= other->value_;] *)
Definition decreaseBy (r other : Rational) : Rational :=
  create (Double.sub (value_ r) (value_ other)).

(** [multiply]: [return create(value_ * other->value_);] *)
Definition multiply (r other : Rational) : Rational :=
  create (Double.mul (value_ r) (value_ other)).

(** [divide]: [return create(value_ / other->value_);] *)
Definition divide (r other : Rational) : Rational :=
  create (Double.div (value_ r) (value_ other)).

Definition doubleValue (r : Rational) : double := value_ r.

(** The rational number that the literal [1e-10] stands for. *)
Definition tolerance : Q := (inject_Z 7737125245533627 * 2 ^ (-86))%Q.

(** The same number counted in units of 2^-1074. *)
Definition tolerance_ulps : Z := 7737125245533627 * 2 ^ 988.

(** The scalar stands for the number zero. *)
Definition exactly_zero (r : Rational) : Prop :=
  exists q : Q, Double.value (value_ r) = Some q /\ (q == 0)%Q.

(** [compareTo]: [return STLUtil::sgn(this->subtract(other)->value_);] *)
Definition compareTo (r other : Rational) : Z :=
  sgn (value_ (subtract r other)).

(** [equalTo]: [return compareTo(other) == 0;] *)
Definition equalTo (r other : Rational) : bool :=
  compareTo r other =? 0.

(** [Rational()]: [value_{0.0}]. *)
Definition default : Rational := create Double.zero.

(** [Rational(int64_t numerator, int64_t denominator)]:
    [value_{numerator / denominator}].  The operands are 64-bit integers, so
    [/] is the integer division, which truncates towards zero; its result
    is converted to [double].  Dividing by zero, and dividing the least
    64-bit integer by -1, have no defined behaviour ([None]). *)
Definition of_fraction (numerator denominator : Z) : option Rational :=
  if denominator =? 0 then None
  else if (numerator =? - 2 ^ 63) && (denominator =? -1) then None
  else Some (create (Double.of_Z (Z.quot numerator denominator))).

(** [multiplyBy]: [value_ *= other->value_;] *)
Definition multiplyBy (r other : Rational) : Rational :=
  create (Double.mul (value_ r) (value_ other)).

(** [divideBy]: [value_ /= other->value_;] *)
Definition divideBy (r other : Rational) : Rational :=
  create (Double.div (value_ r) (value_ other)).

End Rational.

(* ===================================================================== *)
(** * Pointers, failures and small utilities *)
(* ===================================================================== *)

(** Addresses of heap objects.  A [std::shared_ptr] is a [ptr]: [None] is
    the null pointer, [Some l] owns the object at address [l]. *)
Definition addr : Type := positive.
Abbreviation ptr := (option addr).

(** Comparison of two shared pointers ([operator==]): the same address,
    or both null. *)
Definition ptr_eqb (p q : ptr) : bool := bool_decide (p = q).

(** The failure kinds of the kernel. *)
Inductive exception : Type :=
| PositionNotAllowed
| InvariantViolated
| EdgeNotIncident.

(** How the call of a function without side effects ends: it returns a
    value, throws, or has no defined behaviour (control runs off the end of
    a value-returning function, a null or dangling pointer is followed). *)
Inductive result (A : Type) : Type :=
| Returns (a : A)
| Throws (e : exception)
| Undefined.
Arguments Returns {A} a.
Arguments Throws {A} e.
Arguments Undefined {A}.

(** Modelled from the spec: STLUtil::vectorRemove (stl_util.h is not among
    the sources) removes the first element equal to [x] from the vector. *)
Fixpoint vectorRemove {A : Type} `{EqDecision A} (v : list A) (x : A) : list A :=
  match v with
  | [] => []
  | y :: v' => if decide (y = x) then v' else y :: vectorRemove v' x
  end.

(** Modelled from the spec: STLUtil::vectorContains (stl_util.h) tells
    whether the vector has an element equal to [x]. *)
Definition vectorContains {A : Type} `{EqDecision A} (v : list A) (x : A) : bool :=
  bool_decide (x ∈ v).

(** [std::array<double, 3>]. *)
Definition array3 : Type := double * double * double.

Module Matrix.
(** Modelled from the spec: Matrix::subtract (matrix.h is not among the
    sources), the componentwise difference of two vectors. *)
Definition subtract (a b : array3) : array3 :=
  let '(a0, a1, a2) := a in
  let '(b0, b1, b2) := b in
  (Double.sub a0 b0, Double.sub a1 b1, Double.sub a2 b2).

(** Modelled from the spec: Matrix::add (matrix.h), the componentwise sum
    of two vectors. *)
Definition add (a b : array3) : array3 :=
  let '(a0, a1, a2) := a in
  let '(b0, b1, b2) := b in
  (Double.add a0 b0, Double.add a1 b1, Double.add a2 b2).
End Matrix.

(** ** rational.cc through shared pointers

    The member functions of [Rational] are called through
    [std::shared_ptr<Rational>].  [add], [subtract], [multiply] and
    [divide] return a new object; [negate], [increaseBy], [decreaseBy],
    [multiplyBy] and [divideBy] write [value_] of the receiver, and [negate]
    returns [shared_from_this()], a pointer to the receiver itself.  The
    functions of the module [Rational] give the object after the call; here
    the objects live in a store and a pointer is an address, so that two
    pointers to one object are told from two objects with one value. *)
Module SharedRational.

Abbreviation Store := (gmap addr Rational.Rational).

(** [p->negate()]: the object at [p] is negated in place and [p] is
    returned.  A pointer that owns no object has no defined behaviour
    ([None]). *)
Definition negate (this : addr) (s : Store) : option (addr * Store) :=
  match s !! this with
  | Some r => Some (this, <[this := Rational.negate r]> s)
  | None => None
  end.

(** [p->compareTo(q)] and [p->equalTo(q)] read the two objects; the
    object that [subtract] creates for the difference is dropped again. *)
Definition compareTo (this other : addr) (s : Store) : option Z :=
  match s !! this, s !! other with
  | Some r, Some o => Some (Rational.compareTo r o)
  | _, _ => None
  end.

Definition equalTo (this other : addr) (s : Store) : option bool :=
  match s !! this, s !! other with
  | Some r, Some o => Some (Rational.equalTo r o)
  | _, _ => None
  end.

(** The expression [p->equalTo(q->negate())]: the argument is evaluated,
    and the object at [q] written, before [equalTo] reads [value_] of the
    object at [p]. *)
Definition equalTo_negate (p q : addr) (s : Store) : option bool :=
  match negate q s with
  | Some (negated, s') => equalTo p negated s'
  | None => None
  end.

End SharedRational.

(** The scalars in which areas are accumulated: [double] in the code.
    The classes [Edge] and [SpaceNode] do not look into the numbers, so
    their embedding leaves the type open. *)
Class Scalar (R : Type) : Type := {
  s_zero : R;
  s_add : R -> R -> R;
  s_sub : R -> R -> R;
}.

#[export] Instance double_Scalar : Scalar double :=
  {| s_zero := Double.zero; s_add := Double.add; s_sub := Double.sub |}.

(* ===================================================================== *)
(** * The objects of the triangulation *)
(* ===================================================================== *)

Module SpaceNode.

(** [class SpaceNode<T>]: the data members initialised by its
    constructors.  [content_] is the user object, [listeners_] the
    movement listeners. *)
Record SpaceNode : Type := mkSpaceNode {
  id_ : Z;
  content_ : ptr;
  listeners_ : list addr;
  position_ : array3;
  adjacent_edges_ : list ptr;
  adjacent_tetrahedra_ : list ptr;
  volume_ : double;
}.

(** [SpaceNode(position, content)], given the value of [id_counter_]. *)
Definition create (id_counter_ : Z) (position : array3) (content : ptr) : SpaceNode :=
  mkSpaceNode id_counter_ content [] position [] [] Double.zero.

Definition getPosition (n : SpaceNode) : array3 := position_ n.
Definition getUserObject (n : SpaceNode) : ptr := content_ n.
Definition getId (n : SpaceNode) : Z := id_ n.
Definition getVolume (n : SpaceNode) : double := volume_ n.
Definition getEdges (n : SpaceNode) : list ptr := adjacent_edges_ n.
Definition getAdjacentTetrahedra (n : SpaceNode) : list ptr := adjacent_tetrahedra_ n.

(** [position_ = new_position;] *)
Definition set_position (p : array3) (n : SpaceNode) : SpaceNode :=
  mkSpaceNode (id_ n) (content_ n) (listeners_ n) p
    (adjacent_edges_ n) (adjacent_tetrahedra_ n) (volume_ n).

(** [setListenerList]: [listeners_ = listeners;] *)
Definition setListenerList (ls : list addr) (n : SpaceNode) : SpaceNode :=
  mkSpaceNode (id_ n) (content_ n) ls (position_ n)
    (adjacent_edges_ n) (adjacent_tetrahedra_ n) (volume_ n).

(** [addSpatialOrganizationNodeMovementListener]:
    [listeners_.push_back(listener);] *)
Definition addSpatialOrganizationNodeMovementListener
    (listener : addr) (n : SpaceNode) : SpaceNode :=
  setListenerList (listeners_ n ++ [listener]) n.

(** [addEdge]: [adjacent_edges_.push_back(edge);] *)
Definition addEdge (edge : ptr) (n : SpaceNode) : SpaceNode :=
  mkSpaceNode (id_ n) (content_ n) (listeners_ n) (position_ n)
    (adjacent_edges_ n ++ [edge]) (adjacent_tetrahedra_ n) (volume_ n).

(** [removeEdge]: [STLUtil::vectorRemove(adjacent_edges_, edge);] *)
Definition removeEdge (edge : ptr) (n : SpaceNode) : SpaceNode :=
  mkSpaceNode (id_ n) (content_ n) (listeners_ n) (position_ n)
    (vectorRemove (adjacent_edges_ n) edge) (adjacent_tetrahedra_ n) (volume_ n).

(** [addAdjacentTetrahedron]: [adjacent_tetrahedra_.push_back(tetrahedron);] *)
Definition addAdjacentTetrahedron (tetrahedron : ptr) (n : SpaceNode) : SpaceNode :=
  mkSpaceNode (id_ n) (content_ n) (listeners_ n) (position_ n)
    (adjacent_edges_ n) (adjacent_tetrahedra_ n ++ [tetrahedron]) (volume_ n).

(** [removeTetrahedron]:
    [STLUtil::vectorRemove(adjacent_tetrahedra_, tetrahedron);] *)
Definition removeTetrahedron (tetrahedron : ptr) (n : SpaceNode) : SpaceNode :=
  mkSpaceNode (id_ n) (content_ n) (listeners_ n) (position_ n)
    (adjacent_edges_ n) (vectorRemove (adjacent_tetrahedra_ n) tetrahedron) (volume_ n).

(** [changeVolume]: [volume_ += change;] *)
Definition changeVolume (change : double) (n : SpaceNode) : SpaceNode :=
  mkSpaceNode (id_ n) (content_ n) (listeners_ n) (position_ n)
    (adjacent_edges_ n) (adjacent_tetrahedra_ n) (Double.add (volume_ n) change).

End SpaceNode.

(** The nodes of the triangulation, by address. *)
Abbreviation NodeHeap := (gmap addr SpaceNode.SpaceNode).

(** [p->getUserObject()] through a shared pointer to a node. *)
Definition deref_node (nodes : NodeHeap) (p : ptr) : result SpaceNode.SpaceNode :=
  match p with
  | None => Undefined
  | Some l => match nodes !! l with Some n => Returns n | None => Undefined end
  end.

(* ===================================================================== *)
(** * edge.cc : class Edge *)
(* ===================================================================== *)

Module Edge.
Section Edge.
Context {R : Type} `{Scalar R}.

(** [class Edge<T>]: the two endpoints, the incident tetrahedra and the
    cross-section area. *)
Record Edge : Type := mkEdge {
  a_ : ptr;
  b_ : ptr;
  cross_section_area_ : R;
  adjacent_tetrahedra_ : list ptr;
}.

(** The nodes and the edges of the triangulation. *)
Record Heap : Type := mkHeap {
  nodes : NodeHeap;
  edges : gmap addr Edge;
}.

(** [Edge(a, b)]: area 0.0 and no incident tetrahedron. *)
Definition new (a b : ptr) : Edge := mkEdge a b s_zero [].

(** [getOpposite]:
<<
if (node == a_) { return b_; }
else if (node == b_) { return a_; }
else { //fnoexceptionthrow std::invalid_argument(...); }
>>
    In the last branch the [throw] is commented out and control reaches
    the end of the function without a [return]. *)
Definition getOpposite (e : Edge) (node : ptr) : result ptr :=
  if ptr_eqb node (a_ e) then Returns (b_ e)
  else if ptr_eqb node (b_ e) then Returns (a_ e)
  else Undefined.

(** [getOppositeElement]:
<<
if (a_.get() != nullptr && b_.get() != nullptr) {
  if (element == a_->getUserObject()) { return b_->getUserObject(); }
  else { return a_->getUserObject(); }
}
return std::shared_ptr<T>(nullptr);
>> *)
Definition getOppositeElement (ns : NodeHeap) (e : Edge) (element : ptr) : result ptr :=
  if negb (ptr_eqb (a_ e) None) && negb (ptr_eqb (b_ e) None) then
    match deref_node ns (a_ e) with
    | Returns na =>
        if ptr_eqb element (SpaceNode.getUserObject na) then
          match deref_node ns (b_ e) with
          | Returns nb => Returns (SpaceNode.getUserObject nb)
          | Throws x => Throws x
          | Undefined => Undefined
          end
        else Returns (SpaceNode.getUserObject na)
    | Throws x => Throws x
    | Undefined => Undefined
    end
  else Returns None.

(** [getFirstElement]: [return a_->getUserObject();] *)
Definition getFirstElement (ns : NodeHeap) (e : Edge) : result ptr :=
  match deref_node ns (a_ e) with
  | Returns na => Returns (SpaceNode.getUserObject na)
  | Throws x => Throws x
  | Undefined => Undefined
  end.

(** [getSecondElement]: [return b_->getUserObject();] *)
Definition getSecondElement (ns : NodeHeap) (e : Edge) : result ptr :=
  match deref_node ns (b_ e) with
  | Returns nb => Returns (SpaceNode.getUserObject nb)
  | Throws x => Throws x
  | Undefined => Undefined
  end.

Definition getCrossSection (e : Edge) : R := cross_section_area_ e.

(** [equals]: [((a_ == a) && (b_ == b)) || ((b_ == a) && (a_ == b))] *)
Definition equals (e : Edge) (a b : ptr) : bool :=
  (ptr_eqb (a_ e) a && ptr_eqb (b_ e) b) || (ptr_eqb (b_ e) a && ptr_eqb (a_ e) b).

Definition getAdjacentTetrahedra (e : Edge) : list ptr := adjacent_tetrahedra_ e.

(** [addTetrahedron]: [adjacent_tetrahedra_.push_back(tetrahedron);] *)
Definition addTetrahedron (tetrahedron : ptr) (e : Edge) : Edge :=
  mkEdge (a_ e) (b_ e) (cross_section_area_ e) (adjacent_tetrahedra_ e ++ [tetrahedron]).

(** [changeCrossSectionArea]: [cross_section_area_ += change;] *)
Definition changeCrossSectionArea (change : R) (e : Edge) : Edge :=
  mkEdge (a_ e) (b_ e) (s_add (cross_section_area_ e) change) (adjacent_tetrahedra_ e).

(** [endpoint->removeEdge(this)] when the endpoint is not null. *)
Definition endpoint_removeEdge (this : addr) (endpoint : ptr) (ns : NodeHeap) : NodeHeap :=
  match endpoint with
  | Some l => alter (SpaceNode.removeEdge (Some this)) l ns
  | None => ns
  end.

(** [endpoint->addEdge(this)] when the endpoint is not null. *)
Definition endpoint_addEdge (this : addr) (endpoint : ptr) (ns : NodeHeap) : NodeHeap :=
  match endpoint with
  | Some l => alter (SpaceNode.addEdge (Some this)) l ns
  | None => ns
  end.

(** [remove]: both endpoints forget the edge. *)
Definition remove (this : addr) (h : Heap) : Heap :=
  match edges h !! this with
  | Some e =>
      mkHeap (endpoint_removeEdge this (b_ e) (endpoint_removeEdge this (a_ e) (nodes h)))
             (edges h)
  | None => h
  end.

(** [removeTetrahedron]:
<<
STLUtil::vectorRemove(adjacent_tetrahedra_, tetrahedron);
if (adjacent_tetrahedra_.empty()) { remove(); }
>> *)
Definition removeTetrahedron (this : addr) (tetrahedron : ptr) (h : Heap) : Heap :=
  match edges h !! this with
  | Some e =>
      let adjacent := vectorRemove (adjacent_tetrahedra_ e) tetrahedron in
      let h' :=
        mkHeap (nodes h)
               (<[this := mkEdge (a_ e) (b_ e) (cross_section_area_ e) adjacent]> (edges h)) in
      match adjacent with
      | [] => remove this h'
      | _ :: _ => h'
      end
  | None => h
  end.

(** [initializationHelper]: both endpoints learn about the edge. *)
Definition initializationHelper (this : addr) (h : Heap) : Heap :=
  match edges h !! this with
  | Some e =>
      mkHeap (endpoint_addEdge this (b_ e) (endpoint_addEdge this (a_ e) (nodes h)))
             (edges h)
  | None => h
  end.

(** [Edge::create(a, b)]: a new edge at the fresh address [this]. *)
Definition create (this : addr) (a b : ptr) (h : Heap) : Heap :=
  initializationHelper this (mkHeap (nodes h) (<[this := new a b]> (edges h))).

(** The member functions that only touch the edge itself, applied to the
    edge stored at [this]. *)
Definition at_edge (this : addr) (f : Edge -> Edge) (h : Heap) : Heap :=
  mkHeap (nodes h) (alter f this (edges h)).

End Edge.
Arguments Edge R : clear implicits.
Arguments Heap R : clear implicits.
End Edge.

(* ===================================================================== *)
(** * The cross-section area of an edge *)
(* ===================================================================== *)

Module CrossSection.
Section CrossSection.
Context {R : Type} `{Scalar R}.

(** The edge side of the accounting is [Edge::addTetrahedron],
    [Edge::removeTetrahedron] and [Edge::changeCrossSectionArea] of edge.cc.
    The tetrahedron side (tetrahedron.cc, flat_tetrahedron.cc) is not among
    the sources; the header declares the member
    [std::array<double, 6> cross_section_areas_], one contribution for each
    incident edge, and [changeCrossSection(int number, double new_value)],
    which "informs incident edges if there is a change in their cross
    section area".

    The accounting is followed for one edge, at address [edge]: [shares]
    holds the contribution to this edge that each incident tetrahedron
    stores. *)
Record Accounting : Type := mkAccounting {
  heap : Edge.Heap R;
  shares : gmap addr R;
}.

(** The contribution stored by tetrahedron [t] (0 when it stores none). *)
Definition share (sh : gmap addr R) (t : ptr) : R :=
  match t with
  | Some l => default s_zero (sh !! l)
  | None => s_zero
  end.

(** The sum of the contributions of the tetrahedra in a list. *)
Fixpoint total (sh : gmap addr R) (tetrahedra : list ptr) : R :=
  match tetrahedra with
  | [] => s_zero
  | t :: rest => s_add (share sh t) (total sh rest)
  end.

(** Modelled from the spec: [Tetrahedron::changeCrossSection] for the slot
    of this edge; the stored contribution is replaced and the edge is told
    the difference between the new and the old one. *)
Definition changeCrossSection (edge t : addr) (new_value : R) (s : Accounting)
    : Accounting :=
  let change := s_sub new_value (share (shares s) (Some t)) in
  mkAccounting
    (Edge.at_edge edge (Edge.changeCrossSectionArea change) (heap s))
    (<[t := new_value]> (shares s)).

(** Modelled from the spec: a tetrahedron at the fresh address [t]
    registers with the edge ([Edge::addTetrahedron]); it has not reported
    a contribution yet. *)
Definition register_tetrahedron (edge t : addr) (s : Accounting) : Accounting :=
  mkAccounting (Edge.at_edge edge (Edge.addTetrahedron (Some t)) (heap s))
               (<[t := s_zero]> (shares s)).

(** Modelled from the spec: a tetrahedron at the fresh address [t] is
    created on the edge; it registers with the edge and "on creation it adds
    its contribution". *)
Definition create_tetrahedron (edge t : addr) (contribution : R) (s : Accounting)
    : Accounting :=
  changeCrossSection edge t contribution (register_tetrahedron edge t s).

(** Modelled from the spec: tetrahedron [t] is removed; "on removal it
    subtracts" its contribution, and it leaves the edge. *)
Definition remove_tetrahedron (edge t : addr) (s : Accounting) : Accounting :=
  let cleared := changeCrossSection edge t s_zero s in
  mkAccounting (Edge.removeTetrahedron edge (Some t) (heap cleared))
               (delete t (shares cleared)).

(** Modelled from the spec: [FlatTetrahedron::updateCrossSectionAreas]
    "sets all the cross section areas associated with the incident edges to
    0" (flat_tetrahedron.h). *)
Definition flat_updateCrossSectionAreas (edge t : addr) (s : Accounting) : Accounting :=
  changeCrossSection edge t s_zero s.

(** The edge right after [Edge::create(a, b)]. *)
Definition initial (h : Edge.Heap R) (edge : addr) (a b : ptr) : Accounting :=
  mkAccounting (Edge.create edge a b h) ∅.

(** What happens to the edge afterwards. *)
Inductive step (edge : addr) : Accounting -> Accounting -> Prop :=
| step_create (t : addr) (contribution : R) (s : Accounting) :
    shares s !! t = None ->
    step edge s (create_tetrahedron edge t contribution s)
| step_change (t : addr) (new_value : R) (s : Accounting) :
    is_Some (shares s !! t) ->
    step edge s (changeCrossSection edge t new_value s)
| step_remove (t : addr) (s : Accounting) :
    is_Some (shares s !! t) ->
    step edge s (remove_tetrahedron edge t s).

Inductive reachable (h : Edge.Heap R) (edge : addr) (a b : ptr) : Accounting -> Prop :=
| reachable_initial : reachable h edge a b (initial h edge a b)
| reachable_step (s s' : Accounting) :
    reachable h edge a b s -> step edge s s' -> reachable h edge a b s'.

(** The invariant of the specification for the edge: its cross-section
    area is the sum of the contributions of its incident tetrahedra. *)
Definition area_is_total (edge : addr) (s : Accounting) : Prop :=
  exists e : Edge.Edge R,
    Edge.edges (heap s) !! edge = Some e /\
    Edge.cross_section_area_ e = total (shares s) (Edge.adjacent_tetrahedra_ e).

End CrossSection.
Arguments Accounting R : clear implicits.

(** *** Updates that are not rounded

    The code keeps the areas in [double].  An addition or a subtraction is
    exact when its operands and its result stand for numbers (no infinity,
    no NaN) and the number of the result is the sum or the difference of
    the numbers of the operands. *)

Definition exact_sum (x y z : double) : Prop :=
  exists qx qy qz : Q,
    Double.value x = Some qx /\ Double.value y = Some qy /\ Double.value z = Some qz /\
    (qz == qx + qy)%Q.

Definition exact_difference (x y z : double) : Prop :=
  exists qx qy qz : Q,
    Double.value x = Some qx /\ Double.value y = Some qy /\ Double.value z = Some qz /\
    (qz == qx - qy)%Q.

(** The two operations of a change of the contribution of tetrahedron
    [t], [new_value - old] and [cross_section_area_ += change], are exact. *)
Definition exact_change (edge t : addr) (new_value : double) (s : Accounting double)
    : Prop :=
  exists e : Edge.Edge double,
    Edge.edges (heap s) !! edge = Some e /\
    exact_difference new_value (share (shares s) (Some t))
      (Double.sub new_value (share (shares s) (Some t))) /\
    exact_sum (Edge.cross_section_area_ e)
      (Double.sub new_value (share (shares s) (Some t)))
      (Double.add (Edge.cross_section_area_ e)
         (Double.sub new_value (share (shares s) (Some t)))).

(** The steps of [step], each with exact operations. *)
Inductive exact_step (edge : addr) : Accounting double -> Accounting double -> Prop :=
| exact_step_create (t : addr) (contribution : double) (s : Accounting double) :
    shares s !! t = None ->
    exact_change edge t contribution (register_tetrahedron edge t s) ->
    exact_step edge s (create_tetrahedron edge t contribution s)
| exact_step_change (t : addr) (new_value : double) (s : Accounting double) :
    is_Some (shares s !! t) ->
    exact_change edge t new_value s ->
    exact_step edge s (changeCrossSection edge t new_value s)
| exact_step_remove (t : addr) (s : Accounting double) :
    is_Some (shares s !! t) ->
    exact_change edge t Double.zero s ->
    exact_step edge s (remove_tetrahedron edge t s).

Inductive exactly_reachable (h : Edge.Heap double) (edge : addr) (a b : ptr)
    : Accounting double -> Prop :=
| exactly_reachable_initial : exactly_reachable h edge a b (initial h edge a b)
| exactly_reachable_step (s s' : Accounting double) :
    exactly_reachable h edge a b s -> exact_step edge s s' ->
    exactly_reachable h edge a b s'.

(** The number a stored contribution stands for. *)
Definition number (x : double) : Q := default 0%Q (Double.value x).

(** The sum of the contributions of the tetrahedra in a list, as a
    number. *)
Fixpoint exact_total (sh : gmap addr double) (tetrahedra : list ptr) : Q :=
  match tetrahedra with
  | [] => 0%Q
  | t :: rest => (number (share sh t) + exact_total sh rest)%Q
  end.

(** The area of the edge stands for the sum of the contributions of its
    incident tetrahedra. *)
Definition area_is_exact_total (edge : addr) (s : Accounting double) : Prop :=
  exists (e : Edge.Edge double) (q : Q),
    Edge.edges (heap s) !! edge = Some e /\
    Double.value (Edge.cross_section_area_ e) = Some q /\
    (q == exact_total (shares s) (Edge.adjacent_tetrahedra_ e))%Q.

(** What the proof of the invariant carries along. *)
Definition exactly_accounted (edge : addr) (s : Accounting double) : Prop :=
  exists (e : Edge.Edge double) (q : Q),
    Edge.edges (heap s) !! edge = Some e /\
    Double.value (Edge.cross_section_area_ e) = Some q /\
    (q == exact_total (shares s) (Edge.adjacent_tetrahedra_ e))%Q /\
    NoDup (Edge.adjacent_tetrahedra_ e) /\
    (forall x : ptr, x ∈ Edge.adjacent_tetrahedra_ e <->
                     exists t, x = Some t /\ is_Some (shares s !! t)).

End CrossSection.

(* ===================================================================== *)
(** * edge.cc : class SpaceNode, the edges of a node *)
(* ===================================================================== *)

Module Neighbors.
Section Neighbors.
Context {R : Type} `{Scalar R}.

Implicit Types (h : Edge.Heap R) (this : addr).

(** [SpaceNode::equalTo]: [return other.get() == this;] *)
Definition equalTo (this : addr) (other : ptr) : bool := ptr_eqb other (Some this).

(** [e->getOpposite(this->shared_from_this())] for an element [e] of
    [adjacent_edges_]. *)
Definition opposite_of h this (e : ptr) : result ptr :=
  match e with
  | None => Undefined
  | Some l =>
      match Edge.edges h !! l with
      | Some edge => Edge.getOpposite edge (Some this)
      | None => Undefined
      end
  end.

(** The loop of [getNeighbors]:
<<
  for (auto e : adjacent_edges_) {
    result.push_back(e->getOpposite(this->shared_from_this())->getUserObject());
  }
>> *)
Fixpoint collect_neighbors h this (edges : list ptr) : result (list ptr) :=
  match edges with
  | [] => Returns []
  | e :: rest =>
      match opposite_of h this e with
      | Returns opp =>
          match deref_node (Edge.nodes h) opp with
          | Returns n =>
              match collect_neighbors h this rest with
              | Returns result => Returns (SpaceNode.getUserObject n :: result)
              | Throws x => Throws x
              | Undefined => Undefined
              end
          | Throws x => Throws x
          | Undefined => Undefined
          end
      | Throws x => Throws x
      | Undefined => Undefined
      end
  end.

Definition getNeighbors h this : result (list ptr) :=
  match Edge.nodes h !! this with
  | Some n => collect_neighbors h this (SpaceNode.adjacent_edges_ n)
  | None => Undefined
  end.

(** The loop of [getPermanentListOfNeighbors]:
<<
  for (auto e : adjacent_edges_) {
    auto opp = e->getOpposite(this->shared_from_this());
    if (opp != nullptr) { ret.push_back(opp->getUserObject()); }
  }
>> *)
Fixpoint collect_permanent h this (edges : list ptr) : result (list ptr) :=
  match edges with
  | [] => Returns []
  | e :: rest =>
      match opposite_of h this e with
      | Returns opp =>
          if negb (ptr_eqb opp None) then
            match deref_node (Edge.nodes h) opp with
            | Returns n =>
                match collect_permanent h this rest with
                | Returns ret => Returns (SpaceNode.getUserObject n :: ret)
                | Throws x => Throws x
                | Undefined => Undefined
                end
            | Throws x => Throws x
            | Undefined => Undefined
            end
          else collect_permanent h this rest
      | Throws x => Throws x
      | Undefined => Undefined
      end
  end.

Definition getPermanentListOfNeighbors h this : result (list ptr) :=
  match Edge.nodes h !! this with
  | Some n => collect_permanent h this (SpaceNode.adjacent_edges_ n)
  | None => Undefined
  end.

(** [p->equalTo(other)] through a shared pointer [p] that is not null. *)
Definition call_equalTo h (p other : ptr) : result bool :=
  match deref_node (Edge.nodes h) p with
  | Returns _ => Returns (ptr_eqb other p)
  | Throws x => Throws x
  | Undefined => Undefined
  end.

(** The test of [searchEdge]:
<<
  (opp != nullptr && opp->equalTo(opposite_node))
      || (opposite_node != nullptr && opposite_node->equalTo(opp))
>> *)
Definition is_edge_to h (opp opposite_node : ptr) : result bool :=
  match (if negb (ptr_eqb opp None) then call_equalTo h opp opposite_node
         else Returns false) with
  | Returns true => Returns true
  | Returns false =>
      if negb (ptr_eqb opposite_node None) then call_equalTo h opposite_node opp
      else Returns false
  | Throws x => Throws x
  | Undefined => Undefined
  end.

(** The loop of [searchEdge]; the result is the edge at which it returns,
    if it does. *)
Fixpoint find_edge h this (opposite_node : ptr) (edges : list ptr) : result (option ptr) :=
  match edges with
  | [] => Returns None
  | e :: rest =>
      match opposite_of h this e with
      | Returns opp =>
          match is_edge_to h opp opposite_node with
          | Returns true => Returns (Some e)
          | Returns false => find_edge h this opposite_node rest
          | Throws x => Throws x
          | Undefined => Undefined
          end
      | Throws x => Throws x
      | Undefined => Undefined
      end
  end.

(** [searchEdge(opposite_node)]:
<<
  for (auto e : adjacent_edges_) {
    auto opp = e->getOpposite(this->shared_from_this());
    if (...) { return e; }
  }
  return std::shared_ptr<Edge<T>>(
      Edge<T>::create(this->shared_from_this(), opposite_node));
>>
    [fresh] is the address at which a new edge is allocated. *)
Definition searchEdge (fresh : addr) this (opposite_node : ptr) h
    : result (ptr * Edge.Heap R) :=
  match Edge.nodes h !! this with
  | Some n =>
      match find_edge h this opposite_node (SpaceNode.adjacent_edges_ n) with
      | Returns (Some e) => Returns (e, h)
      | Returns None =>
          Returns (Some fresh, Edge.create fresh (Some this) opposite_node h)
      | Throws x => Throws x
      | Undefined => Undefined
      end
  | None => Undefined
  end.

(** No node lists the edge at [this]: the address is that of an edge
    about to be created. *)
Definition unlisted h this : Prop :=
  forall (l : addr) (n : SpaceNode.SpaceNode),
    Edge.nodes h !! l = Some n -> Some this ∉ SpaceNode.adjacent_edges_ n.

(** [h'] has the edges of [h], and its nodes with the same user objects. *)
Definition extends h h' : Prop :=
  (forall l e, Edge.edges h !! l = Some e -> Edge.edges h' !! l = Some e) /\
  (forall l n, Edge.nodes h !! l = Some n ->
     exists n', Edge.nodes h' !! l = Some n' /\
                SpaceNode.getUserObject n' = SpaceNode.getUserObject n).

(** The node [n] with other incident edges. *)
Definition with_edges (edges : list ptr) (n : SpaceNode.SpaceNode) : SpaceNode.SpaceNode :=
  SpaceNode.mkSpaceNode (SpaceNode.id_ n) (SpaceNode.content_ n) (SpaceNode.listeners_ n)
    (SpaceNode.position_ n) edges (SpaceNode.adjacent_tetrahedra_ n) (SpaceNode.volume_ n).

End Neighbors.
End Neighbors.

(* ===================================================================== *)
(** * edge.cc : class SpaceNode, new nodes *)
(* ===================================================================== *)

Module NewInstance.
Section NewInstance.
Import Neighbors.
Context {R : Type} `{Scalar R}.

Implicit Types (h : Edge.Heap R) (this : addr).

(** The constructors [SpaceNode(...)] number the nodes:
    [id_(SpaceNode::id_counter_++)].  The result is the node and the new
    value of the static counter; incrementing the largest [int] has no
    defined behaviour. *)
Definition construct (id_counter_ : Z) (position : array3) (content : ptr)
    : result (SpaceNode.SpaceNode * Z) :=
  if id_counter_ =? 2 ^ 31 - 1 then Undefined
  else Returns (SpaceNode.create id_counter_ position content, id_counter_ + 1).

(** Nodes constructed one after the other. *)
Fixpoint construct_all (id_counter_ : Z) (arguments : list (array3 * ptr))
    : result (list SpaceNode.SpaceNode * Z) :=
  match arguments with
  | [] => Returns ([], id_counter_)
  | (position, content) :: rest =>
      match construct id_counter_ position content with
      | Returns (n, id_counter') =>
          match construct_all id_counter' rest with
          | Returns (ns, last) => Returns (n :: ns, last)
          | Throws x => Throws x
          | Undefined => Undefined
          end
      | Throws x => Throws x
      | Undefined => Undefined
      end
  end.

(** [adjacent_edges_.clear();] *)
Definition clear_edges (n : SpaceNode.SpaceNode) : SpaceNode.SpaceNode := with_edges [] n.

(** [p->adjacent_edges_.clear();] through a shared pointer. *)
Definition clear_edges_of (p : ptr) h : result (Edge.Heap R) :=
  match deref_node (Edge.nodes h) p, p with
  | Returns _, Some l =>
      Returns (Edge.mkHeap (alter clear_edges l (Edge.nodes h)) (Edge.edges h))
  | Throws x, _ => Throws x
  | _, _ => Undefined
  end.

(** What [getNewInstance] calls and this part of the model does not
    follow: [Tetrahedron::createInitialTetrahedron(this, insert_point, a,
    b, oto)], defined outside edge.cc (the organizer made by
    [java_->oto_createSimpleOpenTriangleOrganizer()] is part of the call),
    and [insert_point->insert(start)], which works on the tetrahedra; both
    are given by what they do to the nodes and the edges. *)
Variable createInitialTetrahedron :
  addr -> addr -> ptr -> ptr -> Edge.Heap R -> result (Edge.Heap R).
Variable insert : addr -> ptr -> Edge.Heap R -> result (Edge.Heap R).

(** The branch for a node with two edges and no tetrahedron:
<<
  auto a = adjacent_edges_.front()->getOpposite(this->shared_from_this());
  auto b = adjacent_edges_.back()->getOpposite(this->shared_from_this());
  adjacent_edges_.clear();
  a->adjacent_edges_.clear();
  b->adjacent_edges_.clear();
  auto oto = java_->oto_createSimpleOpenTriangleOrganizer();
  Tetrahedron<T>::createInitialTetrahedron(this->shared_from_this(),
                                           insert_point, a, b, oto);
>> *)
Definition first_tetrahedron (insert_point : addr) this (edges : list ptr) h
    : result (Edge.Heap R) :=
  match opposite_of h this (List.hd None edges),
        opposite_of h this (List.last edges None) with
  | Returns a, Returns b =>
      let h1 := Edge.mkHeap (alter clear_edges this (Edge.nodes h)) (Edge.edges h) in
      match clear_edges_of a h1 with
      | Returns h2 =>
          match clear_edges_of b h2 with
          | Returns h3 => createInitialTetrahedron this insert_point a b h3
          | Throws x => Throws x
          | Undefined => Undefined
          end
      | Throws x => Throws x
      | Undefined => Undefined
      end
  | Throws x, _ => Throws x
  | Returns _, Throws x => Throws x
  | _, _ => Undefined
  end.

(** The branch for a node with fewer edges and no tetrahedron:
<<
  Edge<T>::create(this->shared_from_this(), insert_point);
  if (adjacent_edges_.size() == 2) {
    Edge<T>::create(
        adjacent_edges_.back()->getOpposite(this->shared_from_this()),
        insert_point);
  }
>>
    [edge1] and [edge2] are the addresses at which the edges are
    allocated. *)
Definition new_edges (insert_point edge1 edge2 : addr) this h : result (Edge.Heap R) :=
  let h1 := Edge.create edge1 (Some this) (Some insert_point) h in
  match Edge.nodes h1 !! this with
  | Some n1 =>
      if Nat.eqb (length (SpaceNode.adjacent_edges_ n1)) 2 then
        match opposite_of h1 this (List.last (SpaceNode.adjacent_edges_ n1) None) with
        | Returns opp => Returns (Edge.create edge2 opp (Some insert_point) h1)
        | Throws x => Throws x
        | Undefined => Undefined
        end
      else Returns h1
  | None => Undefined
  end.

(** [getNewInstance(position, user_object)]:
<<
  auto insert_point = std::shared_ptr<SpaceNode<T> >(
      SpaceNode<T>::create(position, user_object));
  insert_point->setListenerList(listeners_);
  if (adjacent_tetrahedra_.empty()) {
    if (adjacent_edges_.size() == 2) { ... first tetrahedron ... }
    else { ... new edges ... }
  } else {
    insert_point->insert(adjacent_tetrahedra_.front());
  }
  return std::shared_ptr<SpaceNode<T> >(insert_point);
>>
    [SpaceNode<T>::create] is declared in space_node.h; as the factory
    functions of the other classes do (see [FlatTetrahedron::create]), it
    is taken to allocate the node with the constructor of the same
    arguments.  [insert_point] is the address at which the node is
    allocated; the result is the pointer to it, the new [id_counter_] and
    the new heap. *)
Definition getNewInstance (id_counter_ : Z) (insert_point edge1 edge2 : addr) this
    (position : array3) (user_object : ptr) h : result (ptr * Z * Edge.Heap R) :=
  match Edge.nodes h !! this with
  | None => Undefined
  | Some n =>
      match construct id_counter_ position user_object with
      | Returns (created, id_counter') =>
          let h0 :=
            Edge.mkHeap
              (<[insert_point := SpaceNode.setListenerList (SpaceNode.listeners_ n) created]>
                 (Edge.nodes h))
              (Edge.edges h) in
          let changed :=
            match SpaceNode.adjacent_tetrahedra_ n with
            | [] =>
                if Nat.eqb (length (SpaceNode.adjacent_edges_ n)) 2 then
                  first_tetrahedron insert_point this (SpaceNode.adjacent_edges_ n) h0
                else new_edges insert_point edge1 edge2 this h0
            | front :: _ => insert insert_point front h0
            end in
          match changed with
          | Returns h' => Returns (Some insert_point, id_counter', h')
          | Throws x => Throws x
          | Undefined => Undefined
          end
      | Throws x => Throws x
      | Undefined => Undefined
      end
  end.

End NewInstance.
End NewInstance.

(* ===================================================================== *)
(** * 32-bit integers and the checking index *)
(* ===================================================================== *)

Module Int.

(** The value of type [int] that a mathematical integer wraps to. *)
Definition wrap (z : Z) : Z := (z + 2 ^ 31) mod 2 ^ 32 - 2 ^ 31.

Definition add (x y : Z) : Z := wrap (x + y).

(** The operator [%]: the remainder of the division that truncates
    towards zero. *)
Definition rem (x y : Z) : Z := wrap (Z.rem x y).

End Int.

(** [SpaceNode::createNewCheckingIndex], as a function of the static
    member [checking_index_]; the result is the new value of the member and
    the returned value.
<<
  checking_index_ = (checking_index_ + 1) % 2000000000;
  return checking_index_;
>> *)
Definition createNewCheckingIndex (checking_index_ : Z) : Z * Z :=
  let c := Int.rem (Int.add checking_index_ 1) 2000000000 in
  (c, c).

(** The static member after [n] allocations; it is initialised with 0
    ([int SpaceNode<T>::checking_index_ = 0;]). *)
Definition checking_index_after (n : N) : Z :=
  N.iter n (fun s => fst (createNewCheckingIndex s)) 0.

(* ===================================================================== *)
(** * edge.cc : class SpaceNode, motion and Delaunay restoration *)
(* ===================================================================== *)

Module Triangulation.

(** ** Listeners *)

(** The calls of [SpatialOrganizationNodeMovementListener]. *)
Inductive callback : Type :=
| nodeAboutToMove (node : addr) (delta : array3)
| nodeMoved (node : addr)
| nodeAboutToBeRemoved (node : addr)
| nodeRemoved (node : addr)
| nodeAboutToBeAdded (node : addr) (position : array3) (vertice_contents : list ptr)
| nodeAdded (node : addr).

(** One call of a listener, with the position that the notifying node has
    while the listener runs (what [node->getPosition()] shows it). *)
Record Notification : Type := mkNotification {
  listener : addr;
  call : callback;
  observed_position : array3;
}.

(** ** The state *)

(** The calls by which the code of the tetrahedra, triangles and edges
    changes a node: the public member functions of [SpaceNode] that write
    its adjacency lists and its volume. *)
Inductive NodeCall : Type :=
| Call_addAdjacentTetrahedron (tetrahedron : ptr)
| Call_removeTetrahedron (tetrahedron : ptr)
| Call_addEdge (edge : ptr)
| Call_removeEdge (edge : ptr)
| Call_changeVolume (change : double).

Definition apply_call (c : NodeCall) : SpaceNode.SpaceNode -> SpaceNode.SpaceNode :=
  match c with
  | Call_addAdjacentTetrahedron t => SpaceNode.addAdjacentTetrahedron t
  | Call_removeTetrahedron t => SpaceNode.removeTetrahedron t
  | Call_addEdge e => SpaceNode.addEdge e
  | Call_removeEdge e => SpaceNode.removeEdge e
  | Call_changeVolume d => SpaceNode.changeVolume d
  end.

Fixpoint apply_calls (calls : list (addr * NodeCall)) (ns : NodeHeap) : NodeHeap :=
  match calls with
  | [] => ns
  | (l, c) :: calls' => apply_calls calls' (alter (apply_call c) l ns)
  end.

(** The nodes, the state [G] of the tetrahedra, triangles, edges and
    open-triangle organizers, the static member [checking_index_], and the
    listener calls made so far (oldest first). *)
Record World (G : Type) : Type := mkWorld {
  nodes : NodeHeap;
  geo : G;
  checking_index_ : Z;
  notifications : list Notification;
}.
Arguments mkWorld {G} _ _ _ _.
Arguments nodes {G} _.
Arguments geo {G} _.
Arguments checking_index_ {G} _.
Arguments notifications {G} _.

(** What a state-changing member function of a tetrahedron, a triangle or
    an organizer does: a new state [G], calls on nodes, and a value. *)
Record Effect (G A : Type) : Type := mkEffect {
  eff_geo : G;
  eff_calls : list (addr * NodeCall);
  eff_value : A;
}.
Arguments mkEffect {G A} _ _ _.
Arguments eff_geo {G A} _.
Arguments eff_calls {G A} _.
Arguments eff_value {G A} _.

Definition apply_effect {G A : Type} (e : Effect G A) (w : World G) : World G :=
  mkWorld (apply_calls (eff_calls e) (nodes w)) (eff_geo e)
          (checking_index_ w) (notifications w).

(** ** The member functions defined outside edge.cc

    The classes [Tetrahedron], [Triangle3D], [OpenTriangleOrganizer] and
    [JavaUtil] are used by [SpaceNode] through the member functions below;
    their definitions are not part of the sources at hand, so they are
    parameters of the model.  Predicates and getters read the state;
    the other functions change it and are given by their [Effect]. *)
Record Kernel (G : Type) : Type := mkKernel {
  (* Tetrahedron, reading *)
  Tetrahedron_isInfinite : World G -> addr -> bool;
  Tetrahedron_isFlat : World G -> addr -> bool;
  Tetrahedron_isValid : World G -> addr -> bool;
  Tetrahedron_getAdjacentTriangles : World G -> addr -> list ptr;
  Tetrahedron_getAdjacentNodes : World G -> addr -> list ptr;
  Tetrahedron_getAdjacentTetrahedron : World G -> addr -> Z -> ptr;
  Tetrahedron_getOppositeTriangle : World G -> addr -> ptr -> ptr;
  Tetrahedron_getOppositeNode : World G -> addr -> ptr -> ptr;
  Tetrahedron_isTrulyInsideSphere : World G -> addr -> array3 -> bool;
  Tetrahedron_isInsideSphere : World G -> addr -> array3 -> bool;
  Tetrahedron_isNeighbor : World G -> addr -> ptr -> bool;
  Tetrahedron_isAdjacentTo : World G -> addr -> ptr -> bool;
  Tetrahedron_getVerticeContents : World G -> addr -> list ptr;
  (* [testPosition] and [walkToPoint]: the exception that leaves the call,
     if any.  The declarations have their throw specifications commented
     out ([//fnoexceptionthrow(std::exception)]); whether the definitions
     throw is left open here, and [throws_nothing] below says they do not *)
  Tetrahedron_testPosition : World G -> addr -> array3 -> option exception;
  Tetrahedron_walkToPoint : World G -> addr -> array3 -> list Z -> exception + ptr;
  (* Tetrahedron, writing *)
  Tetrahedron_remove : World G -> addr -> Effect G unit;
  Tetrahedron_updateCirumSphereAfterNodeMovement : World G -> addr -> addr -> Effect G unit;
  Tetrahedron_create : World G -> ptr -> addr -> addr -> Effect G ptr;
  Tetrahedron_flip3to2 : World G -> ptr -> ptr -> ptr -> Effect G (ptr * ptr);
  Tetrahedron_flip2to3 : World G -> ptr -> ptr -> Effect G (ptr * ptr * ptr);
  Tetrahedron_remove2FlatTetrahedra : World G -> ptr -> ptr -> Effect G (list ptr);
  (* Triangle3D *)
  Triangle3D_getOppositeTetrahedron : World G -> addr -> ptr -> ptr;
  Triangle3D_isCompletelyOpen : World G -> addr -> bool;
  Triangle3D_trulyOnSameSide : World G -> addr -> array3 -> array3 -> bool;
  Triangle3D_updatePlaneEquationIfNecessary : World G -> addr -> Effect G unit;
  Triangle3D_wasCheckedAlready : World G -> addr -> Z -> Effect G bool;
  (* OpenTriangleOrganizer *)
  OTO_getANewTetrahedron : World G -> addr -> ptr;
  OTO_putTriangle : World G -> addr -> ptr -> Effect G unit;
  OTO_removeTriangle : World G -> addr -> ptr -> Effect G unit;
  OTO_removeAllTetrahedraInSphere : World G -> addr -> ptr -> Effect G unit;
  OTO_triangulate : World G -> addr -> Effect G unit;
  (* JavaUtil *)
  JavaUtil_oto_createSimpleOpenTriangleOrganizer : World G -> Effect G addr;
  JavaUtil_generateTriangleOrder : World G -> Effect G (list Z);
}.
Arguments mkKernel {G}.
Arguments Tetrahedron_isInfinite {G} _.
Arguments Tetrahedron_isFlat {G} _.
Arguments Tetrahedron_isValid {G} _.
Arguments Tetrahedron_getAdjacentTriangles {G} _.
Arguments Tetrahedron_getAdjacentNodes {G} _.
Arguments Tetrahedron_getAdjacentTetrahedron {G} _.
Arguments Tetrahedron_getOppositeTriangle {G} _.
Arguments Tetrahedron_getOppositeNode {G} _.
Arguments Tetrahedron_isTrulyInsideSphere {G} _.
Arguments Tetrahedron_isInsideSphere {G} _.
Arguments Tetrahedron_isNeighbor {G} _.
Arguments Tetrahedron_isAdjacentTo {G} _.
Arguments Tetrahedron_getVerticeContents {G} _.
Arguments Tetrahedron_testPosition {G} _.
Arguments Tetrahedron_walkToPoint {G} _.
Arguments Tetrahedron_remove {G} _.
Arguments Tetrahedron_updateCirumSphereAfterNodeMovement {G} _.
Arguments Tetrahedron_create {G} _.
Arguments Tetrahedron_flip3to2 {G} _.
Arguments Tetrahedron_flip2to3 {G} _.
Arguments Tetrahedron_remove2FlatTetrahedra {G} _.
Arguments Triangle3D_getOppositeTetrahedron {G} _.
Arguments Triangle3D_isCompletelyOpen {G} _.
Arguments Triangle3D_trulyOnSameSide {G} _.
Arguments Triangle3D_updatePlaneEquationIfNecessary {G} _.
Arguments Triangle3D_wasCheckedAlready {G} _.
Arguments OTO_getANewTetrahedron {G} _.
Arguments OTO_putTriangle {G} _.
Arguments OTO_removeTriangle {G} _.
Arguments OTO_removeAllTetrahedraInSphere {G} _.
Arguments OTO_triangulate {G} _.
Arguments JavaUtil_oto_createSimpleOpenTriangleOrganizer {G} _.
Arguments JavaUtil_generateTriangleOrder {G} _.

(** ** How a call ends *)

(** A call that changes the state returns a value, throws (the state is
    the one reached when the exception leaves the function), has no defined
    behaviour, or is still running when the fuel of a loop is used up. *)
Inductive outcome (S A : Type) : Type :=
| Done (a : A) (s : S)
| Raised (e : exception) (s : S)
| Fault
| OutOfFuel.
Arguments Done {S A} a s.
Arguments Raised {S A} e s.
Arguments Fault {S A}.
Arguments OutOfFuel {S A}.

Definition M (G A : Type) : Type := World G -> outcome (World G) A.

Definition ret {G A : Type} (a : A) : M G A := fun w => Done a w.

Definition bind {G A B : Type} (m : M G A) (k : A -> M G B) : M G B :=
  fun w =>
    match m w with
    | Done a w' => k a w'
    | Raised e w' => Raised e w'
    | Fault => Fault
    | OutOfFuel => OutOfFuel
    end.

Notation "'let*' x ':=' m 'in' k" := (bind m (fun x => k))
  (at level 10, x pattern, m at level 100, k at level 200).

Definition fault {G A : Type} : M G A := fun _ => Fault.
Definition out_of_fuel {G A : Type} : M G A := fun _ => OutOfFuel.
Definition raise {G A : Type} (e : exception) : M G A := fun w => Raised e w.

(** Reading the state. *)
Definition query {G A : Type} (f : World G -> A) : M G A := fun w => Done (f w) w.

(** A state-changing member function defined outside edge.cc. *)
Definition command {G A : Type} (f : World G -> Effect G A) : M G A :=
  fun w => Done (eff_value (f w)) (apply_effect (f w) w).

(** Following a shared pointer. *)
Definition deref {G : Type} (p : ptr) : M G addr :=
  match p with
  | Some l => ret l
  | None => fault
  end.

(** The node at an address. *)
Definition node {G : Type} (l : addr) : M G SpaceNode.SpaceNode :=
  fun w =>
    match nodes w !! l with
    | Some n => Done n w
    | None => Fault
    end.

(** [p->getPosition()] for a pointer to a node. *)
Definition getPosition {G : Type} (p : ptr) : M G array3 :=
  let* l := deref p in
  let* n := node l in
  ret (SpaceNode.getPosition n).

(** Writing a member of the node at an address. *)
Definition update_node {G : Type} (l : addr)
    (f : SpaceNode.SpaceNode -> SpaceNode.SpaceNode) : M G unit :=
  fun w =>
    Done tt (mkWorld (alter f l (nodes w)) (geo w) (checking_index_ w) (notifications w)).

(** The state after [position_ = new_position;] in the node at [this]. *)
Definition move_node {G : Type} (this : addr) (new_position : array3) (w : World G)
    : World G :=
  mkWorld (alter (SpaceNode.set_position new_position) this (nodes w))
    (geo w) (checking_index_ w) (notifications w).

(** [listener->c(...)], called by the node at [this]. *)
Definition notify {G : Type} (this : addr) (l : addr) (c : callback) : M G unit :=
  let* n := node this in
  fun w =>
    Done tt (mkWorld (nodes w) (geo w) (checking_index_ w)
               (notifications w ++ [mkNotification l c (SpaceNode.position_ n)])).

(** [for (auto x : xs) body(x);] *)
Fixpoint for_each {G A : Type} (xs : list A) (body : A -> M G unit) : M G unit :=
  match xs with
  | [] => ret tt
  | x :: xs' => let* _ := body x in for_each xs' body
  end.

(** [v[i]] for an array or vector. *)
Definition at_index {G A : Type} (v : list A) (i : nat) : M G A :=
  match v !! i with
  | Some x => ret x
  | None => fault
  end.

Section SpaceNodeMethods.
Context {G : Type} (K : Kernel G).

(** ** Calls through shared pointers

    [p->f(...)] follows [p]; on a null pointer the call has no defined
    behaviour. *)

Definition read {A : Type} (f : World G -> addr -> A) (p : ptr) : M G A :=
  let* l := deref p in query (fun w => f w l).

Definition run {A : Type} (f : World G -> addr -> Effect G A) (p : ptr) : M G A :=
  let* l := deref p in command (fun w => f w l).

Definition isInfinite (t : ptr) : M G bool := read (Tetrahedron_isInfinite K) t.
Definition isFlat (t : ptr) : M G bool := read (Tetrahedron_isFlat K) t.
Definition isValid (t : ptr) : M G bool := read (Tetrahedron_isValid K) t.
Definition getAdjacentTriangles (t : ptr) : M G (list ptr) :=
  read (Tetrahedron_getAdjacentTriangles K) t.
Definition getAdjacentNodes (t : ptr) : M G (list ptr) :=
  read (Tetrahedron_getAdjacentNodes K) t.
Definition getAdjacentTetrahedron (t : ptr) (number : Z) : M G ptr :=
  read (fun w l => Tetrahedron_getAdjacentTetrahedron K w l number) t.
Definition getOppositeTriangle (t : ptr) (n : ptr) : M G ptr :=
  read (fun w l => Tetrahedron_getOppositeTriangle K w l n) t.
Definition getOppositeNode (t : ptr) (triangle : ptr) : M G ptr :=
  read (fun w l => Tetrahedron_getOppositeNode K w l triangle) t.
Definition isTrulyInsideSphere (t : ptr) (point : array3) : M G bool :=
  read (fun w l => Tetrahedron_isTrulyInsideSphere K w l point) t.
Definition isInsideSphere (t : ptr) (point : array3) : M G bool :=
  read (fun w l => Tetrahedron_isInsideSphere K w l point) t.
Definition isNeighbor (t : ptr) (other : ptr) : M G bool :=
  read (fun w l => Tetrahedron_isNeighbor K w l other) t.
Definition isAdjacentTo (t : ptr) (n : ptr) : M G bool :=
  read (fun w l => Tetrahedron_isAdjacentTo K w l n) t.
Definition getVerticeContents (t : ptr) : M G (list ptr) :=
  read (Tetrahedron_getVerticeContents K) t.

Definition testPosition (t : ptr) (position : array3) : M G unit :=
  let* thrown := read (fun w l => Tetrahedron_testPosition K w l position) t in
  match thrown with
  | Some e => raise e
  | None => ret tt
  end.

Definition walkToPoint (t : ptr) (coordinate : array3) (triangle_order : list Z) : M G ptr :=
  let* r := read (fun w l => Tetrahedron_walkToPoint K w l coordinate triangle_order) t in
  match r with
  | inl e => raise e
  | inr next => ret next
  end.

Definition tetrahedron_remove (t : ptr) : M G unit := run (Tetrahedron_remove K) t.
Definition updateCirumSphereAfterNodeMovement (t : ptr) (moved_node : addr) : M G unit :=
  run (fun w l => Tetrahedron_updateCirumSphereAfterNodeMovement K w l moved_node) t.
Definition tetrahedron_create (one_triangle : ptr) (fourth_point : addr) (oto : addr) : M G ptr :=
  command (fun w => Tetrahedron_create K w one_triangle fourth_point oto).

Definition getOppositeTetrahedron (triangle : ptr) (t : ptr) : M G ptr :=
  read (fun w l => Triangle3D_getOppositeTetrahedron K w l t) triangle.
Definition isCompletelyOpen (triangle : ptr) : M G bool :=
  read (Triangle3D_isCompletelyOpen K) triangle.
Definition trulyOnSameSide (triangle : ptr) (p q : array3) : M G bool :=
  read (fun w l => Triangle3D_trulyOnSameSide K w l p q) triangle.
Definition updatePlaneEquationIfNecessary (triangle : ptr) : M G unit :=
  run (Triangle3D_updatePlaneEquationIfNecessary K) triangle.
Definition wasCheckedAlready (triangle : ptr) (checking_index : Z) : M G bool :=
  run (fun w l => Triangle3D_wasCheckedAlready K w l checking_index) triangle.

Definition getANewTetrahedron (oto : addr) : M G ptr :=
  query (fun w => OTO_getANewTetrahedron K w oto).
Definition putTriangle (oto : addr) (triangle : ptr) : M G unit :=
  command (fun w => OTO_putTriangle K w oto triangle).
Definition removeTriangle (oto : addr) (triangle : ptr) : M G unit :=
  command (fun w => OTO_removeTriangle K w oto triangle).
Definition removeAllTetrahedraInSphere (oto : addr) (t : ptr) : M G unit :=
  command (fun w => OTO_removeAllTetrahedraInSphere K w oto t).
Definition triangulate (oto : addr) : M G unit :=
  command (fun w => OTO_triangulate K w oto).
Definition oto_createSimpleOpenTriangleOrganizer : M G addr :=
  command (JavaUtil_oto_createSimpleOpenTriangleOrganizer K).
Definition generateTriangleOrder : M G (list Z) :=
  command (JavaUtil_generateTriangleOrder K).

(** The listeners of the node at [this] are told [c], in order. *)
Definition notify_listeners (this : addr) (c : callback) : M G unit :=
  let* n := node this in
  for_each (SpaceNode.listeners_ n) (fun l => notify this l c).

(** ** [SpaceNode::searchInitialInsertionTetrahedron(start, coordinate)]
<<
  auto current = start;
  if (current->isInfinite()) {
    current = current->getOppositeTriangle(null_space_node)
        ->getOppositeTetrahedron(current);
  }
  auto last = null_tetrahedron;
  while (current != last && !current->isInfinite()) {
    last = current;
    current = current->walkToPoint(coordinate, java_->generateTriangleOrder());
  }
  return current;
>> *)
Fixpoint walk (fuel : nat) (coordinate : array3) (current last : ptr) : M G ptr :=
  if ptr_eqb current last then ret current
  else
    let* infinite := isInfinite current in
    if infinite then ret current
    else
      match fuel with
      | O => out_of_fuel
      | S fuel' =>
          let* order := generateTriangleOrder in
          let* next := walkToPoint current coordinate order in
          walk fuel' coordinate next current
      end.

Definition searchInitialInsertionTetrahedron
    (fuel : nat) (start : ptr) (coordinate : array3) : M G ptr :=
  let* infinite := isInfinite start in
  let* current :=
    if infinite then
      let* triangle := getOppositeTriangle start None in
      getOppositeTetrahedron triangle start
    else ret start in
  walk fuel coordinate current None.

(** ** [SpaceNode::checkIfTriangulationIsStillValid(new_position)]
<<
  for (auto tetrahedron : adjacent_tetrahedra_) {
    if (tetrahedron->isFlat()) { return false; }
    if (tetrahedron->isInfinite()) {
      auto inner_tet = tetrahedron->getAdjacentTetrahedron(0);
      if (inner_tet->getAdjacentTetrahedron(0)->isInfinite()
          && inner_tet->getAdjacentTetrahedron(1)->isInfinite()
          && inner_tet->getAdjacentTetrahedron(2)->isInfinite()
          && inner_tet->getAdjacentTetrahedron(3)->isInfinite()) {
        return true;
      } else { return false; }
    } else {
      auto triangle = tetrahedron->getOppositeTriangle(this->shared_from_this());
      triangle->updatePlaneEquationIfNecessary();
      if (!triangle->trulyOnSameSide(position_, new_position)) {
        tetrahedron->testPosition(new_position);
        return false;
      }
    }
  }
  return true;
>> *)

(** [inner_tet->getAdjacentTetrahedron(number)->isInfinite()] *)
Definition neighbor_isInfinite (inner_tet : ptr) (number : Z) : M G bool :=
  let* neighbor := getAdjacentTetrahedron inner_tet number in
  isInfinite neighbor.

(** The conjunction over the four neighbours, evaluated from left to
    right until one of them is finite. *)
Definition all_neighbors_infinite (inner_tet : ptr) : M G bool :=
  let* i0 := neighbor_isInfinite inner_tet 0 in
  if negb i0 then ret false else
  let* i1 := neighbor_isInfinite inner_tet 1 in
  if negb i1 then ret false else
  let* i2 := neighbor_isInfinite inner_tet 2 in
  if negb i2 then ret false else
  neighbor_isInfinite inner_tet 3.

Fixpoint check_tetrahedra (this : addr) (new_position : array3)
    (tetrahedra : list ptr) : M G bool :=
  match tetrahedra with
  | [] => ret true
  | tetrahedron :: rest =>
      let* flat := isFlat tetrahedron in
      if flat then ret false
      else
        let* infinite := isInfinite tetrahedron in
        if infinite then
          let* inner_tet := getAdjacentTetrahedron tetrahedron 0 in
          let* all_infinite := all_neighbors_infinite inner_tet in
          if all_infinite then ret true else ret false
        else
          let* triangle := getOppositeTriangle tetrahedron (Some this) in
          let* _ := updatePlaneEquationIfNecessary triangle in
          let* n := node this in
          let* same := trulyOnSameSide triangle (SpaceNode.position_ n) new_position in
          if negb same then
            let* _ := testPosition tetrahedron new_position in
            ret false
          else check_tetrahedra this new_position rest
  end.

Definition checkIfTriangulationIsStillValid (this : addr) (new_position : array3) : M G bool :=
  let* n := node this in
  check_tetrahedra this new_position (SpaceNode.adjacent_tetrahedra_ n).

(** ** [SpaceNode::removeAndReturnCreatedTetrahedron()]
<<
  for (auto listener : listeners_) { listener->nodeAboutToBeRemoved(this); }
  auto oto = java_->oto_createSimpleOpenTriangleOrganizer();
  std::vector<...> messed_up_tetrahedra;
  std::vector<...> adjacent_tetrahedra_cpy;   // a copy of adjacent_tetrahedra_
  for (auto tetrahedron : adjacent_tetrahedra_cpy) {
    if (tetrahedron->isValid()) {
      auto opposite_triangle = tetrahedron->getOppositeTriangle(this);
      oto->putTriangle(opposite_triangle);
      auto opposite_tetrahedron = opposite_triangle->getOppositeTetrahedron(tetrahedron);
      tetrahedron->remove();
      if ((opposite_tetrahedron != nullptr) && !opposite_tetrahedron->isInfinite()
          && (opposite_tetrahedron->isInsideSphere(getPosition()))) {
        messed_up_tetrahedra.push_back(opposite_tetrahedron);
      }
    }
  }
  for (auto tetrahedron : messed_up_tetrahedra) {
    if (tetrahedron->isValid()) { oto->removeAllTetrahedraInSphere(tetrahedron); }
  }
  oto->triangulate();
  for (auto listener : listeners_) { listener->nodeRemoved(this); }
  return oto->getANewTetrahedron();
>> *)
Definition is_messed_up (this : addr) (opposite_tetrahedron : ptr) : M G bool :=
  if ptr_eqb opposite_tetrahedron None then ret false
  else
    let* infinite := isInfinite opposite_tetrahedron in
    if infinite then ret false
    else
      let* n := node this in
      isInsideSphere opposite_tetrahedron (SpaceNode.getPosition n).

Fixpoint remove_adjacent (this oto : addr) (tetrahedra messed_up_tetrahedra : list ptr)
    : M G (list ptr) :=
  match tetrahedra with
  | [] => ret messed_up_tetrahedra
  | tetrahedron :: rest =>
      let* valid := isValid tetrahedron in
      if valid then
        let* opposite_triangle := getOppositeTriangle tetrahedron (Some this) in
        let* _ := putTriangle oto opposite_triangle in
        let* opposite_tetrahedron := getOppositeTetrahedron opposite_triangle tetrahedron in
        let* _ := tetrahedron_remove tetrahedron in
        let* messed_up := is_messed_up this opposite_tetrahedron in
        remove_adjacent this oto rest
          (if messed_up then messed_up_tetrahedra ++ [opposite_tetrahedron]
           else messed_up_tetrahedra)
      else remove_adjacent this oto rest messed_up_tetrahedra
  end.

Definition removeAndReturnCreatedTetrahedron (this : addr) : M G ptr :=
  let* _ := notify_listeners this (nodeAboutToBeRemoved this) in
  let* oto := oto_createSimpleOpenTriangleOrganizer in
  let* n := node this in
  let adjacent_tetrahedra_cpy := SpaceNode.adjacent_tetrahedra_ n in
  let* messed_up_tetrahedra := remove_adjacent this oto adjacent_tetrahedra_cpy [] in
  let* _ :=
    for_each messed_up_tetrahedra (fun tetrahedron =>
      let* valid := isValid tetrahedron in
      if valid then removeAllTetrahedraInSphere oto tetrahedron else ret tt) in
  let* _ := triangulate oto in
  let* _ := notify_listeners this (nodeRemoved this) in
  getANewTetrahedron oto.

(** ** [SpaceNode::processTetrahedron(tetrahedron, queue, oto)]
<<
  tetrahedron->remove();
  for (auto current_triangle : tetrahedron->getAdjacentTriangles()) {
    if (current_triangle->isCompletelyOpen()) {
      oto->removeTriangle(current_triangle);
    } else {
      queue.push_back(current_triangle);
      oto->putTriangle(current_triangle);
    }
  }
>> *)
Fixpoint process_triangles (oto : addr) (triangles queue : list ptr) : M G (list ptr) :=
  match triangles with
  | [] => ret queue
  | current_triangle :: rest =>
      let* open := isCompletelyOpen current_triangle in
      if open then
        let* _ := removeTriangle oto current_triangle in
        process_triangles oto rest queue
      else
        let* _ := putTriangle oto current_triangle in
        process_triangles oto rest (queue ++ [current_triangle])
  end.

Definition processTetrahedron (tetrahedron : ptr) (queue : list ptr) (oto : addr)
    : M G (list ptr) :=
  let* _ := tetrahedron_remove tetrahedron in
  let* triangles := getAdjacentTriangles tetrahedron in
  process_triangles oto triangles queue.

(** ** [SpaceNode::insert(start)]
<<
  auto insertion_start = searchInitialInsertionTetrahedron(start);
  if (listeners_.size() != 0) {
    auto vertice_contents = insertion_start->getVerticeContents();
    for (auto listener : listeners_) {
      listener->nodeAboutToBeAdded(this, position_, vertice_contents);
    }
  }
  auto oto = java_->oto_createSimpleOpenTriangleOrganizer();
  std::vector<...> queue;  std::vector<...> outer_triangles;
  processTetrahedron(insertion_start, queue, oto);
  for (auto i = 0; i < queue.size(); i++) {
    auto currentTriangle = queue[i];
    auto oppositeTetrahedron = currentTriangle->getOppositeTetrahedron(nullptr);
    if ((oppositeTetrahedron != nullptr)) {
      if (oppositeTetrahedron->isTrulyInsideSphere(position_)) {
        processTetrahedron(oppositeTetrahedron, queue, oto);
      } else {
        outer_triangles.push_back(currentTriangle);
      }
    }
  }
  std::shared_ptr<Tetrahedron<T> > ret(nullptr);
  for (auto current_triangle : outer_triangles) {
    if (!current_triangle->isCompletelyOpen()) {
      ret = Tetrahedron<T>::create(current_triangle, this, oto);
    }
  }
  for (auto listener : listeners_) { listener->nodeAdded(this); }
  return ret;
>> *)
Fixpoint process_queue (fuel : nat) (this oto : addr) (i : nat)
    (queue outer_triangles : list ptr) : M G (list ptr) :=
  match queue !! i with
  | None => ret outer_triangles
  | Some currentTriangle =>
      match fuel with
      | O => out_of_fuel
      | S fuel' =>
          let* oppositeTetrahedron := getOppositeTetrahedron currentTriangle None in
          if ptr_eqb oppositeTetrahedron None then
            process_queue fuel' this oto (S i) queue outer_triangles
          else
            let* n := node this in
            let* inside := isTrulyInsideSphere oppositeTetrahedron (SpaceNode.position_ n) in
            if inside then
              let* queue' := processTetrahedron oppositeTetrahedron queue oto in
              process_queue fuel' this oto (S i) queue' outer_triangles
            else
              process_queue fuel' this oto (S i) queue (outer_triangles ++ [currentTriangle])
      end
  end.

Fixpoint create_star (this oto : addr) (outer_triangles : list ptr) (created : ptr) : M G ptr :=
  match outer_triangles with
  | [] => ret created
  | current_triangle :: rest =>
      let* open := isCompletelyOpen current_triangle in
      if negb open then
        let* created' := tetrahedron_create current_triangle this oto in
        create_star this oto rest created'
      else create_star this oto rest created
  end.

Definition insert (fuel : nat) (this : addr) (start : ptr) : M G ptr :=
  let* n := node this in
  let* insertion_start :=
    searchInitialInsertionTetrahedron fuel start (SpaceNode.position_ n) in
  let* n := node this in
  let* _ :=
    if negb (Nat.eqb (length (SpaceNode.listeners_ n)) 0) then
      let* vertice_contents := getVerticeContents insertion_start in
      notify_listeners this
        (nodeAboutToBeAdded this (SpaceNode.position_ n) vertice_contents)
    else ret tt in
  let* oto := oto_createSimpleOpenTriangleOrganizer in
  let* queue := processTetrahedron insertion_start [] oto in
  let* outer_triangles := process_queue fuel this oto 0 queue [] in
  let* created := create_star this oto outer_triangles None in
  let* _ := notify_listeners this (nodeAdded this) in
  ret created.

(** ** [SpaceNode::restoreDelaunay()] *)

(** [a && b] and [a || b], the right operand being evaluated only when
    needed. *)
Definition and_then (a b : M G bool) : M G bool :=
  let* x := a in if x then b else ret false.

Definition or_else (a b : M G bool) : M G bool :=
  let* x := a in if x then ret true else b.

(** [createNewCheckingIndex()] on the static member of the state. *)
Definition createNewCheckingIndex_call : M G Z :=
  fun w =>
    let '(c, r) := createNewCheckingIndex (checking_index_ w) in
    Done r (mkWorld (nodes w) (geo w) c (notifications w)).

(** The repairs among which an iteration chooses. *)
Inductive Repair : Type :=
| Flip3to2 (tetrahedron tetrahedron_i tetrahedron_j : ptr)
| Remove2FlatTetrahedra (tetrahedron tetrahedron_i : ptr)
| Flip2to3 (tetrahedron tetrahedron_i : ptr)
| NoRepair.

(** The test of the loop over [j] for one [j]:
<<
  if (i != j) {
    auto triangle_j = tetrahedron->getAdjacentTriangles()[j];
    auto tetrahedron_j = triangle_j->getOppositeTetrahedron(tetrahedron);
    if (tetrahedron_j->isNeighbor(tetrahedron_i)) {
      auto opp_j = tet_adjacent_nodes[j];
      auto opp_i = tet_adjacent_nodes[i];
      if (opp_i != nullptr && opp_j != nullptr) {
        if ((tetrahedron->isFlat() && tetrahedron_i->isFlat()
                && tetrahedron_j->isFlat() && tetrahedron_i != tetrahedron_j)
            || (tetrahedron_j->isTrulyInsideSphere(opp_j->getPosition())
                && tetrahedron_i->isTrulyInsideSphere(opp_i->getPosition()))) {
          ... flip3to2(tetrahedron, tetrahedron_i, tetrahedron_j) ...; break;
>>
    The result is [tetrahedron_j] when the flip is to be made. *)
Definition third_tetrahedron (tetrahedron tetrahedron_i : ptr)
    (tet_adjacent_nodes : list ptr) (i j : nat) : M G (option ptr) :=
  if Nat.eqb i j then ret None
  else
    let* triangles := getAdjacentTriangles tetrahedron in
    let* triangle_j := at_index triangles j in
    let* tetrahedron_j := getOppositeTetrahedron triangle_j tetrahedron in
    let* neighbor := isNeighbor tetrahedron_j tetrahedron_i in
    if neighbor then
      let* opp_j := at_index tet_adjacent_nodes j in
      let* opp_i := at_index tet_adjacent_nodes i in
      if negb (ptr_eqb opp_i None) && negb (ptr_eqb opp_j None) then
        let* flip :=
          or_else
            (and_then (isFlat tetrahedron)
               (and_then (isFlat tetrahedron_i)
                  (and_then (isFlat tetrahedron_j)
                     (ret (negb (ptr_eqb tetrahedron_i tetrahedron_j))))))
            (and_then
               (let* p := getPosition opp_j in isTrulyInsideSphere tetrahedron_j p)
               (let* p := getPosition opp_i in isTrulyInsideSphere tetrahedron_i p)) in
        if flip then ret (Some tetrahedron_j) else ret None
      else ret None
    else ret None.

(** The loop over [j], up to its [break]. *)
Fixpoint find_third (tetrahedron tetrahedron_i : ptr) (tet_adjacent_nodes : list ptr)
    (i : nat) (js : list nat) : M G (option ptr) :=
  match js with
  | [] => ret None
  | j :: rest =>
      let* found := third_tetrahedron tetrahedron tetrahedron_i tet_adjacent_nodes i j in
      match found with
      | Some tetrahedron_j => ret (Some tetrahedron_j)
      | None => find_third tetrahedron tetrahedron_i tet_adjacent_nodes i rest
      end
  end.

(** The indices of a loop [for (k = (tetrahedron->isInfinite() ? 1 : 0);
    k < 4; k++)]. *)
Definition triangle_indices (infinite : bool) : list nat :=
  if infinite then [1; 2; 3]%nat else [0; 1; 2; 3]%nat.

(** [tetrahedron->isFlat() && tetrahedron_i->isFlat()
    && tetrahedron->isAdjacentTo(node_i)]: the two flat tetrahedra can be
    removed together. *)
Definition removal_condition (tetrahedron tetrahedron_i node_i : ptr) : M G bool :=
  and_then (isFlat tetrahedron)
    (and_then (isFlat tetrahedron_i) (isAdjacentTo tetrahedron node_i)).

(** [tetrahedron->isFlat() || tetrahedron_i->isFlat()] *)
Definition one_is_flat (tetrahedron tetrahedron_i : ptr) : M G bool :=
  or_else (isFlat tetrahedron) (isFlat tetrahedron_i).

(** The repair chosen for a violation across triangle [i]:
<<
  for (j ...) { ... flip3to2 ...; break; }
  // if no 3->2 flip was found, perform a 2->3  flip, if possible (convex!)
  if (new_tetrahedra.empty()) {
    if (tetrahedron->isFlat() && tetrahedron_i->isFlat()
        && tetrahedron->isAdjacentTo(node_i)) {
      new_tetrahedra = Tetrahedron<T>::remove2FlatTetrahedra(tetrahedron, tetrahedron_i);
    } else if (!(tetrahedron->isFlat() || tetrahedron_i->isFlat())) {
      auto array = Tetrahedron<T>::flip2to3(tetrahedron, tetrahedron_i);
      ...
>> *)
Definition choose_repair (tetrahedron tetrahedron_i node_i : ptr)
    (tet_adjacent_nodes : list ptr) (i : nat) : M G Repair :=
  let* infinite := isInfinite tetrahedron in
  let* third :=
    find_third tetrahedron tetrahedron_i tet_adjacent_nodes i (triangle_indices infinite) in
  match third with
  | Some tetrahedron_j => ret (Flip3to2 tetrahedron tetrahedron_i tetrahedron_j)
  | None =>
      let* remove_flat := removal_condition tetrahedron tetrahedron_i node_i in
      if remove_flat then ret (Remove2FlatTetrahedra tetrahedron tetrahedron_i)
      else
        let* some_flat := one_is_flat tetrahedron tetrahedron_i in
        if negb some_flat then ret (Flip2to3 tetrahedron tetrahedron_i)
        else ret NoRepair
  end.

(** Modelled from the spec: STLUtil::arrayToList (stl_util.h is not among
    the sources) copies the elements of the array to the list. *)
Definition arrayToList2 (array : ptr * ptr) : list ptr := [array.1; array.2].

(** Modelled from the spec: STLUtil::arrayToList for an array of three. *)
Definition arrayToList3 (array : ptr * ptr * ptr) : list ptr :=
  [array.1.1; array.1.2; array.2].

(** The chosen repair is made; the result is [new_tetrahedra]. *)
Definition perform_repair (repair : Repair) : M G (list ptr) :=
  match repair with
  | Flip3to2 a b c =>
      let* array := command (fun w => Tetrahedron_flip3to2 K w a b c) in
      ret (arrayToList2 array)
  | Remove2FlatTetrahedra a b =>
      command (fun w => Tetrahedron_remove2FlatTetrahedra K w a b)
  | Flip2to3 a b =>
      let* array := command (fun w => Tetrahedron_flip2to3 K w a b) in
      let new_tetrahedra := arrayToList3 array in
      let all_null := forallb (fun t => ptr_eqb t None) new_tetrahedra in
      if all_null then ret [] else ret new_tetrahedra
  | NoRepair => ret []
  end.

(** The three lists of the restoration. *)
Record Work : Type := mkWork {
  active_tetrahedra : list ptr;
  problem_tetrahedra : list ptr;
  flat_tetrahedra : list ptr;
}.

(** [for (auto tet : new_tetrahedra) { active_tetrahedra.push_back(tet);
    if (tet->isFlat()) { flat_tetrahedra.push_back(tet); } }] *)
Fixpoint push_new (new_tetrahedra : list ptr) (work : Work) : M G Work :=
  match new_tetrahedra with
  | [] => ret work
  | tet :: rest =>
      let* flat := isFlat tet in
      push_new rest
        (mkWork (active_tetrahedra work ++ [tet]) (problem_tetrahedra work)
           (if flat then flat_tetrahedra work ++ [tet] else flat_tetrahedra work))
  end.

(** The body of the loop over [i]; the boolean tells whether the loop is
    left by [break].
<<
  auto triangle_i = tet_adjacent_triangles[i];
  if (!triangle_i->wasCheckedAlready(checking_index)) {
    auto tetrahedron_i = triangle_i->getOppositeTetrahedron(tetrahedron);
    auto node_i = tetrahedron_i->getOppositeNode(triangle_i);
    if ((node_i != nullptr)
        && ((tetrahedron->isTrulyInsideSphere(node_i->getPosition())
                || (tetrahedron->isFlat() && tetrahedron_i->isFlat())))) {
      ... the repair ...
      if (!new_tetrahedra.empty()) {
        for (auto tet : new_tetrahedra) { ... }
        break;
      } else {
        problem_tetrahedra.push_back(tetrahedron);
        problem_tetrahedra.push_back(tetrahedron_i);
        active_tetrahedra.push_back(tetrahedron_i);
      }
    }
  }
>> *)
Definition examine_triangle (checking_index : Z) (tetrahedron : ptr)
    (tet_adjacent_triangles tet_adjacent_nodes : list ptr) (i : nat) (work : Work)
    : M G (bool * Work) :=
  let* triangle_i := at_index tet_adjacent_triangles i in
  let* checked := wasCheckedAlready triangle_i checking_index in
  if checked then ret (false, work)
  else
    let* tetrahedron_i := getOppositeTetrahedron triangle_i tetrahedron in
    let* node_i := getOppositeNode tetrahedron_i triangle_i in
    let* violation :=
      if ptr_eqb node_i None then ret false
      else
        or_else
          (let* p := getPosition node_i in isTrulyInsideSphere tetrahedron p)
          (and_then (isFlat tetrahedron) (isFlat tetrahedron_i)) in
    if violation then
      let* repair := choose_repair tetrahedron tetrahedron_i node_i tet_adjacent_nodes i in
      let* new_tetrahedra := perform_repair repair in
      match new_tetrahedra with
      | _ :: _ =>
          let* work' := push_new new_tetrahedra work in
          ret (true, work')
      | [] =>
          ret (false,
               mkWork (active_tetrahedra work ++ [tetrahedron_i])
                 (problem_tetrahedra work ++ [tetrahedron; tetrahedron_i])
                 (flat_tetrahedra work))
      end
    else ret (false, work).

(** The loop over [i]. *)
Fixpoint examine_triangles (checking_index : Z) (tetrahedron : ptr)
    (tet_adjacent_triangles tet_adjacent_nodes : list ptr) (indices : list nat)
    (work : Work) : M G Work :=
  match indices with
  | [] => ret work
  | i :: rest =>
      let* r := examine_triangle checking_index tetrahedron
                  tet_adjacent_triangles tet_adjacent_nodes i work in
      if r.1 then ret r.2
      else examine_triangles checking_index tetrahedron
             tet_adjacent_triangles tet_adjacent_nodes rest r.2
  end.

(** The inner loop [while (!active_tetrahedra.empty())]:
<<
  auto tetrahedron = active_tetrahedra.front();
  STLUtil::vectorRemove(active_tetrahedra, active_tetrahedra[0]);
  if (tetrahedron->isValid()) {
    tetrahedron->isInfinite();
    auto tet_adjacent_triangles = tetrahedron->getAdjacentTriangles();
    auto tet_adjacent_nodes = tetrahedron->getAdjacentNodes();
    for (auto i = (tetrahedron->isInfinite() ? 1 : 0); i < 4; i++) { ... }
  }
>> *)
Fixpoint process_active (fuel : nat) (checking_index : Z) (work : Work) : M G Work :=
  match active_tetrahedra work with
  | [] => ret work
  | tetrahedron :: _ =>
      match fuel with
      | O => out_of_fuel
      | S fuel' =>
          let work1 :=
            mkWork (vectorRemove (active_tetrahedra work) tetrahedron)
              (problem_tetrahedra work) (flat_tetrahedra work) in
          let* valid := isValid tetrahedron in
          if valid then
            let* _ := isInfinite tetrahedron in
            let* tet_adjacent_triangles := getAdjacentTriangles tetrahedron in
            let* tet_adjacent_nodes := getAdjacentNodes tetrahedron in
            let* infinite := isInfinite tetrahedron in
            let* work2 :=
              examine_triangles checking_index tetrahedron
                tet_adjacent_triangles tet_adjacent_nodes
                (triangle_indices infinite) work1 in
            process_active fuel' checking_index work2
          else process_active fuel' checking_index work1
      end
  end.

(** The flat tetrahedra that are left, with their neighbours:
<<
  for (auto flat_tetrahedron : flat_tetrahedra) {
    if (flat_tetrahedron->isValid()
        && !STLUtil::vectorContains(messed_up_tetrahedra, flat_tetrahedron)) {
      for (auto triangle : flat_tetrahedron->getAdjacentTriangles()) {
        auto opposite_tetrahedron = triangle->getOppositeTetrahedron(flat_tetrahedron);
        if (opposite_tetrahedron->isValid()
            && !STLUtil::vectorContains(messed_up_tetrahedra, opposite_tetrahedron)) {
          messed_up_tetrahedra.push_back(opposite_tetrahedron);
        }
      }
      messed_up_tetrahedra.push_back(flat_tetrahedron);
    }
  }
>> *)
Fixpoint collect_neighbors (flat_tetrahedron : ptr) (triangles : list ptr)
    (messed_up_tetrahedra : list ptr) : M G (list ptr) :=
  match triangles with
  | [] => ret messed_up_tetrahedra
  | triangle :: rest =>
      let* opposite_tetrahedron := getOppositeTetrahedron triangle flat_tetrahedron in
      let* valid := isValid opposite_tetrahedron in
      collect_neighbors flat_tetrahedron rest
        (if valid && negb (vectorContains messed_up_tetrahedra opposite_tetrahedron)
         then messed_up_tetrahedra ++ [opposite_tetrahedron]
         else messed_up_tetrahedra)
  end.

Fixpoint collect_flat (flat : list ptr) (messed_up_tetrahedra : list ptr) : M G (list ptr) :=
  match flat with
  | [] => ret messed_up_tetrahedra
  | flat_tetrahedron :: rest =>
      let* valid := isValid flat_tetrahedron in
      if valid && negb (vectorContains messed_up_tetrahedra flat_tetrahedron) then
        let* triangles := getAdjacentTriangles flat_tetrahedron in
        let* messed_up' := collect_neighbors flat_tetrahedron triangles messed_up_tetrahedra in
        collect_flat rest (messed_up' ++ [flat_tetrahedron])
      else collect_flat rest messed_up_tetrahedra
  end.

(** The problem tetrahedra that are still valid and still messed up:
<<
  for (auto tetrahedron : problem_tetrahedra) {
    if (tetrahedron->isValid() && !tetrahedron->isFlat()
        && !STLUtil::vectorContains(messed_up_tetrahedra, tetrahedron)) {
      for (auto adjacent_triangle : tetrahedron->getAdjacentTriangles()) {
        auto opposite_tetrahedron = adjacent_triangle->getOppositeTetrahedron(tetrahedron);
        if (!opposite_tetrahedron->isInfinite()) {
          auto opposite_node = opposite_tetrahedron->getOppositeNode(adjacent_triangle);
          if (tetrahedron->isTrulyInsideSphere(opposite_node->getPosition())) {
            messed_up_tetrahedra.push_back(tetrahedron);
            break;
          }
        }
      }
    }
  }
>> *)
Fixpoint still_messed_up (tetrahedron : ptr) (triangles : list ptr) : M G bool :=
  match triangles with
  | [] => ret false
  | adjacent_triangle :: rest =>
      let* opposite_tetrahedron := getOppositeTetrahedron adjacent_triangle tetrahedron in
      let* infinite := isInfinite opposite_tetrahedron in
      if negb infinite then
        let* opposite_node := getOppositeNode opposite_tetrahedron adjacent_triangle in
        let* p := getPosition opposite_node in
        let* inside := isTrulyInsideSphere tetrahedron p in
        if inside then ret true else still_messed_up tetrahedron rest
      else still_messed_up tetrahedron rest
  end.

Fixpoint collect_problems (problem : list ptr) (messed_up_tetrahedra : list ptr)
    : M G (list ptr) :=
  match problem with
  | [] => ret messed_up_tetrahedra
  | tetrahedron :: rest =>
      let* candidate :=
        and_then (isValid tetrahedron)
          (and_then (let* flat := isFlat tetrahedron in ret (negb flat))
             (ret (negb (vectorContains messed_up_tetrahedra tetrahedron)))) in
      if candidate then
        let* triangles := getAdjacentTriangles tetrahedron in
        let* messed := still_messed_up tetrahedron triangles in
        collect_problems rest
          (if messed then messed_up_tetrahedra ++ [tetrahedron] else messed_up_tetrahedra)
      else collect_problems rest messed_up_tetrahedra
  end.

(** ** [SpaceNode::removeTetrahedronDuringCleanUp]
<<
  bool ret = false;
  for (auto node : tetrahedron_to_remove->getAdjacentNodes()) {
    if ((node != nullptr) && (!STLUtil::vectorContains(node_list, node))) {
      ret = true;  node_list.push_back(node);
    }
  }
  for (auto adjacent_triangle : tetrahedron_to_remove->getAdjacentTriangles()) {
    auto opposite = adjacent_triangle->getOppositeTetrahedron(tetrahedron_to_remove);
    if ((opposite != nullptr) && (!STLUtil::vectorContains(list, opposite))) {
      list.push_back(opposite);  ret = true;
    }
  }
  tetrahedron_to_remove->remove();
  for (auto current_triangle : tetrahedron_to_remove->getAdjacentTriangles()) {
    if (current_triangle->isCompletelyOpen()) { oto->removeTriangle(current_triangle); }
    else { oto->putTriangle(current_triangle); }
  }
  return ret;
>> *)
Fixpoint add_nodes (adjacent_nodes : list ptr) (node_list : list ptr) (changed : bool)
    : list ptr * bool :=
  match adjacent_nodes with
  | [] => (node_list, changed)
  | n :: rest =>
      if negb (ptr_eqb n None) && negb (vectorContains node_list n)
      then add_nodes rest (node_list ++ [n]) true
      else add_nodes rest node_list changed
  end.

Fixpoint add_opposites (tetrahedron_to_remove : ptr) (triangles : list ptr)
    (list_ : list ptr) (changed : bool) : M G (list ptr * bool) :=
  match triangles with
  | [] => ret (list_, changed)
  | adjacent_triangle :: rest =>
      let* opposite := getOppositeTetrahedron adjacent_triangle tetrahedron_to_remove in
      if negb (ptr_eqb opposite None) && negb (vectorContains list_ opposite)
      then add_opposites tetrahedron_to_remove rest (list_ ++ [opposite]) true
      else add_opposites tetrahedron_to_remove rest list_ changed
  end.

Fixpoint reopen_triangles (oto : addr) (triangles : list ptr) : M G unit :=
  match triangles with
  | [] => ret tt
  | current_triangle :: rest =>
      let* open := isCompletelyOpen current_triangle in
      let* _ :=
        if open then removeTriangle oto current_triangle
        else putTriangle oto current_triangle in
      reopen_triangles oto rest
  end.

Definition removeTetrahedronDuringCleanUp (tetrahedron_to_remove : ptr)
    (list_ node_list : list ptr) (oto : addr) : M G (list ptr * list ptr * bool) :=
  let* adjacent_nodes := getAdjacentNodes tetrahedron_to_remove in
  let '(node_list', changed) := add_nodes adjacent_nodes node_list false in
  let* triangles := getAdjacentTriangles tetrahedron_to_remove in
  let* r := add_opposites tetrahedron_to_remove triangles list_ changed in
  let* _ := tetrahedron_remove tetrahedron_to_remove in
  let* triangles' := getAdjacentTriangles tetrahedron_to_remove in
  let* _ := reopen_triangles oto triangles' in
  ret (r.1, node_list', r.2).

(** ** [SpaceNode::cleanUp(messed_up_tetrahedra)]
<<
  std::vector<...> outer_tetrahedra;  std::vector<...> problem_nodes;
  auto oto = java_->oto_createSimpleOpenTriangleOrganizer();
  for (auto tetrahedron : messed_up_tetrahedra) {
    if (tetrahedron->isValid()) {
      removeTetrahedronDuringCleanUp(tetrahedron, outer_tetrahedra, problem_nodes, oto);
      if (STLUtil::vectorContains(outer_tetrahedra, tetrahedron)) {
        STLUtil::vectorRemove(outer_tetrahedra, tetrahedron);
      }
    }
  }
  bool done = false;
  while (!done) {
    std::shared_ptr<Tetrahedron<T>> problem_tetrahedron(nullptr);
    for (auto outer_tetrahedron : outer_tetrahedra) {
      if (outer_tetrahedron->isValid())
      for (auto node : problem_nodes) {
        if (!outer_tetrahedron->isAdjacentTo(node)) {
          if (outer_tetrahedron->isFlat()
              || outer_tetrahedron->isInsideSphere(node->getPosition())) {
            removeTetrahedronDuringCleanUp(outer_tetrahedron, outer_tetrahedra,
                                           problem_nodes, oto);
            problem_tetrahedron = outer_tetrahedron;
            break;
          }
        }
      }
      if (problem_tetrahedron != nullptr) { break; }
    }
    if (problem_tetrahedron != nullptr) {
      STLUtil::vectorRemove(outer_tetrahedra, problem_tetrahedron);
    } else { done = true; }
  }
  oto->triangulate();
>> *)
Fixpoint remove_messed_up (oto : addr) (messed_up_tetrahedra : list ptr)
    (outer_tetrahedra problem_nodes : list ptr) : M G (list ptr * list ptr) :=
  match messed_up_tetrahedra with
  | [] => ret (outer_tetrahedra, problem_nodes)
  | tetrahedron :: rest =>
      let* valid := isValid tetrahedron in
      if valid then
        let* r := removeTetrahedronDuringCleanUp tetrahedron outer_tetrahedra
                    problem_nodes oto in
        let outer' := r.1.1 in
        remove_messed_up oto rest
          (if vectorContains outer' tetrahedron then vectorRemove outer' tetrahedron
           else outer')
          r.1.2
      else remove_messed_up oto rest outer_tetrahedra problem_nodes
  end.

(** Whether some problem node makes [outer_tetrahedron] a problem. *)
Fixpoint has_problem_node (outer_tetrahedron : ptr) (problem_nodes : list ptr) : M G bool :=
  match problem_nodes with
  | [] => ret false
  | n :: rest =>
      let* adjacent := isAdjacentTo outer_tetrahedron n in
      if negb adjacent then
        let* bad :=
          or_else (isFlat outer_tetrahedron)
            (let* p := getPosition n in isInsideSphere outer_tetrahedron p) in
        if bad then ret true else has_problem_node outer_tetrahedron rest
      else has_problem_node outer_tetrahedron rest
  end.

(** The first outer tetrahedron that is a problem, or null. *)
Fixpoint find_problem_tetrahedron (outer_tetrahedra problem_nodes : list ptr) : M G ptr :=
  match outer_tetrahedra with
  | [] => ret None
  | outer_tetrahedron :: rest =>
      let* valid := isValid outer_tetrahedron in
      let* problem :=
        if valid then has_problem_node outer_tetrahedron problem_nodes else ret false in
      if problem then ret outer_tetrahedron
      else find_problem_tetrahedron rest problem_nodes
  end.

Fixpoint cleanUp_loop (fuel : nat) (oto : addr) (outer_tetrahedra problem_nodes : list ptr)
    : M G unit :=
  let* problem_tetrahedron := find_problem_tetrahedron outer_tetrahedra problem_nodes in
  if ptr_eqb problem_tetrahedron None then ret tt
  else
    match fuel with
    | O => out_of_fuel
    | S fuel' =>
        let* r := removeTetrahedronDuringCleanUp problem_tetrahedron outer_tetrahedra
                    problem_nodes oto in
        cleanUp_loop fuel' oto (vectorRemove r.1.1 problem_tetrahedron) r.1.2
    end.

Definition cleanUp (fuel : nat) (messed_up_tetrahedra : list ptr) : M G unit :=
  let* oto := oto_createSimpleOpenTriangleOrganizer in
  let* r := remove_messed_up oto messed_up_tetrahedra [] [] in
  let* _ := cleanUp_loop fuel oto r.1 r.2 in
  triangulate oto.

(** ** [SpaceNode::restoreDelaunay()], the loops together
<<
  for (auto tet : adjacent_tetrahedra_) { tmp.push_back(tet); }
  for (auto i = 0; i < upper_bound; i++) {
    auto tetrahedron = tmp[i];
    tetrahedron->updateCirumSphereAfterNodeMovement(sptr);
    active_tetrahedra.push_back(tetrahedron);
  }
  while (!active_tetrahedra.empty()) {
    int checking_index = createNewCheckingIndex();
    std::vector<...> problem_tetrahedra;  std::vector<...> flat_tetrahedra;
    while (!active_tetrahedra.empty()) { ... }
    std::vector<...> messed_up_tetrahedra;
    ... the flat and the problem tetrahedra that are left ...
    if (!messed_up_tetrahedra.empty()) { cleanUp(messed_up_tetrahedra); }
  }
>> *)
Fixpoint restore_loop (fuel : nat) (active : list ptr) : M G unit :=
  match active with
  | [] => ret tt
  | _ :: _ =>
      match fuel with
      | O => out_of_fuel
      | S fuel' =>
          let* checking_index := createNewCheckingIndex_call in
          let* work := process_active fuel' checking_index (mkWork active [] []) in
          let* messed_up1 := collect_flat (flat_tetrahedra work) [] in
          let* messed_up_tetrahedra := collect_problems (problem_tetrahedra work) messed_up1 in
          let* _ :=
            match messed_up_tetrahedra with
            | [] => ret tt
            | _ :: _ => cleanUp fuel' messed_up_tetrahedra
            end in
          restore_loop fuel' (active_tetrahedra work)
      end
  end.

Definition restoreDelaunay (fuel : nat) (this : addr) : M G unit :=
  let* n := node this in
  let tmp := SpaceNode.adjacent_tetrahedra_ n in
  let* _ :=
    for_each tmp (fun tetrahedron => updateCirumSphereAfterNodeMovement tetrahedron this) in
  restore_loop fuel tmp.

(** ** [SpaceNode::moveTo(new_position)]
<<
  if (checkIfTriangulationIsStillValid(new_position)) {
    auto delta = Matrix::subtract(new_position, position_);
    for (auto listener : listeners_) { listener->nodeAboutToMove(this, delta); }
    position_ = new_position;
    restoreDelaunay();
    for (auto listener : listeners_) { listener->nodeMoved(this); }
  } else {
    auto insert_position = SpaceNode<T>::searchInitialInsertionTetrahedron(
        adjacent_tetrahedra_.front(), new_position);
    auto aNewTetrahedron = removeAndReturnCreatedTetrahedron();
    if (!insert_position->isValid()) { insert_position = aNewTetrahedron; }
    auto oldPosition = position_;
    position_ = new_position;
    // TODO positionnotallowedexception
//    try {
    insert(insert_position);
//    } catch (PositionNotAllowedException e) {
//       position_ = oldPosition;
//       insert(insert_position);
//      //fnoexceptionthrow e;
  }
>> *)

(** The first branch: the position is updated in place. *)
Definition moveTo_in_place (fuel : nat) (this : addr) (new_position : array3) : M G unit :=
  let* n := node this in
  let delta := Matrix.subtract new_position (SpaceNode.position_ n) in
  let* _ := notify_listeners this (nodeAboutToMove this delta) in
  let* _ := update_node this (SpaceNode.set_position new_position) in
  let* _ := restoreDelaunay fuel this in
  notify_listeners this (nodeMoved this).

(** The second branch: the node is removed and inserted again.  First
    the tetrahedron at which the insertion starts is determined. *)
Definition reinsert_position (fuel : nat) (this : addr) (new_position : array3) : M G ptr :=
  let* n := node this in
  let* front :=
    match SpaceNode.adjacent_tetrahedra_ n with
    | [] => fault
    | t :: _ => ret t
    end in
  let* insert_position := searchInitialInsertionTetrahedron fuel front new_position in
  let* aNewTetrahedron := removeAndReturnCreatedTetrahedron this in
  let* valid := isValid insert_position in
  ret (if negb valid then aNewTetrahedron else insert_position).

Definition moveTo_reinsert (fuel : nat) (this : addr) (new_position : array3) : M G unit :=
  let* insert_position := reinsert_position fuel this new_position in
  let* n := node this in
  let oldPosition := SpaceNode.position_ n in
  let* _ := update_node this (SpaceNode.set_position new_position) in
  let* _ := insert fuel this insert_position in
  ret tt.

Definition moveTo (fuel : nat) (this : addr) (new_position : array3) : M G unit :=
  let* valid := checkIfTriangulationIsStillValid this new_position in
  if valid then moveTo_in_place fuel this new_position
  else moveTo_reinsert fuel this new_position.

(** [moveFrom]: [moveTo(Matrix::add(position_, delta));] *)
Definition moveFrom (fuel : nat) (this : addr) (delta : array3) : M G unit :=
  let* n := node this in
  moveTo fuel this (Matrix.add (SpaceNode.position_ n) delta).

(** [remove]: [removeAndReturnCreatedTetrahedron();] *)
Definition remove (this : addr) : M G unit :=
  let* _ := removeAndReturnCreatedTetrahedron this in
  ret tt.

End SpaceNodeMethods.

(** ** The conditions of the motion *)

Section Conditions.
Context {G : Type} (K : Kernel G) (w : World G) (this : addr) (new_position : array3).

(** The node at [this] stays on the same side of the triangle of
    tetrahedron [t] that lies opposite to it. *)
Definition remains_on_same_side (t : addr) : Prop :=
  exists (triangle : addr) (n : SpaceNode.SpaceNode),
    Tetrahedron_getOppositeTriangle K w t (Some this) = Some triangle /\
    nodes w !! this = Some n /\
    Triangle3D_trulyOnSameSide K w triangle (SpaceNode.position_ n) new_position = true.

(** Tetrahedron [t] lies on an inner tetrahedron all four neighbours of
    which are infinite. *)
Definition inner_neighbors_infinite (t : addr) : Prop :=
  exists inner : addr,
    Tetrahedron_getAdjacentTetrahedron K w t 0 = Some inner /\
    forall number : Z, 0 <= number <= 3 ->
      exists neighbor : addr,
        Tetrahedron_getAdjacentTetrahedron K w inner number = Some neighbor /\
        Tetrahedron_isInfinite K w neighbor = true.

(** The condition of the specification for one incident tetrahedron:
    (a) it is non-flat and the node remains on the same side of its
    opposite triangle, or (b) it is infinite and all four neighbours of its
    inner neighbour are infinite. *)
Definition locally_valid (t : addr) : Prop :=
  (Tetrahedron_isFlat K w t = false /\ remains_on_same_side t) \/
  (Tetrahedron_isInfinite K w t = true /\ inner_neighbors_infinite t).

(** What the loop of [checkIfTriangulationIsStillValid] asks of an
    infinite tetrahedron to return [true] at once. *)
Definition settles (t : addr) : Prop :=
  Tetrahedron_isFlat K w t = false /\
  Tetrahedron_isInfinite K w t = true /\
  inner_neighbors_infinite t.

End Conditions.

Section Scan.
Context {G : Type} (K : Kernel G) (this : addr) (new_position : array3).

(** The state after [triangle->updatePlaneEquationIfNecessary()] for the
    triangle that lies opposite to the node in tetrahedron [t]. *)
Definition refreshed (w : World G) (t : addr) : World G :=
  match Tetrahedron_getOppositeTriangle K w t (Some this) with
  | Some triangle =>
      apply_effect (Triangle3D_updatePlaneEquationIfNecessary K w triangle) w
  | None => w
  end.

(** What the loop asks of a tetrahedron to go on to the next one: it is
    neither flat nor infinite and, once the plane equation of its opposite
    triangle is up to date, the node remains on the same side of that
    triangle. *)
Definition passes (w : World G) (t : addr) : Prop :=
  Tetrahedron_isFlat K w t = false /\
  Tetrahedron_isInfinite K w t = false /\
  exists (triangle : addr) (n : SpaceNode.SpaceNode),
    Tetrahedron_getOppositeTriangle K w t (Some this) = Some triangle /\
    nodes (refreshed w t) !! this = Some n /\
    Triangle3D_trulyOnSameSide K (refreshed w t) triangle
      (SpaceNode.position_ n) new_position = true.

(** The tetrahedra of a list pass one after the other, each in the state
    that the ones before it have left. *)
Fixpoint all_pass (w : World G) (passed : list addr) : Prop :=
  match passed with
  | [] => True
  | t :: more => passes w t /\ all_pass (refreshed w t) more
  end.

Fixpoint refreshed_all (w : World G) (passed : list addr) : World G :=
  match passed with
  | [] => w
  | t :: more => refreshed_all (refreshed w t) more
  end.

(** The scan of the incident tetrahedra, in the order of the list, ends
    well in the state [w']: all of them pass, or those before the first
    infinite one pass and that one settles the answer. *)
Definition scan_succeeds (w : World G) (tetrahedra : list ptr) (w' : World G) : Prop :=
  exists (passed : list addr) (rest : list ptr),
    tetrahedra = map Some passed ++ rest /\
    all_pass w passed /\
    w' = refreshed_all w passed /\
    (rest = [] \/
     exists (t : addr) (rest' : list ptr), rest = Some t :: rest' /\ settles K w' t).

End Scan.


(** ** The conditions of the repairs in [restoreDelaunay] *)

Section RepairConditions.
Context {G : Type} (K : Kernel G) (w : World G) (t ti : addr).

(** A violation of the Delaunay criterion between tetrahedron [t] and
    the tetrahedron [ti] behind one of its triangles, [node_i] being the
    apex of [ti]:
    [node_i != nullptr && (t->isTrulyInsideSphere(node_i->getPosition())
    || (t->isFlat() && ti->isFlat()))]. *)
Definition violation (node_i : ptr) : Prop :=
  exists (l : addr) (n : SpaceNode.SpaceNode),
    node_i = Some l /\ nodes w !! l = Some n /\
    (Tetrahedron_isTrulyInsideSphere K w t (SpaceNode.position_ n) = true \/
     (Tetrahedron_isFlat K w t = true /\ Tetrahedron_isFlat K w ti = true)).

(** The tetrahedron [tj] behind triangle [j] of [t] qualifies for a
    3-to-2 flip with [t] and [ti] (behind triangle [i]): it is a neighbour
    of [ti], the endpoints of [t] opposite to the two triangles exist, and
    either the three tetrahedra are flat and [ti] and [tj] differ, or the
    spheres of [tj] and [ti] contain the endpoints opposite to them. *)
Definition qualifies (tet_adjacent_nodes : list ptr) (i j : nat) (tj : addr) : Prop :=
  i <> j /\
  exists triangle_j opp_j opp_i : addr,
    Tetrahedron_getAdjacentTriangles K w t !! j = Some (Some triangle_j) /\
    Triangle3D_getOppositeTetrahedron K w triangle_j (Some t) = Some tj /\
    Tetrahedron_isNeighbor K w tj (Some ti) = true /\
    tet_adjacent_nodes !! j = Some (Some opp_j) /\
    tet_adjacent_nodes !! i = Some (Some opp_i) /\
    ((Tetrahedron_isFlat K w t = true /\ Tetrahedron_isFlat K w ti = true /\
      Tetrahedron_isFlat K w tj = true /\ ti <> tj) \/
     (exists nj ni : SpaceNode.SpaceNode,
        nodes w !! opp_j = Some nj /\ nodes w !! opp_i = Some ni /\
        Tetrahedron_isTrulyInsideSphere K w tj (SpaceNode.position_ nj) = true /\
        Tetrahedron_isTrulyInsideSphere K w ti (SpaceNode.position_ ni) = true)).

(** No tetrahedron behind a triangle of the list qualifies. *)
Definition none_qualifies (tet_adjacent_nodes : list ptr) (i : nat) (js : list nat) : Prop :=
  Forall (fun j => forall tj : addr, ~ qualifies tet_adjacent_nodes i j tj) js.

(** The two flat tetrahedra can be removed together:
    [t->isFlat() && ti->isFlat() && t->isAdjacentTo(node_i)]. *)
Definition removable (node_i : ptr) : bool :=
  Tetrahedron_isFlat K w t && Tetrahedron_isFlat K w ti &&
  Tetrahedron_isAdjacentTo K w t node_i.

End RepairConditions.

(** The listener calls made when a node is removed and inserted again. *)
Definition reinsertion_call (this : addr) (c : callback) : Prop :=
  c = nodeAboutToBeRemoved this \/ c = nodeRemoved this \/
  (exists (p : array3) (v : list ptr), c = nodeAboutToBeAdded this p v) \/
  c = nodeAdded this.

(** What [t->getVerticeContents()] returns in the state [w]. *)
Definition vertice_contents_at {G : Type} (K : Kernel G) (w : World G) (t : ptr)
    : list ptr :=
  match t with
  | Some l => Tetrahedron_getVerticeContents K w l
  | None => []
  end.

Definition is_nodeAboutToMove (c : callback) : bool :=
  match c with
  | nodeAboutToMove _ _ => true
  | _ => false
  end.

(** How often the listener [l] was called with [nodeAboutToMove]. *)
Definition count_nodeAboutToMove (l : addr) (ns : list Notification) : nat :=
  length (filter (fun x => listener x = l /\ is_nodeAboutToMove (call x) = true) ns).

(** ** Specifications of calls *)

Section Specifications.
Context {G : Type}.

(** A call satisfies the pair ([R], [E]) when [R] relates the state before
    it with the state in which it returns, and [E] the state before it with
    the state in which an exception leaves it. *)
Definition sat (R : World G -> World G -> Prop)
    (E : exception -> World G -> World G -> Prop) {A : Type} (m : M G A) : Prop :=
  forall w : World G,
    match m w with
    | Done _ w' => R w w'
    | Raised e w' => E e w w'
    | Fault | OutOfFuel => True
    end.

(** Functions that only read leave the state as it is and do not throw. *)
Definition reads {A : Type} (m : M G A) : Prop :=
  sat (fun w w' => w' = w) (fun _ _ _ => False) m.

(** The members of a node that the code of the tetrahedra and triangles
    does not write. *)
Definition own (n : SpaceNode.SpaceNode) : Z * ptr * list addr * array3 :=
  (SpaceNode.id_ n, SpaceNode.content_ n, SpaceNode.listeners_ n, SpaceNode.position_ n).

Definition own_kept (w w' : World G) : Prop :=
  forall l : addr, own <$> (nodes w' !! l) = own <$> (nodes w !! l).

(** The listener calls made between two states are all in [allowed]. *)
Definition notified (allowed : callback -> Prop) (w w' : World G) : Prop :=
  exists extra : list Notification,
    notifications w' = notifications w ++ extra /\
    Forall (fun x => allowed (call x)) extra.

Definition silent (w w' : World G) : Prop :=
  notifications w' = notifications w /\ own_kept w w'.

(** The static member [checking_index_] is left as it is. *)
Definition same_index (w w' : World G) : Prop :=
  checking_index_ w' = checking_index_ w.

Definition keeps_silent {A : Type} (m : M G A) : Prop :=
  sat silent (fun _ => silent) m.

Definition keeps_own {A : Type} (m : M G A) : Prop :=
  sat own_kept (fun _ => own_kept) m.

Definition only_notifies (allowed : callback -> Prop) {A : Type} (m : M G A) : Prop :=
  sat (notified allowed) (fun _ => notified allowed) m.

Definition keeps_index {A : Type} (m : M G A) : Prop :=
  sat same_index (fun _ => same_index) m.

End Specifications.

End Triangulation.

(* ===================================================================== *)
(** * Small concrete configurations *)
(* ===================================================================== *)

Module Examples.

Definition origin : array3 := (Double.zero, Double.zero, Double.zero).

(** Three nodes at addresses 1, 2 and 3, carrying the user objects at
    addresses 11, 12 and 13. *)
Definition node1 : SpaceNode.SpaceNode := SpaceNode.create 0 origin (Some 11%positive).
Definition node2 : SpaceNode.SpaceNode := SpaceNode.create 1 origin (Some 12%positive).
Definition node3 : SpaceNode.SpaceNode := SpaceNode.create 2 origin (Some 13%positive).

Definition three_nodes : NodeHeap :=
  <[3%positive := node3]> (<[2%positive := node2]> (<[1%positive := node1]> ∅)).

(** The edge between the nodes 1 and 2, and an edge with a null endpoint. *)
Definition edge12 : Edge.Edge double := Edge.new (Some 1%positive) (Some 2%positive).
Definition edge1_null : Edge.Edge double := Edge.new (Some 1%positive) None.

(** The three nodes without edges; the nodes 1 and 2 joined by the edge
    at address 5; and node 1 with a further edge (address 6) to the null
    pointer. *)
Definition unlinked : Edge.Heap double := Edge.mkHeap three_nodes ∅.

Definition linked : Edge.Heap double :=
  Edge.create 5%positive (Some 1%positive) (Some 2%positive) unlinked.

Definition dangling : Edge.Heap double :=
  Edge.create 6%positive (Some 1%positive) None linked.

(** An empty heap, and the edge at address 1 with three events in
    doubles: tetrahedron 1 is created with the contribution 2^53,
    tetrahedron 2 with the contribution 1, and tetrahedron 1 is removed. *)
Definition empty_heap {R : Type} : Edge.Heap R := Edge.mkHeap ∅ ∅.

Definition two_pow_53 : double := Double.of_Z 9007199254740992.

Definition drifted : CrossSection.Accounting double :=
  CrossSection.remove_tetrahedron 1%positive 1%positive
    (CrossSection.create_tetrahedron 1%positive 2%positive Double.one
       (CrossSection.create_tetrahedron 1%positive 1%positive two_pow_53
          (CrossSection.initial empty_heap 1%positive None None))).

(** The same events with the contributions 1 and 2, which are added and
    subtracted without rounding. *)
Definition settled : CrossSection.Accounting double :=
  CrossSection.remove_tetrahedron 1%positive 1%positive
    (CrossSection.create_tetrahedron 1%positive 2%positive Double.two
       (CrossSection.create_tetrahedron 1%positive 1%positive Double.one
          (CrossSection.initial empty_heap 1%positive None None))).

(** *** A table-driven triangulation

    The state of the tetrahedra and triangles is a record of tables; the
    member functions defined outside edge.cc look their answers up in it.
    As in the sources, where every [throw] is commented out, none of them
    throws.  The state-changing functions leave the tables as they are,
    with two exceptions: [updatePlaneEquationIfNecessary] brings the plane
    equation of its triangle up to date, and the three repairs of
    [restoreDelaunay] are written down in the order in which they are
    made. *)
Record Tables : Type := mkTables {
  t_infinite : addr -> bool;
  t_flat : addr -> bool;
  t_valid : addr -> bool;
  t_triangles : addr -> list ptr;
  t_nodes : addr -> list ptr;
  t_adjacent_tetrahedron : addr -> Z -> ptr;
  t_opposite_triangle : addr -> ptr -> ptr;
  t_opposite_node : addr -> ptr -> ptr;
  t_inside_sphere : addr -> array3 -> bool;
  t_neighbor : addr -> ptr -> bool;
  t_adjacent_to : addr -> ptr -> bool;
  t_walk : addr -> array3 -> ptr;
  t_opposite_tetrahedron : addr -> ptr -> ptr;
  (* the answer of [trulyOnSameSide] for an up-to-date plane equation *)
  t_same_side : addr -> bool;
  t_new_tetrahedron : ptr;
  (* the triangles whose cached plane equation is out of date: for them
     [trulyOnSameSide] gives the opposite answer *)
  t_stale : list addr;
  (* what the repairs return *)
  t_flip3to2 : ptr * ptr;
  t_remove2flat : list ptr;
  t_flip2to3 : ptr * ptr * ptr;
  (* the repairs made so far, oldest first *)
  t_repairs : list Triangulation.Repair;
}.

Import Triangulation.

Definition no_effect {A : Type} (w : World Tables) (a : A) : Effect Tables A :=
  mkEffect (geo w) [] a.

(** The tables with another list of stale triangles and another list of
    repairs. *)
Definition with_state (stale : list addr) (repairs : list Repair) (tb : Tables) : Tables :=
  mkTables
    (t_infinite tb) (t_flat tb) (t_valid tb) (t_triangles tb) (t_nodes tb)
    (t_adjacent_tetrahedron tb) (t_opposite_triangle tb) (t_opposite_node tb)
    (t_inside_sphere tb) (t_neighbor tb) (t_adjacent_to tb) (t_walk tb)
    (t_opposite_tetrahedron tb) (t_same_side tb) (t_new_tetrahedron tb)
    stale (t_flip3to2 tb) (t_remove2flat tb) (t_flip2to3 tb) repairs.

Definition refresh (triangle : addr) (tb : Tables) : Tables :=
  with_state (List.filter (fun x => negb (Pos.eqb x triangle)) (t_stale tb))
    (t_repairs tb) tb.

Definition repaired {A : Type} (r : Repair) (w : World Tables) (a : A)
    : Effect Tables A :=
  mkEffect (with_state (t_stale (geo w)) (t_repairs (geo w) ++ [r]) (geo w)) [] a.

(** The user objects of the nodes in a list. *)
Definition contents_of (w : World Tables) (vertices : list ptr) : list ptr :=
  map (fun p : ptr =>
         match p with
         | Some l =>
             match nodes w !! l with
             | Some n => SpaceNode.content_ n
             | None => None
             end
         | None => None
         end) vertices.

Definition table_kernel : Kernel Tables :=
  mkKernel
    (fun w t => t_infinite (geo w) t)
    (fun w t => t_flat (geo w) t)
    (fun w t => t_valid (geo w) t)
    (fun w t => t_triangles (geo w) t)
    (fun w t => t_nodes (geo w) t)
    (fun w t number => t_adjacent_tetrahedron (geo w) t number)
    (fun w t n => t_opposite_triangle (geo w) t n)
    (fun w t triangle => t_opposite_node (geo w) t triangle)
    (fun w t p => t_inside_sphere (geo w) t p)
    (fun w t p => t_inside_sphere (geo w) t p)
    (fun w t other => t_neighbor (geo w) t other)
    (fun w t n => t_adjacent_to (geo w) t n)
    (fun w t => contents_of w (t_nodes (geo w) t))
    (fun w t p => None)
    (fun w t c order => inr (t_walk (geo w) t c))
    (fun w t => no_effect w tt)
    (fun w t n => no_effect w tt)
    (fun w triangle n oto => no_effect w None)
    (fun w a b c => repaired (Flip3to2 a b c) w (t_flip3to2 (geo w)))
    (fun w a b => repaired (Flip2to3 a b) w (t_flip2to3 (geo w)))
    (fun w a b => repaired (Remove2FlatTetrahedra a b) w (t_remove2flat (geo w)))
    (fun w triangle t => t_opposite_tetrahedron (geo w) triangle t)
    (fun w triangle => true)
    (fun w triangle p q =>
       if existsb (Pos.eqb triangle) (t_stale (geo w))
       then negb (t_same_side (geo w) triangle)
       else t_same_side (geo w) triangle)
    (fun w triangle => mkEffect (refresh triangle (geo w)) [] tt)
    (fun w triangle c => no_effect w false)
    (fun w oto => t_new_tetrahedron (geo w))
    (fun w oto triangle => no_effect w tt)
    (fun w oto triangle => no_effect w tt)
    (fun w oto t => no_effect w tt)
    (fun w oto => no_effect w tt)
    (fun w => no_effect w 50%positive)
    (fun w => no_effect w [0; 1; 2; 3]).

(** Tables in which every tetrahedron is infinite, flat and valid, every
    triangle is triangle 10 with tetrahedron 2 behind it, and nothing has
    neighbours. *)
Definition plain_tables : Tables :=
  mkTables
    (fun _ => true) (fun _ => true) (fun _ => true)
    (fun _ => []) (fun _ => [])
    (fun _ _ => None)
    (fun _ _ => Some 10%positive)
    (fun _ _ => None)
    (fun _ _ => false)
    (fun _ _ => false) (fun _ _ => false)
    (fun _ _ => None)
    (fun _ _ => Some 2%positive)
    (fun _ => true)
    (Some 2%positive)
    [] (None, None) [] (None, None, None) [].

Definition position_a : array3 := (Double.zero, Double.zero, Double.zero).
Definition position_b : array3 := (Double.one, Double.zero, Double.zero).

(** The moving node, at address 1: one listener (address 7) and the
    incident tetrahedra [ts]. *)
Definition moving_node (ts : list ptr) : SpaceNode.SpaceNode :=
  SpaceNode.mkSpaceNode 0 (Some 11%positive) [7%positive] position_a [] ts Double.zero.

Definition world_with (ts : list ptr) (tables : Tables) (checking_index : Z)
    : World Tables :=
  mkWorld (<[1%positive := moving_node ts]> ∅) tables checking_index [].

(** One incident tetrahedron (flat): the motion removes and reinserts. *)
Definition flat_world : World Tables := world_with [Some 1%positive] plain_tables 0.

(** A triangulation with the single finite tetrahedron 5; all other
    tetrahedra are infinite and lie on it.  The moving node has the
    infinite tetrahedron 1 first in its list, then tetrahedron 5, and it
    is to move through the triangle of tetrahedron 5 opposite to it
    ([trulyOnSameSide] is false). *)
Definition hull_tables : Tables :=
  mkTables
    (fun t => negb (Pos.eqb t 5)) (fun _ => false) (fun _ => true)
    (fun _ => [Some 10; Some 11; Some 12; Some 13]%positive)
    (fun _ => [])
    (fun t _ => if Pos.eqb t 5 then Some 1%positive else Some 5%positive)
    (fun _ _ => Some 10%positive)
    (fun _ _ => None)
    (fun _ _ => false)
    (fun _ _ => false) (fun _ _ => false)
    (fun _ _ => None)
    (fun _ _ => Some 2%positive)
    (fun _ => false)
    (Some 2%positive)
    [] (None, None) [] (None, None, None) [].

Definition hull_world : World Tables :=
  world_with [Some 1%positive; Some 5%positive] hull_tables 0.

(** The same triangulation seen from a node whose list starts with the
    finite tetrahedron 5, goes on with the infinite tetrahedron 1 and ends
    with tetrahedron 3.  The node stays on the same side of triangle 10,
    which lies opposite to it in tetrahedron 5, but the cached plane
    equation of that triangle is out of date. *)
Definition convex_tables : Tables :=
  mkTables
    (fun t => negb (Pos.eqb t 5)) (fun _ => false) (fun _ => true)
    (fun _ => [Some 10; Some 11; Some 12; Some 13]%positive)
    (fun _ => [])
    (fun t _ => if Pos.eqb t 5 then Some 1%positive else Some 5%positive)
    (fun _ _ => Some 10%positive)
    (fun _ _ => None)
    (fun _ _ => false)
    (fun _ _ => false) (fun _ _ => false)
    (fun _ _ => None)
    (fun _ _ => Some 2%positive)
    (fun _ => true)
    (Some 2%positive)
    [10%positive] (None, None) [] (None, None, None) [].

Definition convex_world : World Tables :=
  world_with [Some 5%positive; Some 1%positive; Some 3%positive] convex_tables 0.

(** Three flat tetrahedra 1, 2 and 3: tetrahedron 2 lies behind triangle
    10 of tetrahedron 1, tetrahedron 3 behind its triangle 11, and 3 is a
    neighbour of 2; tetrahedron 1 has the apex (node 21) of tetrahedron 2
    among its endpoints.  A 3-to-2 flip returns the tetrahedra 6 and 7, the
    removal of two flat tetrahedra returns tetrahedron 8; the tetrahedra
    from 6 on are not valid. *)
Definition flat_triple_tables : Tables :=
  mkTables
    (fun _ => false) (fun _ => true) (fun t => Pos.ltb t 6)
    (fun _ => [Some 10; Some 11; Some 12; Some 13]%positive)
    (fun _ => [Some 20; Some 21; Some 22; Some 23]%positive)
    (fun _ _ => None)
    (fun _ _ => Some 10%positive)
    (fun _ _ => Some 21%positive)
    (fun _ _ => false)
    (fun t other => Pos.eqb t 3 && ptr_eqb other (Some 2%positive))
    (fun t n => Pos.eqb t 1 && ptr_eqb n (Some 21%positive))
    (fun _ _ => None)
    (fun triangle _ => if Pos.eqb triangle 10 then Some 2%positive
                       else if Pos.eqb triangle 11 then Some 3%positive
                       else Some 4%positive)
    (fun _ => true)
    None
    [] (Some 6%positive, Some 7%positive) [Some 8%positive] (None, None, None) [].

(** The node at address 1 with the incident tetrahedron 1, and the apex
    of tetrahedron 2 at address 21. *)
Definition flat_triple_world : World Tables :=
  mkWorld
    (<[21%positive := SpaceNode.create 1 position_b (Some 31%positive)]>
       (<[1%positive := moving_node [Some 1%positive]]> ∅))
    flat_triple_tables 0 [].

(** The checking index is at its largest value and the only incident
    tetrahedron is no longer valid. *)
Definition last_index_tables : Tables :=
  mkTables
    (fun _ => false) (fun _ => false) (fun _ => false)
    (fun _ => []) (fun _ => [])
    (fun _ _ => None)
    (fun _ _ => Some 10%positive)
    (fun _ _ => None)
    (fun _ _ => false)
    (fun _ _ => false) (fun _ _ => false)
    (fun _ _ => None)
    (fun _ _ => Some 2%positive)
    (fun _ => true)
    None
    [] (None, None) [] (None, None, None) [].

Definition last_index_world : World Tables :=
  world_with [Some 1%positive] last_index_tables 1999999999.

(** Finite tetrahedra only; the walk leads from every tetrahedron to
    tetrahedron 2, and from tetrahedron 2 to itself.  The moving node is
    the only endpoint listed for tetrahedron 2. *)
Definition walk_tables : Tables :=
  mkTables
    (fun _ => false) (fun _ => false) (fun _ => true)
    (fun _ => [])
    (fun t => if Pos.eqb t 2 then [Some 1%positive] else [])
    (fun _ _ => None)
    (fun _ _ => Some 10%positive)
    (fun _ _ => None)
    (fun _ _ => false)
    (fun _ _ => false) (fun _ _ => false)
    (fun _ _ => Some 2%positive)
    (fun _ _ => Some 2%positive)
    (fun _ => true)
    None
    [] (None, None) [] (None, None, None) [].

Definition walk_world : World Tables := world_with [Some 1%positive] walk_tables 0.



End Examples.

(* ===================================================================== *)
(** * Properties *)
(* ===================================================================== *)

(** ** Binary64 numbers and the tolerance of [Rational::isZero] *)

Section DoubleFacts.
Local Open Scope Z_scope.

Lemma digits2_pos_bounds (m : positive) :
  2 ^ (Zpos (digits2_pos m) - 1) <= Zpos m < 2 ^ Zpos (digits2_pos m).
Proof.
  induction m as [m IH | m IH |]; simpl digits2_pos.
  - rewrite Pos2Z.inj_succ.
    replace (Z.succ (Zpos (digits2_pos m)) - 1)
      with (Z.succ (Zpos (digits2_pos m) - 1)) by lia.
    rewrite !Z.pow_succ_r by lia. lia.
  - rewrite Pos2Z.inj_succ.
    replace (Z.succ (Zpos (digits2_pos m)) - 1)
      with (Z.succ (Zpos (digits2_pos m) - 1)) by lia.
    rewrite !Z.pow_succ_r by lia. lia.
  - simpl. lia.
Qed.

(** A well-formed finite double has a mantissa below 2^53 and an exponent
    between -1074 and 971; above the least exponent the mantissa is
    normalised. *)
Lemma bounded_inv (m : positive) (e : Z) :
  bounded Double.prec Double.emax m e = true ->
  -1074 <= e <= 971 /\ Zpos m < 2 ^ 53 /\ (-1074 < e -> 2 ^ 52 <= Zpos m).
Proof.
  unfold bounded, canonical_mantissa, fexp, emin, Double.prec, Double.emax.
  intros Hb. apply andb_true_iff in Hb as [Hc He].
  apply Z.eqb_eq in Hc. apply Z.leb_le in He.
  pose proof (digits2_pos_bounds m) as [Hlo Hhi].
  assert (Hd : Zpos (digits2_pos m) <= 53) by lia.
  split; [lia|]. split.
  - eapply Z.lt_le_trans; [exact Hhi|]. apply Z.pow_le_mono_r; lia.
  - intros Hgt. assert (Heq : Zpos (digits2_pos m) = 53) by lia.
    rewrite Heq in Hlo. exact Hlo.
Qed.

(** Comparison of two positive finite doubles: by exponent, then by
    mantissa. *)
Lemma SFltb_finite_pos (m M : positive) (e E : Z) :
  SFltb (S754_finite false m e) (S754_finite false M E) = true <->
  e < E \/ (e = E /\ Zpos m < Zpos M).
Proof.
  unfold SFltb. cbn [SFcompare].
  rewrite Pos.compare_cont_spec.
  destruct (Z.compare_spec e E) as [Heq | Hlt | Hgt].
  - destruct (Pos.compare_spec m M) as [Em | L | G]; cbn [Pos.switch_Eq].
    + split; [discriminate|]. intros [?|[_ ?]]; lia.
    + split; [intros _; right; split; [assumption|lia] | reflexivity].
    + split; [discriminate|]. intros [?|[_ ?]]; lia.
  - split; [intros _; left; assumption | reflexivity].
  - split; [discriminate|]. intros [?|[? _]]; lia.
Qed.

Lemma below_1e_10_ulps (m : positive) (e : Z) :
  bounded Double.prec Double.emax m e = true ->
  e < -86 \/ (e = -86 /\ Zpos m < 7737125245533627) <->
  Zpos m * 2 ^ (e + 1074) < Rational.tolerance_ulps.
Proof.
  intros Hb. apply bounded_inv in Hb as (He & Hhi & Hlo).
  assert (H52 : 2 ^ 52 = 4503599627370496) by reflexivity.
  assert (H53 : 2 ^ 53 = 9007199254740992) by reflexivity.
  rewrite H52 in Hlo. rewrite H53 in Hhi. clear H52 H53.
  assert (Hpos : 0 < 2 ^ (e + 1074)) by (apply Z.pow_pos_nonneg; lia).
  assert (Hmono : forall a b : Z, 0 <= a <= b -> 2 ^ a <= 2 ^ b).
  { intros a b Hab. apply Z.pow_le_mono_r; lia. }
  assert (Hsucc : forall a : Z, 0 <= a -> 2 ^ (a + 1) = 2 * 2 ^ a).
  { intros a Ha. rewrite Z.pow_add_r by lia. rewrite Z.pow_1_r. lia. }
  assert (HQ : 0 < 2 ^ 987) by (apply Z.pow_pos_nonneg; lia).
  assert (HP : 2 ^ 988 = 2 * 2 ^ 987) by (apply (Hsucc 987); lia).
  assert (HP' : 2 ^ 989 = 2 * 2 ^ 988) by (apply (Hsucc 988); lia).
  unfold Rational.tolerance_ulps.
  destruct (Z.lt_trichotomy e (-86)) as [Hlt | [Heq | Hgt]].
  - split; [intros _ | intros _; left; exact Hlt].
    assert (Hle : 2 ^ (e + 1074) <= 2 ^ 987) by (apply Hmono; lia).
    rewrite HP. revert HQ Hle Hpos. generalize (2 ^ 987) (2 ^ (e + 1074)).
    intros q p HQ Hle Hpos. nia.
  - subst e. replace (-86 + 1074) with 988 by reflexivity.
    rewrite HP. revert HQ. generalize (2 ^ 987). intros q HQ.
    split.
    + intros [?|[_ L]]; [lia|]. nia.
    + intros Hlt. right. split; [reflexivity|]. nia.
  - split; [intros [?|[? _]]; lia|]. intros Hlt. exfalso.
    assert (Hm : 4503599627370496 <= Zpos m) by (apply Hlo; lia).
    assert (Hle : 2 ^ 989 <= 2 ^ (e + 1074)) by (apply Hmono; lia).
    rewrite HP', HP in Hle. rewrite HP in Hlt.
    revert HQ Hle Hlt. generalize (2 ^ 987) (2 ^ (e + 1074)).
    intros q p HQ Hle Hlt. nia.
Qed.

Local Open Scope Q_scope.

Lemma two_pow_pos (e : Z) : 0 < 2 ^ e.
Proof. apply Qpower.Qpower_0_lt. reflexivity. Qed.

Lemma scale_to_ulps (n e : Z) :
  (-1074 <= e)%Z ->
  inject_Z n * 2 ^ e == inject_Z (n * 2 ^ (e + 1074)) * 2 ^ (-1074).
Proof.
  intros He. rewrite inject_Z_mult.
  rewrite Qpower.Zpower_Qpower by lia.
  change (inject_Z 2) with 2.
  rewrite <- Qmult_assoc.
  rewrite <- Qpower.Qpower_plus by discriminate.
  replace (e + 1074 + -1074)%Z with e by lia. reflexivity.
Qed.

Lemma Qabs_finite (s : bool) (m : positive) (e : Z) :
  Qabs (inject_Z (cond_Zopp s (Zpos m)) * 2 ^ e) == inject_Z (Zpos m) * 2 ^ e.
Proof.
  rewrite Qabs_Qmult.
  rewrite (Qabs_pos (2 ^ e)) by (apply Qlt_le_weak, two_pow_pos).
  destruct s; cbn [cond_Zopp]; reflexivity.
Qed.

Lemma below_tolerance_ulps (s : bool) (m : positive) (e : Z) :
  (-1074 <= e)%Z ->
  Qabs (inject_Z (cond_Zopp s (Zpos m)) * 2 ^ e) < Rational.tolerance <->
  (Zpos m * 2 ^ (e + 1074) < Rational.tolerance_ulps)%Z.
Proof.
  intros He. rewrite Qabs_finite. unfold Rational.tolerance, Rational.tolerance_ulps.
  rewrite (scale_to_ulps (Zpos m) e He).
  rewrite (scale_to_ulps 7737125245533627 (-86)) by lia.
  replace (-86 + 1074)%Z with 988%Z by reflexivity.
  rewrite Qmult_lt_r by apply two_pow_pos.
  rewrite <- Zlt_Qlt. reflexivity.
Qed.

End DoubleFacts.

(** ** rational.cc *)

Section RationalFacts.
Import Rational.

(** [subtract] computes the same value as [add]. *)
Lemma subtract_is_add (a b : Rational) : subtract a b = add a b.
Proof. reflexivity. Qed.

(** C1: [Rational::subtract] applied to 1.0 and 1.0 returns 2.0 instead
    of the difference 0.0, and [Rational::compareTo] of 1.0 with 1.0
    returns +1 instead of the sign 0 of the difference; the in-place
    [decreaseBy] on the same operands gives 0.0. *)
Theorem subtract_one_one :
  subtract (create Double.one) (create Double.one) = create Double.two /\
  compareTo (create Double.one) (create Double.one) = 1%Z /\
  decreaseBy (create Double.one) (create Double.one) = create Double.zero.
Proof. repeat split; vm_compute; reflexivity. Qed.

Lemma isZero_finite (s : bool) (m : positive) (e : Z) :
  bounded Double.prec Double.emax m e = true ->
  isZero (create (S754_finite s m e)) = true <->
  (Qabs (inject_Z (cond_Zopp s (Zpos m)) * 2 ^ e) < tolerance)%Q.
Proof.
  intros Hb.
  rewrite below_tolerance_ulps by (apply bounded_inv in Hb; lia).
  rewrite <- (below_1e_10_ulps m e Hb).
  apply SFltb_finite_pos.
Qed.

Lemma tolerance_pos : (0 < tolerance)%Q.
Proof.
  unfold tolerance.
  apply Qmult_lt_0_compat; [reflexivity | apply two_pow_pos].
Qed.

(** C8 (amended): [Rational::isZero] returns true exactly for the
    scalars that stand for a number of magnitude strictly below the
    value of the literal [1e-10]; this includes both zeros and excludes
    the infinities and NaN. *)
Theorem isZero_iff_below_tolerance (r : Rational) :
  Double.is_double (value_ r) ->
  isZero r = true <->
  exists q : Q, Double.value (value_ r) = Some q /\ (Qabs q < tolerance)%Q.
Proof.
  destruct r as [[s | s | | s m e]]; unfold Double.is_double;
    cbn [value_ valid_binary Double.value]; intros Hv.
  - split; [intros _ | reflexivity].
    exists 0%Q. split; [reflexivity | exact tolerance_pos].
  - split; [destruct s; discriminate | intros (q & Hq & _); discriminate].
  - split; [discriminate | intros (q & Hq & _); discriminate].
  - rewrite (isZero_finite s m e Hv). split.
    + intros Hlt. eexists. split; [reflexivity | exact Hlt].
    + intros (q & Hq & Hlt). injection Hq as <-. exact Hlt.
Qed.

Lemma isZero_iff_below_tolerance_witness :
  Double.is_double (value_ (create Double.lit_1e_11)) /\
  (isZero (create Double.lit_1e_11) = true <->
   exists q : Q, Double.value (value_ (create Double.lit_1e_11)) = Some q /\
                 (Qabs q < tolerance)%Q).
Proof.
  split; [reflexivity|].
  apply (isZero_iff_below_tolerance (create Double.lit_1e_11)). reflexivity.
Defined.

(** C8 (counterexample): the scalar holding [1e-11] passes [isZero]
    although it does not stand for zero. *)
Lemma isZero_of_1e_11 :
  ~ (isZero (create Double.lit_1e_11) = true <->
     exactly_zero (create Double.lit_1e_11)).
Proof.
  intros [Hzero _].
  destruct (Hzero eq_refl) as (q & Hq & Heq).
  cbn in Hq. injection Hq as <-.
  apply Qmult_integral in Heq as [Heq | Heq].
  - discriminate Heq.
  - pose proof (two_pow_pos (-89)) as Hpos. rewrite Heq in Hpos.
    discriminate Hpos.
Qed.

End RationalFacts.

(** ** edge.cc : class Edge *)

Section EdgeFacts.
Context {R : Type} `{Scalar R}.
Import Edge.

Lemma ptr_eqb_eq (p q : ptr) : ptr_eqb p q = true <-> p = q.
Proof. unfold ptr_eqb. apply bool_decide_eq_true. Qed.

Lemma ptr_eqb_neq (p q : ptr) : ptr_eqb p q = false <-> p <> q.
Proof. unfold ptr_eqb. apply bool_decide_eq_false. Qed.

(** For an endpoint of the edge, [getOpposite] returns the other one. *)
Lemma getOpposite_endpoint (e : Edge R) (node : ptr) :
  (node = a_ e -> getOpposite e node = Returns (b_ e)) /\
  (node <> a_ e -> node = b_ e -> getOpposite e node = Returns (a_ e)).
Proof.
  unfold getOpposite. split.
  - intros Ha. apply ptr_eqb_eq in Ha. rewrite Ha. reflexivity.
  - intros Ha Hb. apply ptr_eqb_neq in Ha. apply ptr_eqb_eq in Hb.
    rewrite Ha, Hb. reflexivity.
Qed.

(** C9: for a node that is not an endpoint of the edge, [Edge::getOpposite]
    neither returns a node nor throws: the [throw] of the last branch is
    commented out, so the call ends without a defined result instead of
    surfacing EdgeNotIncident. *)
Theorem getOpposite_not_incident (e : Edge R) (node : ptr) :
  node <> a_ e -> node <> b_ e ->
  getOpposite e node = Undefined /\
  getOpposite e node <> Throws EdgeNotIncident.
Proof.
  intros Ha Hb. apply ptr_eqb_neq in Ha. apply ptr_eqb_neq in Hb.
  unfold getOpposite. rewrite Ha, Hb. split; [reflexivity | discriminate].
Qed.

(** C10: on an edge with two non-null endpoints [Edge::getOppositeElement]
    returns the user object of [b_] when [element] is the user object of
    [a_], and the user object of [a_] for every other [element]; when an
    endpoint is null it returns the null pointer. *)
Theorem getOppositeElement_spec (ns : NodeHeap) (e : Edge R) (element : ptr) :
  (forall (la lb : addr) (na nb : SpaceNode.SpaceNode),
      a_ e = Some la -> b_ e = Some lb ->
      ns !! la = Some na -> ns !! lb = Some nb ->
      (element = SpaceNode.getUserObject na ->
       getOppositeElement ns e element = Returns (SpaceNode.getUserObject nb)) /\
      (element <> SpaceNode.getUserObject na ->
       getOppositeElement ns e element = Returns (SpaceNode.getUserObject na))) /\
  (a_ e = None \/ b_ e = None ->
   getOppositeElement ns e element = Returns None).
Proof.
  split.
  - intros la lb na nb Ha Hb Hna Hnb. unfold getOppositeElement.
    rewrite Ha, Hb. cbn [deref_node]. rewrite Hna, Hnb. cbn.
    split; intros Hel.
    + apply ptr_eqb_eq in Hel. rewrite Hel. reflexivity.
    + apply ptr_eqb_neq in Hel. rewrite Hel. reflexivity.
  - unfold getOppositeElement. intros [Hnull | Hnull]; rewrite Hnull.
    + reflexivity.
    + cbn. rewrite andb_false_r. reflexivity.
Qed.

End EdgeFacts.

Lemma getOpposite_not_incident_witness :
  Some 3%positive <> Edge.a_ Examples.edge12 /\
  Some 3%positive <> Edge.b_ Examples.edge12 /\
  Edge.getOpposite Examples.edge12 (Some 3%positive) = Undefined /\
  Edge.getOpposite Examples.edge12 (Some 3%positive) <> Throws EdgeNotIncident.
Proof.
  split; [discriminate|]. split; [discriminate|].
  apply (getOpposite_not_incident Examples.edge12 (Some 3%positive)); discriminate.
Defined.

Lemma getOppositeElement_spec_witness :
  Edge.getOppositeElement Examples.three_nodes Examples.edge12 (Some 11%positive)
    = Returns (Some 12%positive) /\
  Edge.getOppositeElement Examples.three_nodes Examples.edge12 (Some 13%positive)
    = Returns (Some 11%positive) /\
  Edge.getOppositeElement Examples.three_nodes Examples.edge1_null (Some 11%positive)
    = Returns None.
Proof.
  pose proof (getOppositeElement_spec Examples.three_nodes Examples.edge12
                (Some 11%positive)) as [Hboth _].
  pose proof (getOppositeElement_spec Examples.three_nodes Examples.edge12
                (Some 13%positive)) as [Hother _].
  pose proof (getOppositeElement_spec Examples.three_nodes Examples.edge1_null
                (Some 11%positive)) as [_ Hnull].
  split; [|split].
  - apply (Hboth 1%positive 2%positive Examples.node1 Examples.node2);
      reflexivity.
  - apply (Hother 1%positive 2%positive Examples.node1 Examples.node2);
      [reflexivity .. | discriminate].
  - apply Hnull. right. reflexivity.
Defined.

(** ** The checking index *)

Section CheckingIndex.
Local Open Scope Z_scope.

Lemma createNewCheckingIndex_in_range (s : Z) :
  0 <= s < 2000000000 ->
  createNewCheckingIndex s =
    ((s + 1) mod 2000000000, (s + 1) mod 2000000000).
Proof.
  intros Hs. unfold createNewCheckingIndex, Int.rem, Int.add, Int.wrap.
  assert (H31 : 2 ^ 31 = 2147483648) by reflexivity.
  assert (H32 : 2 ^ 32 = 4294967296) by reflexivity.
  rewrite H31, H32.
  rewrite (Z.mod_small (s + 1 + 2147483648)) by lia.
  replace (s + 1 + 2147483648 - 2147483648) with (s + 1) by lia.
  rewrite Z.rem_mod_nonneg by lia.
  pose proof (Z.mod_pos_bound (s + 1) 2000000000 ltac:(lia)) as Hm.
  rewrite (Z.mod_small (_ + 2147483648)) by lia.
  replace ((s + 1) mod 2000000000 + 2147483648 - 2147483648)
    with ((s + 1) mod 2000000000) by lia.
  reflexivity.
Qed.

Lemma checking_index_after_succ (n : N) :
  checking_index_after (N.succ n) =
  fst (createNewCheckingIndex (checking_index_after n)).
Proof. unfold checking_index_after. rewrite N.iter_succ. reflexivity. Qed.

(** After [n] allocations the member holds [n mod 2000000000]. *)
Lemma checking_index_after_mod (n : N) :
  checking_index_after n = Z.of_N n mod 2000000000.
Proof.
  induction n as [| n IH] using N.peano_ind.
  - reflexivity.
  - rewrite checking_index_after_succ, IH.
    pose proof (Z.mod_pos_bound (Z.of_N n) 2000000000 ltac:(lia)) as Hm.
    rewrite createNewCheckingIndex_in_range by exact Hm.
    cbn [fst]. rewrite N2Z.inj_succ, <- Z.add_1_r.
    rewrite Z.add_mod_idemp_l by lia. reflexivity.
Qed.

(** In every reachable state the checking index lies in [0, 2000000000);
    an allocation stores and returns the previous value plus one reduced
    modulo 2000000000, which is again at most 2000000000; the returned
    value is the previous one plus one, except that the allocation
    following 1999999999 returns 0. *)
Theorem createNewCheckingIndex_spec (n : N) :
  let s := checking_index_after n in
  let r := snd (createNewCheckingIndex s) in
  0 <= s < 2000000000 /\
  fst (createNewCheckingIndex s) = r /\
  r = (s + 1) mod 2000000000 /\
  0 <= r <= 2000000000 /\
  ((s < 1999999999 /\ r = s + 1) \/ (s = 1999999999 /\ r = 0)).
Proof.
  cbv zeta. rewrite checking_index_after_mod.
  pose proof (Z.mod_pos_bound (Z.of_N n) 2000000000 ltac:(lia)) as Hm.
  rewrite createNewCheckingIndex_in_range by exact Hm. cbn [fst snd].
  set (s := Z.of_N n mod 2000000000) in *.
  pose proof (Z.mod_pos_bound (s + 1) 2000000000 ltac:(lia)) as Hr.
  split; [exact Hm|]. split; [reflexivity|]. split; [reflexivity|].
  split; [lia|].
  destruct (Z.eq_dec s 1999999999) as [-> | Hne].
  - right. split; reflexivity.
  - left. split; [lia|]. apply Z.mod_small. lia.
Qed.

(** After 1999999999 allocations the index is 1999999999, and the next
    allocation returns 0, a smaller value. *)
Lemma checking_index_wraps :
  checking_index_after 1999999999 = 1999999999 /\
  ~ (checking_index_after 1999999999
       <= snd (createNewCheckingIndex (checking_index_after 1999999999))).
Proof.
  assert (Hs : checking_index_after 1999999999 = 1999999999).
  { rewrite checking_index_after_mod. reflexivity. }
  split; [exact Hs|]. rewrite Hs.
  rewrite createNewCheckingIndex_in_range by lia.
  cbn [snd]. intros Hle. revert Hle. apply Z.lt_nge. reflexivity.
Qed.

End CheckingIndex.

(** ** edge.cc : class SpaceNode, what a call preserves *)

Section Triples.
Import Triangulation.
Context {G : Type} (K : Kernel G).

(** [R] relates the state before a call with the state after it, [E]
    with the state in which an exception leaves it. *)
Variable R : World G -> World G -> Prop.
Variable E : exception -> World G -> World G -> Prop.

Local Abbreviation sat := (Triangulation.sat R E).

Hypothesis R_refl : forall w, R w w.
Hypothesis R_trans : forall a b c, R a b -> R b c -> R a c.
Hypothesis E_trans : forall e a b c, R a b -> E e b c -> E e a c.
Hypothesis E_testPosition :
  forall w l p e, Tetrahedron_testPosition K w l p = Some e -> E e w w.
Hypothesis E_walkToPoint :
  forall w l c o e, Tetrahedron_walkToPoint K w l c o = inl e -> E e w w.
(** The state-changing functions defined outside edge.cc, the allocation
    of a checking index, and the listener calls in [allowed]. *)
Hypothesis R_command :
  forall (A : Type) (eff : Effect G A) (w : World G), R w (apply_effect eff w).
Hypothesis R_checking_index :
  forall (w : World G) (c : Z),
    R w (mkWorld (nodes w) (geo w) c (notifications w)).
Variable allowed : callback -> Prop.
Hypothesis R_notify :
  forall (w : World G) (l : addr) (c : callback) (p : array3),
    allowed c ->
    R w (mkWorld (nodes w) (geo w) (checking_index_ w)
           (notifications w ++ [mkNotification l c p])).

Lemma sat_ret {A : Type} (a : A) : sat (ret a).
Proof. intros w. cbn. apply R_refl. Qed.

Lemma sat_fault {A : Type} : sat (@fault G A).
Proof. intros w. exact I. Qed.

Lemma sat_out_of_fuel {A : Type} : sat (@out_of_fuel G A).
Proof. intros w. exact I. Qed.

Lemma sat_query {A : Type} (f : World G -> A) : sat (query f).
Proof. intros w. cbn. apply R_refl. Qed.

Lemma sat_bind {A B : Type} (m : M G A) (k : A -> M G B) :
  sat m -> (forall a, sat (k a)) -> sat (bind m k).
Proof.
  intros Hm Hk w. unfold bind. specialize (Hm w).
  destruct (m w) as [a w1 | e w1 | |]; try exact I; [|exact Hm].
  specialize (Hk a w1). destruct (k a w1) as [b w2 | e w2 | |]; try exact I.
  - eapply R_trans; eassumption.
  - eapply E_trans; eassumption.
Qed.

Lemma sat_deref (p : ptr) : sat (@deref G p).
Proof. destruct p; [apply sat_ret | apply sat_fault]. Qed.

Lemma sat_node (l : addr) : sat (@node G l).
Proof. intros w. unfold node. destruct (nodes w !! l); [apply R_refl | exact I]. Qed.

Lemma sat_at_index {A : Type} (v : list A) (i : nat) : sat (@at_index G A v i).
Proof. unfold at_index. destruct (v !! i); [apply sat_ret | apply sat_fault]. Qed.

Lemma sat_read {A : Type} (f : World G -> addr -> A) (p : ptr) : sat (read f p).
Proof. unfold read. apply sat_bind; [apply sat_deref | intros l; apply sat_query]. Qed.

Lemma sat_getPosition (p : ptr) : sat (@getPosition G p).
Proof.
  unfold getPosition. apply sat_bind; [apply sat_deref|]. intros l.
  apply sat_bind; [apply sat_node|]. intros n. apply sat_ret.
Qed.

Lemma sat_for_each {A : Type} (xs : list A) (body : A -> M G unit) :
  (forall x, sat (body x)) -> sat (for_each xs body).
Proof.
  intros Hbody. induction xs as [| x xs IH]; cbn [for_each].
  - apply sat_ret.
  - apply sat_bind; [apply Hbody | intros _; exact IH].
Qed.

Lemma sat_testPosition (t : ptr) (p : array3) : sat (testPosition K t p).
Proof.
  intros w. unfold testPosition, bind, read, deref, query.
  destruct t as [l|]; cbn; [|exact I].
  destruct (Tetrahedron_testPosition K w l p) as [e|] eqn:Ht; cbn.
  - eapply E_testPosition; eassumption.
  - apply R_refl.
Qed.

Lemma sat_walkToPoint (t : ptr) (c : array3) (o : list Z) : sat (walkToPoint K t c o).
Proof.
  intros w. unfold walkToPoint, bind, read, deref, query.
  destruct t as [l|]; cbn; [|exact I].
  destruct (Tetrahedron_walkToPoint K w l c o) as [e|next] eqn:Ht; cbn.
  - eapply E_walkToPoint; eassumption.
  - apply R_refl.
Qed.

Lemma sat_and_then (a b : M G bool) : sat a -> sat b -> sat (and_then a b).
Proof.
  intros Ha Hb. unfold and_then. apply sat_bind; [exact Ha|].
  intros [|]; [exact Hb | apply sat_ret].
Qed.

Lemma sat_or_else (a b : M G bool) : sat a -> sat b -> sat (or_else a b).
Proof.
  intros Ha Hb. unfold or_else. apply sat_bind; [exact Ha|].
  intros [|]; [apply sat_ret | exact Hb].
Qed.

Lemma sat_command {A : Type} (f : World G -> Effect G A) : sat (command f).
Proof. intros w. cbn. apply R_command. Qed.

Lemma sat_run {A : Type} (f : World G -> addr -> Effect G A) (p : ptr) : sat (run f p).
Proof. unfold run. apply sat_bind; [apply sat_deref | intros l; apply sat_command]. Qed.

Lemma sat_notify (this l : addr) (c : callback) : allowed c -> sat (notify this l c).
Proof.
  intros Hc w. unfold notify, bind, node.
  destruct (nodes w !! this) as [n|]; [|exact I].
  apply R_notify. exact Hc.
Qed.

Lemma sat_notify_listeners (this : addr) (c : callback) :
  allowed c -> sat (notify_listeners this c).
Proof.
  intros Hc. unfold notify_listeners. apply sat_bind; [apply sat_node|].
  intros n. apply sat_for_each. intros l. apply sat_notify. exact Hc.
Qed.

Lemma sat_createNewCheckingIndex_call : sat (@createNewCheckingIndex_call G).
Proof.
  intros w. unfold createNewCheckingIndex_call.
  destruct (createNewCheckingIndex (checking_index_ w)) as [c r].
  apply R_checking_index.
Qed.

(** One step of a proof that a function built from the pieces above
    satisfies the triple; the shape of the program decides the step. *)
Ltac sat_step :=
  lazymatch goal with
  | |- sat (bind _ _) => apply sat_bind; [|intros]
  | |- sat (ret _) => apply sat_ret
  | |- sat fault => apply sat_fault
  | |- sat out_of_fuel => apply sat_out_of_fuel
  | |- sat (query _) => apply sat_query
  | |- sat (command _) => apply sat_command
  | |- sat (deref _) => apply sat_deref
  | |- sat (node _) => apply sat_node
  | |- sat (at_index _ _) => apply sat_at_index
  | |- sat (read _ _) => apply sat_read
  | |- sat (run _ _) => apply sat_run
  | |- sat (getPosition _) => apply sat_getPosition
  | |- sat (testPosition _ _ _) => apply sat_testPosition
  | |- sat (walkToPoint _ _ _ _) => apply sat_walkToPoint
  | |- sat createNewCheckingIndex_call => apply sat_createNewCheckingIndex_call
  | |- sat (and_then _ _) => apply sat_and_then
  | |- sat (or_else _ _) => apply sat_or_else
  | |- sat (for_each _ _) => apply sat_for_each; intros
  | |- sat (if ?b then _ else _) => destruct b
  | |- sat (match ?x with _ => _ end) => destruct x
  | |- _ => first [assumption | solve [auto 2 with sat nocore]]
  end.

Create HintDb sat discriminated.

Ltac sat_auto := repeat sat_step.

Lemma sat_walk (fuel : nat) (c : array3) (current last : ptr) :
  sat (walk K fuel c current last).
Proof.
  revert current last. induction fuel as [| fuel IH]; intros current last;
    cbn [walk]; unfold isInfinite, generateTriangleOrder; sat_auto;
    try apply IH.
Qed.
#[local] Hint Resolve sat_walk : sat.

Lemma sat_searchInitialInsertionTetrahedron (fuel : nat) (start : ptr) (c : array3) :
  sat (searchInitialInsertionTetrahedron K fuel start c).
Proof.
  unfold searchInitialInsertionTetrahedron, isInfinite, getOppositeTriangle,
    getOppositeTetrahedron.
  sat_auto; try apply sat_walk.
Qed.
#[local] Hint Resolve sat_searchInitialInsertionTetrahedron : sat.

Lemma sat_check_tetrahedra (this : addr) (p : array3) (ts : list ptr) :
  sat (check_tetrahedra K this p ts).
Proof.
  induction ts as [| t ts IH]; cbn [check_tetrahedra];
    unfold all_neighbors_infinite, neighbor_isInfinite, isFlat, isInfinite,
      getAdjacentTetrahedron, getOppositeTriangle, updatePlaneEquationIfNecessary,
      trulyOnSameSide;
    sat_auto.
Qed.
#[local] Hint Resolve sat_check_tetrahedra : sat.

Lemma sat_checkIfTriangulationIsStillValid (this : addr) (p : array3) :
  sat (checkIfTriangulationIsStillValid K this p).
Proof.
  unfold checkIfTriangulationIsStillValid. sat_auto; try apply sat_check_tetrahedra.
Qed.
#[local] Hint Resolve sat_checkIfTriangulationIsStillValid : sat.

Ltac unfold_calls :=
  unfold isInfinite, isFlat, isValid, getAdjacentTriangles, getAdjacentNodes,
    getAdjacentTetrahedron, getOppositeTriangle, getOppositeNode,
    isTrulyInsideSphere, isInsideSphere, isNeighbor, isAdjacentTo,
    getVerticeContents, tetrahedron_remove, updateCirumSphereAfterNodeMovement,
    tetrahedron_create, getOppositeTetrahedron, isCompletelyOpen, trulyOnSameSide,
    updatePlaneEquationIfNecessary, wasCheckedAlready, getANewTetrahedron,
    putTriangle, removeTriangle, removeAllTetrahedraInSphere, triangulate,
    oto_createSimpleOpenTriangleOrganizer, generateTriangleOrder.

Lemma sat_is_messed_up (this : addr) (t : ptr) : sat (is_messed_up K this t).
Proof. unfold is_messed_up. unfold_calls. sat_auto. Qed.

Lemma sat_remove_adjacent (this oto : addr) (ts messed : list ptr) :
  sat (remove_adjacent K this oto ts messed).
Proof.
  revert messed. induction ts as [| t ts IH]; intros messed; cbn [remove_adjacent].
  - sat_auto.
  - unfold_calls. sat_auto; try apply sat_is_messed_up; try apply IH.
Qed.
#[local] Hint Resolve sat_remove_adjacent : sat.

Lemma sat_removeAndReturnCreatedTetrahedron (this : addr) :
  allowed (nodeAboutToBeRemoved this) -> allowed (nodeRemoved this) ->
  sat (removeAndReturnCreatedTetrahedron K this).
Proof.
  intros H1 H2. unfold removeAndReturnCreatedTetrahedron.
  apply sat_bind; [apply sat_notify_listeners; exact H1 | intros _].
  apply sat_bind; [unfold_calls; sat_auto | intros oto].
  apply sat_bind; [sat_auto | intros n].
  apply sat_bind; [apply sat_remove_adjacent | intros messed].
  apply sat_bind; [unfold_calls; sat_auto | intros _].
  apply sat_bind; [unfold_calls; sat_auto | intros _].
  apply sat_bind; [apply sat_notify_listeners; exact H2 | intros _].
  unfold_calls; sat_auto.
Qed.
#[local] Hint Resolve sat_removeAndReturnCreatedTetrahedron : sat.

Lemma sat_process_triangles (oto : addr) (ts queue : list ptr) :
  sat (process_triangles K oto ts queue).
Proof.
  revert queue. induction ts as [| t ts IH]; intros queue; cbn [process_triangles].
  - sat_auto.
  - unfold_calls. sat_auto; try apply IH.
Qed.
#[local] Hint Resolve sat_process_triangles : sat.

Lemma sat_processTetrahedron (t : ptr) (queue : list ptr) (oto : addr) :
  sat (processTetrahedron K t queue oto).
Proof.
  unfold processTetrahedron. unfold_calls. sat_auto; try apply sat_process_triangles.
Qed.
#[local] Hint Resolve sat_processTetrahedron : sat.

Lemma sat_process_queue (fuel : nat) (this oto : addr) (i : nat) (queue outer : list ptr) :
  sat (process_queue K fuel this oto i queue outer).
Proof.
  revert i queue outer.
  induction fuel as [| fuel IH]; intros i queue outer; cbn [process_queue].
  - destruct (queue !! i); sat_auto.
  - destruct (queue !! i); [|sat_auto]. unfold_calls.
    sat_auto; try apply sat_processTetrahedron; try apply IH.
Qed.
#[local] Hint Resolve sat_process_queue : sat.

Lemma sat_create_star (this oto : addr) (outer : list ptr) (created : ptr) :
  sat (create_star K this oto outer created).
Proof.
  revert created. induction outer as [| t ts IH]; intros created; cbn [create_star].
  - sat_auto.
  - unfold_calls. sat_auto; try apply IH.
Qed.
#[local] Hint Resolve sat_create_star : sat.

Lemma sat_insert (fuel : nat) (this : addr) (start : ptr) :
  (forall p v, allowed (nodeAboutToBeAdded this p v)) -> allowed (nodeAdded this) ->
  sat (insert K fuel this start).
Proof.
  intros H1 H2. unfold insert.
  apply sat_bind; [sat_auto | intros n].
  apply sat_bind; [apply sat_searchInitialInsertionTetrahedron | intros start'].
  apply sat_bind; [sat_auto | intros n'].
  apply sat_bind.
  { destruct (negb _); [|sat_auto].
    apply sat_bind; [unfold_calls; sat_auto | intros v].
    apply sat_notify_listeners. apply H1. }
  intros _.
  apply sat_bind; [unfold_calls; sat_auto | intros oto].
  apply sat_bind; [apply sat_processTetrahedron | intros queue].
  apply sat_bind; [apply sat_process_queue | intros outer].
  apply sat_bind; [apply sat_create_star | intros created].
  apply sat_bind; [apply sat_notify_listeners; exact H2 | intros _].
  sat_auto.
Qed.
#[local] Hint Resolve sat_insert : sat.

Lemma sat_third_tetrahedron (t ti : ptr) (ns : list ptr) (i j : nat) :
  sat (third_tetrahedron K t ti ns i j).
Proof. unfold third_tetrahedron. unfold_calls. sat_auto. Qed.

Lemma sat_find_third (t ti : ptr) (ns : list ptr) (i : nat) (js : list nat) :
  sat (find_third K t ti ns i js).
Proof.
  induction js as [| j js IH]; cbn [find_third].
  - sat_auto.
  - apply sat_bind; [apply sat_third_tetrahedron|]. intros [tj|]; sat_auto.
Qed.
#[local] Hint Resolve sat_find_third : sat.

Lemma sat_choose_repair (t ti ni : ptr) (ns : list ptr) (i : nat) :
  sat (choose_repair K t ti ni ns i).
Proof.
  unfold choose_repair.
  apply sat_bind; [unfold_calls; sat_auto | intros infinite].
  apply sat_bind; [apply sat_find_third | intros third].
  destruct third; [sat_auto|].
  unfold removal_condition, one_is_flat. unfold_calls. sat_auto.
Qed.
#[local] Hint Resolve sat_choose_repair : sat.

Lemma sat_perform_repair (r : Repair) : sat (perform_repair K r).
Proof. destruct r; cbn [perform_repair]; sat_auto. Qed.

Lemma sat_push_new (new : list ptr) (work : Work) : sat (push_new K new work).
Proof.
  revert work. induction new as [| t ts IH]; intros work; cbn [push_new].
  - sat_auto.
  - unfold_calls. sat_auto; try apply IH.
Qed.
#[local] Hint Resolve sat_push_new : sat.

Lemma sat_examine_triangle (c : Z) (t : ptr) (tris ns : list ptr) (i : nat) (work : Work) :
  sat (examine_triangle K c t tris ns i work).
Proof.
  unfold examine_triangle.
  apply sat_bind; [sat_auto | intros triangle_i].
  apply sat_bind; [unfold_calls; sat_auto | intros checked].
  destruct checked; [sat_auto|].
  apply sat_bind; [unfold_calls; sat_auto | intros ti].
  apply sat_bind; [unfold_calls; sat_auto | intros ni].
  apply sat_bind; [unfold_calls; sat_auto | intros violation].
  destruct violation; [|sat_auto].
  apply sat_bind; [apply sat_choose_repair | intros repair].
  apply sat_bind; [apply sat_perform_repair | intros new].
  destruct new; [sat_auto|].
  apply sat_bind; [apply sat_push_new | intros work']. sat_auto.
Qed.
#[local] Hint Resolve sat_examine_triangle : sat.

Lemma sat_examine_triangles (c : Z) (t : ptr) (tris ns : list ptr) (indices : list nat)
    (work : Work) :
  sat (examine_triangles K c t tris ns indices work).
Proof.
  revert work. induction indices as [| i indices IH]; intros work;
    cbn [examine_triangles].
  - sat_auto.
  - apply sat_bind; [apply sat_examine_triangle | intros r].
    destruct (r.1); [sat_auto | apply IH].
Qed.
#[local] Hint Resolve sat_examine_triangles : sat.

Lemma sat_process_active (fuel : nat) (c : Z) (work : Work) :
  sat (process_active K fuel c work).
Proof.
  revert work. induction fuel as [| fuel IH]; intros work; cbn [process_active].
  - destruct (active_tetrahedra work); sat_auto.
  - destruct (active_tetrahedra work) as [| t rest]; [sat_auto|].
    apply sat_bind; [unfold_calls; sat_auto | intros valid].
    destruct valid; [|apply IH].
    apply sat_bind; [unfold_calls; sat_auto | intros _].
    apply sat_bind; [unfold_calls; sat_auto | intros tris].
    apply sat_bind; [unfold_calls; sat_auto | intros ns].
    apply sat_bind; [unfold_calls; sat_auto | intros infinite].
    apply sat_bind; [apply sat_examine_triangles | intros work2].
    apply IH.
Qed.
#[local] Hint Resolve sat_process_active : sat.

Lemma sat_collect_neighbors (ft : ptr) (tris messed : list ptr) :
  sat (collect_neighbors K ft tris messed).
Proof.
  revert messed. induction tris as [| t ts IH]; intros messed; cbn [collect_neighbors].
  - sat_auto.
  - unfold_calls. sat_auto; try apply IH.
Qed.
#[local] Hint Resolve sat_collect_neighbors : sat.

Lemma sat_collect_flat (flat messed : list ptr) : sat (collect_flat K flat messed).
Proof.
  revert messed. induction flat as [| t ts IH]; intros messed; cbn [collect_flat].
  - sat_auto.
  - apply sat_bind; [unfold_calls; sat_auto | intros valid].
    destruct (valid && _); [|apply IH].
    apply sat_bind; [unfold_calls; sat_auto | intros tris].
    apply sat_bind; [apply sat_collect_neighbors | intros messed'].
    apply IH.
Qed.
#[local] Hint Resolve sat_collect_flat : sat.

Lemma sat_still_messed_up (t : ptr) (tris : list ptr) : sat (still_messed_up K t tris).
Proof.
  induction tris as [| x xs IH]; cbn [still_messed_up].
  - sat_auto.
  - unfold_calls. sat_auto.
Qed.
#[local] Hint Resolve sat_still_messed_up : sat.

Lemma sat_collect_problems (problem messed : list ptr) :
  sat (collect_problems K problem messed).
Proof.
  revert messed. induction problem as [| t ts IH]; intros messed; cbn [collect_problems].
  - sat_auto.
  - apply sat_bind; [unfold_calls; sat_auto | intros candidate].
    destruct candidate; [|apply IH].
    apply sat_bind; [unfold_calls; sat_auto | intros tris].
    apply sat_bind; [apply sat_still_messed_up | intros messed'].
    apply IH.
Qed.
#[local] Hint Resolve sat_collect_problems : sat.

Lemma sat_add_opposites (t : ptr) (tris lst : list ptr) (changed : bool) :
  sat (add_opposites K t tris lst changed).
Proof.
  revert lst changed.
  induction tris as [| x xs IH]; intros lst changed; cbn [add_opposites].
  - sat_auto.
  - apply sat_bind; [unfold_calls; sat_auto | intros opposite].
    destruct (negb _ && _); apply IH.
Qed.
#[local] Hint Resolve sat_add_opposites : sat.

Lemma sat_reopen_triangles (oto : addr) (tris : list ptr) :
  sat (reopen_triangles K oto tris).
Proof.
  induction tris as [| x xs IH]; cbn [reopen_triangles].
  - sat_auto.
  - unfold_calls. sat_auto.
Qed.
#[local] Hint Resolve sat_reopen_triangles : sat.

Lemma sat_removeTetrahedronDuringCleanUp (t : ptr) (lst ns : list ptr) (oto : addr) :
  sat (removeTetrahedronDuringCleanUp K t lst ns oto).
Proof.
  unfold removeTetrahedronDuringCleanUp.
  apply sat_bind; [unfold_calls; sat_auto | intros adjacent_nodes].
  destruct (add_nodes adjacent_nodes ns false) as [ns' changed].
  apply sat_bind; [unfold_calls; sat_auto | intros tris].
  apply sat_bind; [apply sat_add_opposites | intros r].
  apply sat_bind; [unfold_calls; sat_auto | intros _].
  apply sat_bind; [unfold_calls; sat_auto | intros tris'].
  apply sat_bind; [apply sat_reopen_triangles | intros _].
  sat_auto.
Qed.
#[local] Hint Resolve sat_removeTetrahedronDuringCleanUp : sat.

Lemma sat_remove_messed_up (oto : addr) (messed outer ns : list ptr) :
  sat (remove_messed_up K oto messed outer ns).
Proof.
  revert outer ns.
  induction messed as [| t ts IH]; intros outer ns; cbn [remove_messed_up].
  - sat_auto.
  - apply sat_bind; [unfold_calls; sat_auto | intros valid].
    destruct valid; [|apply IH].
    apply sat_bind; [apply sat_removeTetrahedronDuringCleanUp | intros r].
    apply IH.
Qed.
#[local] Hint Resolve sat_remove_messed_up : sat.

Lemma sat_has_problem_node (t : ptr) (ns : list ptr) : sat (has_problem_node K t ns).
Proof.
  induction ns as [| x xs IH]; cbn [has_problem_node].
  - sat_auto.
  - unfold_calls. sat_auto.
Qed.
#[local] Hint Resolve sat_has_problem_node : sat.

Lemma sat_find_problem_tetrahedron (outer ns : list ptr) :
  sat (find_problem_tetrahedron K outer ns).
Proof.
  induction outer as [| x xs IH]; cbn [find_problem_tetrahedron].
  - sat_auto.
  - apply sat_bind; [unfold_calls; sat_auto | intros valid].
    apply sat_bind.
    { destruct valid; [apply sat_has_problem_node | sat_auto]. }
    intros problem. destruct problem; [sat_auto | exact IH].
Qed.
#[local] Hint Resolve sat_find_problem_tetrahedron : sat.

Lemma sat_cleanUp_loop (fuel : nat) (oto : addr) (outer ns : list ptr) :
  sat (cleanUp_loop K fuel oto outer ns).
Proof.
  revert outer ns. induction fuel as [| fuel IH]; intros outer ns; cbn [cleanUp_loop].
  - apply sat_bind; [apply sat_find_problem_tetrahedron | intros pt].
    destruct (ptr_eqb pt None); sat_auto.
  - apply sat_bind; [apply sat_find_problem_tetrahedron | intros pt].
    destruct (ptr_eqb pt None); [sat_auto|].
    apply sat_bind; [apply sat_removeTetrahedronDuringCleanUp | intros r].
    apply IH.
Qed.
#[local] Hint Resolve sat_cleanUp_loop : sat.

Lemma sat_cleanUp (fuel : nat) (messed : list ptr) : sat (cleanUp K fuel messed).
Proof.
  unfold cleanUp.
  apply sat_bind; [unfold_calls; sat_auto | intros oto].
  apply sat_bind; [apply sat_remove_messed_up | intros r].
  apply sat_bind; [apply sat_cleanUp_loop | intros _].
  unfold_calls; sat_auto.
Qed.
#[local] Hint Resolve sat_cleanUp : sat.

Lemma sat_restore_loop (fuel : nat) (active : list ptr) :
  sat (restore_loop K fuel active).
Proof.
  revert active. induction fuel as [| fuel IH]; intros active; cbn [restore_loop].
  - destruct active; sat_auto.
  - destruct active as [| t rest]; [sat_auto|].
    apply sat_bind; [apply sat_createNewCheckingIndex_call | intros c].
    apply sat_bind; [apply sat_process_active | intros work].
    apply sat_bind; [apply sat_collect_flat | intros m1].
    apply sat_bind; [apply sat_collect_problems | intros m2].
    apply sat_bind.
    { destruct m2; [sat_auto | apply sat_cleanUp]. }
    intros _. apply IH.
Qed.
#[local] Hint Resolve sat_restore_loop : sat.

Lemma sat_restoreDelaunay (fuel : nat) (this : addr) :
  sat (restoreDelaunay K fuel this).
Proof.
  unfold restoreDelaunay.
  apply sat_bind; [sat_auto | intros n].
  apply sat_bind; [unfold_calls; sat_auto | intros _].
  apply sat_restore_loop.
Qed.
#[local] Hint Resolve sat_restoreDelaunay : sat.

Lemma sat_reinsert_position (fuel : nat) (this : addr) (p : array3) :
  allowed (nodeAboutToBeRemoved this) -> allowed (nodeRemoved this) ->
  sat (reinsert_position K fuel this p).
Proof.
  intros H1 H2. unfold reinsert_position.
  apply sat_bind; [sat_auto | intros n].
  apply sat_bind; [sat_auto | intros front].
  apply sat_bind; [apply sat_searchInitialInsertionTetrahedron | intros ip].
  apply sat_bind; [apply sat_removeAndReturnCreatedTetrahedron; assumption | intros t].
  apply sat_bind; [unfold_calls; sat_auto | intros valid].
  sat_auto.
Qed.

(** The assignment [position_ = new_position;] *)
Hypothesis R_update_node :
  forall (w : World G) (l : addr) (f : SpaceNode.SpaceNode -> SpaceNode.SpaceNode),
    R w (mkWorld (alter f l (nodes w)) (geo w) (checking_index_ w) (notifications w)).



End Triples.

(** ** The choice of the repair in [restoreDelaunay] *)

Section RepairChoice.
Import Triangulation.
Context {G : Type} (K : Kernel G).

Lemma bind_done {A B : Type} (m : M G A) (k : A -> M G B) (w w' : World G) (b : B) :
  bind m k w = Done b w' ->
  exists a w1, m w = Done a w1 /\ k a w1 = Done b w'.
Proof.
  unfold bind. destruct (m w) as [a w1 | e w1 | |]; try discriminate.
  intros Hk. exists a, w1. split; [reflexivity | exact Hk].
Qed.

Lemma reads_done {A : Type} (m : M G A) (w w' : World G) (a : A) :
  reads m -> m w = Done a w' -> w' = w.
Proof. intros Hm Hw. specialize (Hm w). rewrite Hw in Hm. exact Hm. Qed.

Lemma reads_bind_done {A B : Type} (m : M G A) (k : A -> M G B)
    (w w' : World G) (b : B) :
  reads m -> bind m k w = Done b w' ->
  exists a, m w = Done a w /\ k a w = Done b w'.
Proof.
  intros Hm Hb. apply bind_done in Hb as (a & w1 & Ha & Hk).
  pose proof (reads_done m w w1 a Hm Ha) as ->.
  exists a. split; assumption.
Qed.

Lemma reads_isInfinite (t : ptr) : reads (isInfinite K t).
Proof. unfold reads, isInfinite. apply sat_read; [reflexivity | congruence | contradiction]. Qed.

Lemma reads_find_third (t ti : ptr) (ns : list ptr) (i : nat) (js : list nat) :
  reads (find_third K t ti ns i js).
Proof.
  unfold reads. apply sat_find_third; [reflexivity | congruence | contradiction].
Qed.

Lemma reads_removal_condition (t ti ni : ptr) : reads (removal_condition K t ti ni).
Proof.
  unfold reads, removal_condition, isFlat, isAdjacentTo.
  repeat apply sat_and_then; try apply sat_read;
    first [reflexivity | congruence | contradiction].
Qed.

Lemma reads_one_is_flat (t ti : ptr) : reads (one_is_flat K t ti).
Proof.
  unfold reads, one_is_flat, isFlat.
  apply sat_or_else; try apply sat_read;
    first [reflexivity | congruence | contradiction].
Qed.

(** The cases of [choose_repair]. *)
Lemma choose_repair_cases
    (tetrahedron tetrahedron_i node_i : ptr) (tet_adjacent_nodes : list ptr) (i : nat)
    (w w' : World G) (r : Repair) :
  choose_repair K tetrahedron tetrahedron_i node_i tet_adjacent_nodes i w = Done r w' ->
  w' = w /\
  exists (infinite : bool) (third : option ptr),
    isInfinite K tetrahedron w = Done infinite w /\
    find_third K tetrahedron tetrahedron_i tet_adjacent_nodes i
      (triangle_indices infinite) w = Done third w /\
    match third with
    | Some tetrahedron_j => r = Flip3to2 tetrahedron tetrahedron_i tetrahedron_j
    | None =>
        exists removal : bool,
          removal_condition K tetrahedron tetrahedron_i node_i w = Done removal w /\
          if removal then r = Remove2FlatTetrahedra tetrahedron tetrahedron_i
          else
            exists some_flat : bool,
              one_is_flat K tetrahedron tetrahedron_i w = Done some_flat w /\
              r = if some_flat then NoRepair else Flip2to3 tetrahedron tetrahedron_i
    end.
Proof.
  unfold choose_repair. intros Hc.
  apply reads_bind_done in Hc as (infinite & Hinf & Hc); [|apply reads_isInfinite].
  apply reads_bind_done in Hc as (third & Hthird & Hc); [|apply reads_find_third].
  destruct third as [tetrahedron_j|].
  - injection Hc as <- <-. split; [reflexivity|].
    exists infinite, (Some tetrahedron_j). repeat split; assumption.
  - apply reads_bind_done in Hc as (removal & Hrem & Hc);
      [|apply reads_removal_condition].
    destruct removal.
    + injection Hc as <- <-. split; [reflexivity|].
      exists infinite, None. repeat split; try assumption.
      exists true. split; [assumption | reflexivity].
    + apply reads_bind_done in Hc as (some_flat & Hflat & Hc);
        [|apply reads_one_is_flat].
      destruct some_flat; injection Hc as <- <-.
      * split; [reflexivity|]. exists infinite, None. repeat split; try assumption.
        exists false. split; [assumption|]. exists true. split; [assumption|reflexivity].
      * split; [reflexivity|]. exists infinite, None. repeat split; try assumption.
        exists false. split; [assumption|]. exists false. split; [assumption|reflexivity].
Qed.

(** What a completed call tells about its argument and its result. *)
Lemma read_done {A : Type} (f : World G -> addr -> A) (p : ptr) (a : A) (w w' : World G) :
  read f p w = Done a w' -> w' = w /\ exists l, p = Some l /\ a = f w l.
Proof.
  unfold read, bind, deref. destruct p as [l|]; [|discriminate].
  cbn. unfold query. intros [= <- <-]. split; [reflexivity|]. eauto.
Qed.

Lemma at_index_inv {A : Type} (v : list A) (i : nat) (x : A) (w w' : World G) :
  @at_index G A v i w = Done x w' -> w' = w /\ v !! i = Some x.
Proof.
  unfold at_index. destruct (v !! i); [|discriminate].
  intros [= <- <-]. split; reflexivity.
Qed.

Lemma ptr_eqb_some_null (l : addr) : ptr_eqb (Some l) None = false.
Proof. apply ptr_eqb_neq. discriminate. Qed.

Lemma ptr_eqb_null_null : ptr_eqb None None = true.
Proof. apply ptr_eqb_eq. reflexivity. Qed.

(** [a->isTrulyInsideSphere(b->getPosition())] *)
Lemma inside_eval (tet nd : addr) (w : World G) :
  (let* p := getPosition (Some nd) in isTrulyInsideSphere K (Some tet) p) w =
  match nodes w !! nd with
  | Some n => Done (Tetrahedron_isTrulyInsideSphere K w tet (SpaceNode.position_ n)) w
  | None => Fault
  end.
Proof.
  unfold getPosition, isTrulyInsideSphere, read, bind, deref, Triangulation.node,
    query, ret. cbn.
  destruct (nodes w !! nd); reflexivity.
Qed.

Lemma and_then_read (f : World G -> addr -> bool) (l : addr) (m : M G bool) (w : World G) :
  and_then (read f (Some l)) m w = if f w l then m w else Done false w.
Proof. unfold and_then, read, bind, deref, query, ret. cbn. destruct (f w l); reflexivity. Qed.

Lemma or_else_read (f : World G -> addr -> bool) (l : addr) (m : M G bool) (w : World G) :
  or_else (read f (Some l)) m w = if f w l then Done true w else m w.
Proof. unfold or_else, read, bind, deref, query, ret. cbn. destruct (f w l); reflexivity. Qed.

(** The condition of the 3-to-2 flip. *)
Lemma flip_eval (t ti tj oj oi : addr) (w : World G) :
  or_else
    (and_then (isFlat K (Some t))
       (and_then (isFlat K (Some ti))
          (and_then (isFlat K (Some tj))
             (ret (negb (ptr_eqb (Some ti) (Some tj)))))))
    (and_then
       (let* p := getPosition (Some oj) in isTrulyInsideSphere K (Some tj) p)
       (let* p := getPosition (Some oi) in isTrulyInsideSphere K (Some ti) p)) w
  = if Tetrahedron_isFlat K w t && Tetrahedron_isFlat K w ti &&
       Tetrahedron_isFlat K w tj && negb (ptr_eqb (Some ti) (Some tj))
    then Done true w
    else
      match nodes w !! oj with
      | None => Fault
      | Some nj =>
          if Tetrahedron_isTrulyInsideSphere K w tj (SpaceNode.position_ nj)
          then match nodes w !! oi with
               | None => Fault
               | Some ni =>
                   Done (Tetrahedron_isTrulyInsideSphere K w ti (SpaceNode.position_ ni)) w
               end
          else Done false w
      end.
Proof.
  unfold or_else at 1. unfold bind at 1. unfold isFlat. rewrite !and_then_read.
  assert (Hsecond :
    and_then
      (let* p := getPosition (Some oj) in isTrulyInsideSphere K (Some tj) p)
      (let* p := getPosition (Some oi) in isTrulyInsideSphere K (Some ti) p) w
    = match nodes w !! oj with
      | None => Fault
      | Some nj =>
          if Tetrahedron_isTrulyInsideSphere K w tj (SpaceNode.position_ nj)
          then match nodes w !! oi with
               | None => Fault
               | Some ni =>
                   Done (Tetrahedron_isTrulyInsideSphere K w ti (SpaceNode.position_ ni)) w
               end
          else Done false w
      end).
  { unfold and_then at 1. unfold bind at 1. rewrite inside_eval.
    destruct (nodes w !! oj) as [nj|]; [|reflexivity].
    destruct (Tetrahedron_isTrulyInsideSphere K w tj (SpaceNode.position_ nj));
      [|reflexivity].
    rewrite inside_eval. destruct (nodes w !! oi); reflexivity. }
  destruct (Tetrahedron_isFlat K w t); cbn [andb]; [|exact Hsecond].
  destruct (Tetrahedron_isFlat K w ti); cbn [andb]; [|exact Hsecond].
  destruct (Tetrahedron_isFlat K w tj); cbn [andb]; [|exact Hsecond].
  unfold ret at 1.
  destruct (negb (ptr_eqb (Some ti) (Some tj))); [reflexivity | exact Hsecond].
Qed.

(** The test of the loop over [j] finds a tetrahedron exactly when one
    qualifies. *)
Lemma third_tetrahedron_spec (t ti : addr) (ns : list ptr) (i j : nat)
    (w w' : World G) (r : option ptr) :
  third_tetrahedron K (Some t) (Some ti) ns i j w = Done r w' ->
  w' = w /\
  match r with
  | Some p => exists tj, p = Some tj /\ qualifies K w t ti ns i j tj
  | None => forall tj, ~ qualifies K w t ti ns i j tj
  end.
Proof.
  unfold third_tetrahedron.
  destruct (Nat.eqb i j) eqn:Hij.
  { intros [= <- <-]. split; [reflexivity|]. intros tj [Hne _].
    apply Nat.eqb_eq in Hij. contradiction. }
  apply Nat.eqb_neq in Hij. intros H.
  apply bind_done in H as (triangles & w1 & H1 & H).
  apply read_done in H1 as (-> & l & [= <-] & ->).
  apply bind_done in H as (triangle_j & w1 & H1 & H).
  apply at_index_inv in H1 as (-> & Htri).
  apply bind_done in H as (tetrahedron_j & w1 & H1 & H).
  apply read_done in H1 as (-> & trj & -> & ->).
  apply bind_done in H as (neighbor & w1 & H1 & H).
  apply read_done in H1 as (-> & tj & Htj & ->).
  destruct (Tetrahedron_isNeighbor K w tj (Some ti)) eqn:Hnb.
  2:{ injection H as <- <-. split; [reflexivity|].
      intros tj0 (_ & a & b & c & H1 & H2 & H3 & _). congruence. }
  apply bind_done in H as (opp_j & w1 & H1 & H).
  apply at_index_inv in H1 as (-> & Hoj).
  apply bind_done in H as (opp_i & w1 & H1 & H).
  apply at_index_inv in H1 as (-> & Hoi).
  destruct opp_i as [oi|].
  2:{ rewrite ptr_eqb_null_null in H. cbn in H. injection H as <- <-.
      split; [reflexivity|].
      intros tj0 (_ & a & b & c & H1 & H2 & H3 & H4 & H5 & _). congruence. }
  destruct opp_j as [oj|].
  2:{ rewrite ptr_eqb_null_null, andb_false_r in H. injection H as <- <-.
      split; [reflexivity|].
      intros tj0 (_ & a & b & c & H1 & H2 & H3 & H4 & H5 & _). congruence. }
  rewrite !ptr_eqb_some_null in H. cbn [negb andb] in H.
  apply bind_done in H as (flip & w1 & Hflip & H).
  rewrite Htj, flip_eval in Hflip.
  destruct (Tetrahedron_isFlat K w t && Tetrahedron_isFlat K w ti &&
            Tetrahedron_isFlat K w tj && negb (ptr_eqb (Some ti) (Some tj))) eqn:Hflat.
  { injection Hflip as <- <-. injection H as <- <-. split; [reflexivity|].
    exists tj. split; [assumption|]. split; [exact Hij|].
    exists trj, oj, oi. repeat (split; [assumption|]). left.
    apply andb_prop in Hflat as [Hflat Hne]. apply andb_prop in Hflat as [Hflat H3].
    apply andb_prop in Hflat as [H1 H2]. repeat split; try assumption.
    apply negb_true_iff, ptr_eqb_neq in Hne. congruence. }
  assert (Hnoflat : ~ (Tetrahedron_isFlat K w t = true /\ Tetrahedron_isFlat K w ti = true /\
                       Tetrahedron_isFlat K w tj = true /\ ti <> tj)).
  { intros (H1 & H2 & H3 & Hne). rewrite H1, H2, H3 in Hflat. cbn in Hflat.
    apply negb_false_iff, ptr_eqb_eq in Hflat. congruence. }
  destruct (nodes w !! oj) as [nj|] eqn:Hnj; [|discriminate].
  destruct (Tetrahedron_isTrulyInsideSphere K w tj (SpaceNode.position_ nj)) eqn:Hinj.
  - destruct (nodes w !! oi) as [ni|] eqn:Hni; [|discriminate].
    injection Hflip as <- <-.
    destruct (Tetrahedron_isTrulyInsideSphere K w ti (SpaceNode.position_ ni)) eqn:Hini;
      injection H as <- <-; (split; [reflexivity|]).
    + exists tj. split; [assumption|]. split; [exact Hij|].
      exists trj, oj, oi. repeat (split; [assumption|]). right.
      exists nj, ni. repeat split; assumption.
    + intros tj0 (_ & a & b & c & H1 & H2 & H3 & H4 & H5 & Hcases).
      assert (a = trj) by congruence; subst a.
      assert (tj0 = tj) by congruence; subst tj0.
      assert (b = oj) by congruence; subst b.
      assert (c = oi) by congruence; subst c.
      destruct Hcases as [Hf | (nj0 & ni0 & ? & ? & ? & ?)]; [tauto | congruence].
  - injection Hflip as <- <-. injection H as <- <-. split; [reflexivity|].
    intros tj0 (_ & a & b & c & H1 & H2 & H3 & H4 & H5 & Hcases).
    assert (a = trj) by congruence; subst a.
    assert (tj0 = tj) by congruence; subst tj0.
    assert (b = oj) by congruence; subst b.
    assert (c = oi) by congruence; subst c.
    destruct Hcases as [Hf | (nj0 & ni0 & ? & ? & ? & ?)]; [tauto | congruence].
Qed.

(** The loop over [j] stops at the first triangle behind which a
    tetrahedron qualifies. *)
Lemma find_third_spec (t ti : addr) (ns : list ptr) (i : nat) (js : list nat)
    (w w' : World G) (r : option ptr) :
  find_third K (Some t) (Some ti) ns i js w = Done r w' ->
  w' = w /\
  match r with
  | Some p =>
      exists before j after tj,
        js = before ++ j :: after /\ p = Some tj /\
        none_qualifies K w t ti ns i before /\
        qualifies K w t ti ns i j tj
  | None => none_qualifies K w t ti ns i js
  end.
Proof.
  induction js as [| j rest IH]; cbn [find_third].
  - intros [= <- <-]. split; [reflexivity | constructor].
  - intros H. apply bind_done in H as (found & w1 & Hthird & H).
    apply third_tetrahedron_spec in Hthird as [-> Hfound].
    destruct found as [p|].
    + injection H as <- <-. split; [reflexivity|].
      destruct Hfound as (tj & -> & Hq).
      exists [], j, rest, tj. repeat split; [constructor | apply Hq ..].
    + apply IH in H as [-> Hrest]. split; [reflexivity|].
      destruct r as [p|].
      * destruct Hrest as (before & j' & after & tj & -> & -> & Hnone & Hq).
        exists (j :: before), j', after, tj. repeat split; try apply Hq.
        constructor; assumption.
      * constructor; assumption.
Qed.

Lemma run_inv {A : Type} (f : World G -> addr -> Effect G A) (p : ptr) (a : A)
    (w w' : World G) :
  run f p w = Done a w' ->
  exists l, p = Some l /\ a = eff_value (f w l) /\ w' = apply_effect (f w l) w.
Proof.
  unfold run, bind, deref. destruct p as [l|]; [|discriminate].
  cbn. unfold command. intros [= <- <-]. eauto.
Qed.

Lemma violation_eval (t ti l : addr) (w : World G) :
  or_else (let* p := getPosition (Some l) in isTrulyInsideSphere K (Some t) p)
          (and_then (isFlat K (Some t)) (isFlat K (Some ti))) w
  = match nodes w !! l with
    | Some n =>
        Done (Tetrahedron_isTrulyInsideSphere K w t (SpaceNode.position_ n) ||
              (Tetrahedron_isFlat K w t && Tetrahedron_isFlat K w ti)) w
    | None => Fault
    end.
Proof.
  unfold or_else at 1. unfold bind at 1. rewrite inside_eval.
  destruct (nodes w !! l) as [n|]; [|reflexivity].
  destruct (Tetrahedron_isTrulyInsideSphere K w t (SpaceNode.position_ n)); [reflexivity|].
  unfold isFlat. rewrite and_then_read. cbn [orb].
  destruct (Tetrahedron_isFlat K w t); reflexivity.
Qed.

Lemma removal_condition_eval (t ti : addr) (node_i : ptr) (w : World G) :
  removal_condition K (Some t) (Some ti) node_i w = Done (removable K w t ti node_i) w.
Proof.
  unfold removal_condition, removable, isFlat, isAdjacentTo. rewrite !and_then_read.
  destruct (Tetrahedron_isFlat K w t); [|reflexivity].
  destruct (Tetrahedron_isFlat K w ti); reflexivity.
Qed.

Lemma one_is_flat_eval (t ti : addr) (w : World G) :
  one_is_flat K (Some t) (Some ti) w =
  Done (Tetrahedron_isFlat K w t || Tetrahedron_isFlat K w ti) w.
Proof.
  unfold one_is_flat, isFlat. rewrite or_else_read.
  destruct (Tetrahedron_isFlat K w t); reflexivity.
Qed.

Lemma reads_push_new (new : list ptr) (work : Work) : reads (push_new K new work).
Proof.
  unfold reads. apply sat_push_new; [reflexivity | congruence | contradiction].
Qed.

(** What [perform_repair] does to the state. *)
Lemma perform_repair_done (r : Repair) (new : list ptr) (w w' : World G) :
  perform_repair K r w = Done new w' ->
  match r with
  | Flip3to2 a b c => w' = apply_effect (Tetrahedron_flip3to2 K w a b c) w
  | Remove2FlatTetrahedra a b =>
      w' = apply_effect (Tetrahedron_remove2FlatTetrahedra K w a b) w
  | Flip2to3 a b => w' = apply_effect (Tetrahedron_flip2to3 K w a b) w
  | NoRepair => w' = w /\ new = []
  end.
Proof.
  destruct r as [a b c | a b | a b |]; cbn [perform_repair].
  - unfold command, bind, ret. intros [= _ <-]. reflexivity.
  - unfold command. intros [= _ <-]. reflexivity.
  - unfold command, bind, ret.
    destruct (forallb _ _); intros [= _ <-]; reflexivity.
  - intros [= <- <-]. split; reflexivity.
Qed.

(** C4 (amended): the body of the loop over the triangles of
    [restoreDelaunay], for a triangle that was not checked yet and across
    which a violation of the Delaunay criterion is detected.  The repair
    that is made is the first that applies in this order: the 3-to-2 flip
    with the tetrahedron behind the first triangle [j] that qualifies, also
    when the two flat tetrahedra could be removed together; the removal of
    the two flat tetrahedra when no third tetrahedron qualifies; the 2-to-3
    flip when neither of the two tetrahedra is flat; and otherwise no
    repair: the state stays as it is and the pair is written down as a
    problem.  [w1] is the state after [wasCheckedAlready], in which all the
    conditions are read; the triangles [j] are tried in the order 0 (left
    out for an infinite tetrahedron), 1, 2, 3. *)
Theorem restoreDelaunay_repair_precedence
    (checking_index : Z) (t triangle_i ti : addr) (tris ns : list ptr) (i : nat)
    (work work' : Work) (brk : bool) (w w' : World G) :
  let checked := Triangle3D_wasCheckedAlready K w triangle_i checking_index in
  let w1 := apply_effect checked w in
  let node_i := Tetrahedron_getOppositeNode K w1 ti (Some triangle_i) in
  let indices :=
    if Tetrahedron_isInfinite K w1 t then [1; 2; 3]%nat else [0; 1; 2; 3]%nat in
  tris !! i = Some (Some triangle_i) ->
  eff_value checked = false ->
  Triangle3D_getOppositeTetrahedron K w1 triangle_i (Some t) = Some ti ->
  violation K w1 t ti node_i ->
  examine_triangle K checking_index (Some t) tris ns i work w = Done (brk, work') w' ->
  (exists (before : list nat) (j : nat) (after : list nat) (tj : addr),
     indices = before ++ j :: after /\
     none_qualifies K w1 t ti ns i before /\
     qualifies K w1 t ti ns i j tj /\
     w' = apply_effect (Tetrahedron_flip3to2 K w1 (Some t) (Some ti) (Some tj)) w1) \/
  (none_qualifies K w1 t ti ns i indices /\
   ((removable K w1 t ti node_i = true /\
     w' = apply_effect (Tetrahedron_remove2FlatTetrahedra K w1 (Some t) (Some ti)) w1) \/
    (removable K w1 t ti node_i = false /\
     Tetrahedron_isFlat K w1 t = false /\ Tetrahedron_isFlat K w1 ti = false /\
     w' = apply_effect (Tetrahedron_flip2to3 K w1 (Some t) (Some ti)) w1) \/
    (removable K w1 t ti node_i = false /\
     (Tetrahedron_isFlat K w1 t = true \/ Tetrahedron_isFlat K w1 ti = true) /\
     w' = w1 /\ brk = false /\
     work' = mkWork (active_tetrahedra work ++ [Some ti])
               (problem_tetrahedra work ++ [Some t; Some ti])
               (flat_tetrahedra work)))).
Proof.
  intros checked w1 node_i indices Htri Hchecked Hti Hviolation Hrun.
  unfold examine_triangle in Hrun.
  apply bind_done in Hrun as (triangle & w0 & Hat & Hrun).
  apply at_index_inv in Hat as (-> & Hat). rewrite Htri in Hat. injection Hat as <-.
  apply bind_done in Hrun as (c & w0 & Hc & Hrun).
  unfold wasCheckedAlready in Hc.
  apply run_inv in Hc as (l & [= <-] & -> & ->).
  fold checked in Hrun. fold w1 in Hrun. rewrite Hchecked in Hrun.
  apply bind_done in Hrun as (tetrahedron_i & w0 & Hopp & Hrun).
  apply read_done in Hopp as (-> & l & [= <-] & ->). rewrite Hti in Hrun.
  apply bind_done in Hrun as (apex & w0 & Hnode & Hrun).
  apply read_done in Hnode as (-> & l & [= <-] & ->). fold node_i in Hrun.
  destruct Hviolation as (l & n & Hl & Hn & Hcases).
  apply bind_done in Hrun as (violated & w0 & Hviolated & Hrun).
  rewrite Hl, ptr_eqb_some_null, violation_eval, Hn in Hviolated.
  injection Hviolated as <- <-.
  assert (Htrue : Tetrahedron_isTrulyInsideSphere K w1 t (SpaceNode.position_ n) ||
                  (Tetrahedron_isFlat K w1 t && Tetrahedron_isFlat K w1 ti) = true).
  { destruct Hcases as [-> | [-> ->]]; [reflexivity | apply orb_true_r]. }
  rewrite Htrue in Hrun.
  apply bind_done in Hrun as (repair & w0 & Hchoice & Hrun).
  apply choose_repair_cases in Hchoice
    as (-> & infinite & third & Hinfinite & Hthird & Hrepair).
  apply read_done in Hinfinite as (_ & l0 & [= <-] & ->).
  apply find_third_spec in Hthird as [_ Hthird].
  change (triangle_indices (Tetrahedron_isInfinite K w1 t)) with indices in Hthird.
  apply bind_done in Hrun as (new & w2 & Hperform & Hrun).
  apply perform_repair_done in Hperform.
  assert (Hw' : w' = w2 /\ (new = [] -> brk = false /\
            work' = mkWork (active_tetrahedra work ++ [Some ti])
                      (problem_tetrahedra work ++ [Some t; Some ti])
                      (flat_tetrahedra work))).
  { destruct new as [| x new].
    - injection Hrun as <- <- <-. split; [reflexivity|]. intros _. split; reflexivity.
    - apply bind_done in Hrun as (pushed & w3 & Hpush & Hrun).
      apply (reads_done _ _ _ _ (reads_push_new _ _)) in Hpush as ->.
      injection Hrun as _ _ <-. split; [reflexivity | discriminate]. }
  destruct Hw' as [-> Hempty].
  destruct third as [p|].
  - destruct Hthird as (before & j & after & tj & Hsplit & -> & Hnone & Hq).
    subst repair. left. exists before, j, after, tj.
    split; [exact Hsplit|]. split; [exact Hnone|]. split; [exact Hq | exact Hperform].
  - destruct Hrepair as (removal & Hremoval & Hrepair).
    rewrite removal_condition_eval in Hremoval. injection Hremoval as <-.
    right. split; [exact Hthird|].
    destruct (removable K w1 t ti node_i) eqn:Hremovable.
    + subst repair. left. split; [reflexivity | exact Hperform].
    + destruct Hrepair as (some_flat & Hflat & Hrepair).
      rewrite one_is_flat_eval in Hflat. injection Hflat as <-.
      destruct (Tetrahedron_isFlat K w1 t || Tetrahedron_isFlat K w1 ti) eqn:Hsome;
        subst repair.
      * right. right. destruct Hperform as [-> ->].
        destruct (Hempty eq_refl) as [-> ->].
        split; [reflexivity|]. split; [apply orb_prop, Hsome|].
        repeat split.
      * right. left. apply orb_false_elim in Hsome as [Ht Hti'].
        repeat split; assumption.
Qed.

End RepairChoice.

(** In the state of the three flat tetrahedra, tetrahedron 3 (behind
    triangle 11 of tetrahedron 1) qualifies for the 3-to-2 flip with the
    tetrahedra 1 and 2. *)
Lemma third_qualifies :
  Triangulation.qualifies Examples.table_kernel Examples.flat_triple_world
    1%positive 2%positive [Some 20; Some 21; Some 22; Some 23]%positive 0 1 3%positive.
Proof.
  split; [discriminate|].
  exists 11%positive, 21%positive, 20%positive.
  repeat (split; [reflexivity|]).
  left. repeat split; try reflexivity. discriminate.
Qed.

Lemma restoreDelaunay_repair_precedence_witness :
  Triangulation.removable Examples.table_kernel Examples.flat_triple_world
    1%positive 2%positive (Some 21%positive) = true /\
  exists (brk : bool) (work' : Triangulation.Work)
         (w' : Triangulation.World Examples.Tables) (tj : addr),
    Triangulation.examine_triangle Examples.table_kernel 1 (Some 1%positive)
      [Some 10; Some 11; Some 12; Some 13]%positive
      [Some 20; Some 21; Some 22; Some 23]%positive 0
      (Triangulation.mkWork [] [] []) Examples.flat_triple_world
    = Triangulation.Done (brk, work') w' /\
    w' = Triangulation.apply_effect
           (Triangulation.Tetrahedron_flip3to2 Examples.table_kernel
              Examples.flat_triple_world (Some 1%positive) (Some 2%positive) (Some tj))
           Examples.flat_triple_world.
Proof.
  split; [reflexivity|].
  destruct (Triangulation.examine_triangle Examples.table_kernel 1 (Some 1%positive)
              [Some 10; Some 11; Some 12; Some 13]%positive
              [Some 20; Some 21; Some 22; Some 23]%positive 0
              (Triangulation.mkWork [] [] []) Examples.flat_triple_world)
    as [[brk work'] w' | | |] eqn:Hrun; try (vm_compute in Hrun; discriminate).
  exists brk, work', w'.
  destruct (restoreDelaunay_repair_precedence Examples.table_kernel 1
              1%positive 10%positive 2%positive
              [Some 10; Some 11; Some 12; Some 13]%positive
              [Some 20; Some 21; Some 22; Some 23]%positive 0
              (Triangulation.mkWork [] [] []) work' brk
              Examples.flat_triple_world w')
    as [(before & j & after & tj & _ & _ & _ & Hw') | [Hnone _]].
  - reflexivity.
  - reflexivity.
  - reflexivity.
  - exists 21%positive, (SpaceNode.create 1 Examples.position_b (Some 31%positive)).
    split; [reflexivity|]. split; [reflexivity|]. right. split; reflexivity.
  - exact Hrun.
  - exists tj. split; [reflexivity | exact Hw'].
  - exfalso. apply Forall_cons in Hnone as [_ Hnone].
    apply Forall_cons in Hnone as [Hnone _].
    exact (Hnone 3%positive third_qualifies).
Defined.

(** C4 (counterexample): the node at address 1 has the flat tetrahedron
    1 in its list; behind triangle 10 lies the flat tetrahedron 2, and
    tetrahedron 1 has the apex of tetrahedron 2 among its endpoints, so the
    two flat tetrahedra could be removed together.  Because the flat
    tetrahedron 3 is a neighbour of both, [restoreDelaunay] makes the
    3-to-2 flip instead, and makes no other repair. *)
Lemma flip3to2_before_flat_removal :
  Triangulation.violation Examples.table_kernel Examples.flat_triple_world
    1%positive 2%positive (Some 21%positive) /\
  Triangulation.removable Examples.table_kernel Examples.flat_triple_world
    1%positive 2%positive (Some 21%positive) = true /\
  exists w' : Triangulation.World Examples.Tables,
    Triangulation.restoreDelaunay Examples.table_kernel 5 1%positive
      Examples.flat_triple_world = Triangulation.Done tt w' /\
    Examples.t_repairs (Triangulation.geo w')
      = [Triangulation.Flip3to2 (Some 1%positive) (Some 2%positive) (Some 3%positive)].
Proof.
  split.
  { exists 21%positive, (SpaceNode.create 1 Examples.position_b (Some 31%positive)).
    split; [reflexivity|]. split; [reflexivity|]. right. split; reflexivity. }
  split; [reflexivity|].
  eexists. split; [vm_compute; reflexivity | reflexivity].
Qed.

(** ** What the geometry leaves alone *)

Section Frames.
Import Triangulation.
Context {G : Type} (K : Kernel G).

Lemma own_apply_call (c : NodeCall) (n : SpaceNode.SpaceNode) :
  own (apply_call c n) = own n.
Proof. destruct c; reflexivity. Qed.

Lemma own_apply_calls (calls : list (addr * NodeCall)) (ns : NodeHeap) (l : addr) :
  own <$> (apply_calls calls ns !! l) = own <$> (ns !! l).
Proof.
  revert ns. induction calls as [| [l' c] calls IH]; intros ns; cbn [apply_calls].
  - reflexivity.
  - rewrite IH. rewrite lookup_alter. case_decide as Heq.
    + subst l'. destruct (ns !! l) as [n|]; cbn; [|reflexivity].
      rewrite own_apply_call. reflexivity.
    + reflexivity.
Qed.

Lemma own_kept_refl (w : World G) : own_kept w w.
Proof. intros l. reflexivity. Qed.

Lemma own_kept_trans (a b c : World G) : own_kept a b -> own_kept b c -> own_kept a c.
Proof. intros Hab Hbc l. rewrite Hbc. apply Hab. Qed.

Lemma own_kept_command {A : Type} (eff : Effect G A) (w : World G) :
  own_kept w (apply_effect eff w).
Proof. intros l. cbn. apply own_apply_calls. Qed.

Lemma own_kept_lookup (w w' : World G) (l : addr) (n : SpaceNode.SpaceNode) :
  own_kept w w' -> nodes w !! l = Some n ->
  exists n', nodes w' !! l = Some n' /\ own n' = own n.
Proof.
  intros Hk Hn. specialize (Hk l). rewrite Hn in Hk.
  destruct (nodes w' !! l) as [n'|]; [|discriminate].
  exists n'. split; [reflexivity|]. cbn in Hk. congruence.
Qed.

Lemma notified_refl (allowed : callback -> Prop) (w : World G) : notified allowed w w.
Proof. exists []. split; [symmetry; apply app_nil_r | constructor]. Qed.

Lemma notified_trans (allowed : callback -> Prop) (a b c : World G) :
  notified allowed a b -> notified allowed b c -> notified allowed a c.
Proof.
  intros (x & Hx & Fx) (y & Hy & Fy). exists (x ++ y). split.
  - rewrite Hy, Hx. symmetry. apply app_assoc.
  - apply Forall_app. split; assumption.
Qed.

Lemma silent_refl (w : World G) : silent w w.
Proof. split; [reflexivity | apply own_kept_refl]. Qed.

Lemma silent_trans (a b c : World G) : silent a b -> silent b c -> silent a c.
Proof.
  intros [Hn1 Ho1] [Hn2 Ho2]. split; [congruence|].
  eapply own_kept_trans; eassumption.
Qed.

(** *** The three instances of the triples *)

Lemma silent_command {A : Type} (eff : Effect G A) (w : World G) :
  silent w (apply_effect eff w).
Proof. split; [reflexivity | apply own_kept_command]. Qed.

Lemma silent_checking_index (w : World G) (c : Z) :
  silent w (mkWorld (nodes w) (geo w) c (notifications w)).
Proof. split; [reflexivity | intros l; reflexivity]. Qed.

Lemma notified_command (allowed : callback -> Prop) {A : Type}
    (eff : Effect G A) (w : World G) :
  notified allowed w (apply_effect eff w).
Proof. exists []. split; [symmetry; apply app_nil_r | constructor]. Qed.

Lemma notified_notify (allowed : callback -> Prop) (w : World G)
    (l : addr) (c : callback) (p : array3) :
  allowed c ->
  notified allowed w
    (mkWorld (nodes w) (geo w) (checking_index_ w)
       (notifications w ++ [mkNotification l c p])).
Proof.
  intros Hc. exists [mkNotification l c p]. split; [reflexivity|].
  constructor; [exact Hc | constructor].
Qed.

Lemma keeps_silent_checkIfTriangulationIsStillValid (this : addr) (p : array3) :
  keeps_silent (checkIfTriangulationIsStillValid K this p).
Proof.
  apply sat_checkIfTriangulationIsStillValid.
  - apply silent_refl.
  - apply silent_trans.
  - intros e. apply silent_trans.
  - intros. apply silent_refl.
  - intros. apply silent_command.
Qed.

Lemma keeps_silent_restoreDelaunay (fuel : nat) (this : addr) :
  keeps_silent (restoreDelaunay K fuel this).
Proof.
  apply sat_restoreDelaunay.
  - apply silent_refl.
  - apply silent_trans.
  - intros e. apply silent_trans.
  - intros. apply silent_command.
  - apply silent_checking_index.
Qed.

Lemma reinsertion_call_not_move (this : addr) (c : callback) :
  reinsertion_call this c -> is_nodeAboutToMove c = false.
Proof.
  intros [-> | [-> | [(p & v & ->) | ->]]]; reflexivity.
Qed.

Lemma only_notifies_searchInitialInsertionTetrahedron
    (allowed : callback -> Prop) (fuel : nat) (start : ptr) (c : array3) :
  only_notifies allowed (searchInitialInsertionTetrahedron K fuel start c).
Proof.
  apply sat_searchInitialInsertionTetrahedron.
  - apply notified_refl.
  - apply notified_trans.
  - intros e. apply notified_trans.
  - intros. apply notified_refl.
  - intros. apply notified_command.
Qed.

Lemma only_notifies_removeAndReturnCreatedTetrahedron (this : addr) :
  only_notifies (reinsertion_call this) (removeAndReturnCreatedTetrahedron K this).
Proof.
  apply sat_removeAndReturnCreatedTetrahedron with (allowed := reinsertion_call this).
  - apply notified_refl.
  - apply notified_trans.
  - intros e. apply notified_trans.
  - intros. apply notified_command.
  - intros. apply notified_notify. assumption.
  - left. reflexivity.
  - right. left. reflexivity.
Qed.

Lemma only_notifies_insert (fuel : nat) (this : addr) (start : ptr) :
  only_notifies (reinsertion_call this) (insert K fuel this start).
Proof.
  apply sat_insert with (allowed := reinsertion_call this).
  - apply notified_refl.
  - apply notified_trans.
  - intros e. apply notified_trans.
  - intros. apply notified_refl.
  - intros. apply notified_command.
  - intros. apply notified_notify. assumption.
  - intros p v. right. right. left. exists p, v. reflexivity.
  - right. right. right. reflexivity.
Qed.

Lemma keeps_own_insert (fuel : nat) (this : addr) (start : ptr) :
  keeps_own (insert K fuel this start).
Proof.
  apply sat_insert with (allowed := fun _ => True).
  - apply own_kept_refl.
  - apply own_kept_trans.
  - intros e. apply own_kept_trans.
  - intros. apply own_kept_refl.
  - intros. apply own_kept_command.
  - intros w l c p _ l'. reflexivity.
  - intros. exact I.
  - exact I.
Qed.

End Frames.

(** ** [SpaceNode::moveTo] *)

Section Motion.
Import Triangulation.
Context {G : Type} (K : Kernel G).

Lemma world_eta (w : World G) :
  mkWorld (nodes w) (geo w) (checking_index_ w) (notifications w) = w.
Proof. destruct w. reflexivity. Qed.

(** The listeners are called once each, in the order of [listeners_]. *)
Lemma for_each_notify (this : addr) (c : callback) (n : SpaceNode.SpaceNode)
    (ls : list addr) (w : World G) :
  nodes w !! this = Some n ->
  for_each ls (fun l => notify this l c) w =
  Done tt (mkWorld (nodes w) (geo w) (checking_index_ w)
             (notifications w ++
              map (fun l => mkNotification l c (SpaceNode.position_ n)) ls)).
Proof.
  revert w. induction ls as [| l ls IH]; intros w Hn; cbn [for_each map].
  - cbn. rewrite app_nil_r, world_eta. reflexivity.
  - unfold bind at 1. unfold notify at 1. unfold bind, node. rewrite Hn.
    rewrite IH by exact Hn. cbn. rewrite <- app_assoc. reflexivity.
Qed.

Lemma notify_listeners_done (this : addr) (c : callback) (n : SpaceNode.SpaceNode)
    (w : World G) :
  nodes w !! this = Some n ->
  notify_listeners this c w =
  Done tt (mkWorld (nodes w) (geo w) (checking_index_ w)
             (notifications w ++
              map (fun l => mkNotification l c (SpaceNode.position_ n))
                (SpaceNode.listeners_ n))).
Proof.
  intros Hn. unfold notify_listeners, bind, node. rewrite Hn.
  apply for_each_notify. exact Hn.
Qed.

Lemma sat_done {A : Type} (R : World G -> World G -> Prop)
    (E : exception -> World G -> World G -> Prop) (m : M G A)
    (w w' : World G) (a : A) :
  sat R E m -> m w = Done a w' -> R w w'.
Proof. intros Hm Hw. specialize (Hm w). rewrite Hw in Hm. exact Hm. Qed.


Lemma node_done (this : addr) (w w' : World G) (n : SpaceNode.SpaceNode) :
  @node G this w = Done n w' -> w' = w /\ nodes w !! this = Some n.
Proof.
  unfold node. destruct (nodes w !! this) as [n0|]; [|discriminate].
  intros [= -> ->]. split; reflexivity.
Qed.

(** The notifications of the first branch. *)
Lemma moveTo_in_place_notifications (fuel : nat) (this : addr) (p : array3)
    (w w' : World G) (n : SpaceNode.SpaceNode) :
  nodes w !! this = Some n ->
  moveTo_in_place K fuel this p w = Done tt w' ->
  notifications w' =
    notifications w ++
    map (fun l => mkNotification l
                    (nodeAboutToMove this (Matrix.subtract p (SpaceNode.position_ n)))
                    (SpaceNode.position_ n))
        (SpaceNode.listeners_ n) ++
    map (fun l => mkNotification l (nodeMoved this) p) (SpaceNode.listeners_ n).
Proof.
  intros Hn Hrun. unfold moveTo_in_place in Hrun.
  apply bind_done in Hrun as (n0 & w0 & Hnode & Hrun).
  apply node_done in Hnode as [-> Hn0]. rewrite Hn in Hn0. injection Hn0 as <-.
  apply bind_done in Hrun as ([] & w2 & Hnot & Hrun).
  rewrite (notify_listeners_done this _ n w Hn) in Hnot. injection Hnot as <-.
  apply bind_done in Hrun as ([] & w3 & Hupd & Hrun).
  unfold update_node in Hupd. cbn in Hupd. injection Hupd as <-.
  apply bind_done in Hrun as ([] & w4 & Hrestore & Hrun).
  pose proof (sat_done _ _ _ _ _ _ (keeps_silent_restoreDelaunay K fuel this) Hrestore)
    as [Hsame Hown].
  destruct (own_kept_lookup _ _ this (SpaceNode.set_position p n) Hown) as (n4 & Hn4 & Hown4).
  { cbn. rewrite lookup_alter. rewrite decide_True by reflexivity. rewrite Hn. reflexivity. }
  rewrite (notify_listeners_done this _ n4 w4 Hn4) in Hrun. injection Hrun as <-.
  cbn. rewrite Hsame. cbn.
  unfold own in Hown4. cbn in Hown4. injection Hown4 as _ _ Hls Hpos.
  rewrite Hls, Hpos. rewrite <- app_assoc. reflexivity.
Qed.

(** The notifications of the second branch. *)
Lemma moveTo_reinsert_notifications (fuel : nat) (this : addr) (p : array3)
    (w w' : World G) :
  moveTo_reinsert K fuel this p w = Done tt w' ->
  notified (reinsertion_call this) w w'.
Proof.
  intros Hrun. unfold moveTo_reinsert in Hrun.
  apply bind_done in Hrun as (ip & w1 & Hpos & Hrun).
  assert (H1 : notified (reinsertion_call this) w w1).
  { refine (sat_done _ _ _ _ _ _ _ Hpos).
    apply sat_reinsert_position with (allowed := reinsertion_call this).
    - apply notified_refl.
    - apply notified_trans.
    - intros e. apply notified_trans.
    - intros. apply notified_refl.
    - intros. apply notified_command.
    - intros. apply notified_notify. assumption.
    - left. reflexivity.
    - right. left. reflexivity. }
  apply bind_done in Hrun as (n1 & w1' & Hnode & Hrun).
  apply node_done in Hnode as [-> Hn1].
  apply bind_done in Hrun as ([] & w2 & Hupd & Hrun).
  unfold update_node in Hupd. injection Hupd as <-.
  apply bind_done in Hrun as (created & w3 & Hins & Hrun).
  injection Hrun as <-.
  pose proof (sat_done _ _ _ _ _ _ (only_notifies_insert K fuel this ip) Hins) as H3.
  eapply notified_trans; [exact H1|]. exact H3.
Qed.

(** C5 (amended): a completed call of [SpaceNode::moveTo].  When the
    check succeeds (first branch), each listener of the node is called
    once with [nodeAboutToMove(node, delta)], [delta] being the new position
    minus the old one, while the node is still at its old position, and
    once with [nodeMoved] after the position is updated.  When the check
    fails (second branch), [nodeAboutToMove] is not called at all: the
    only listener calls are those of the removal and of the insertion. *)
Theorem moveTo_notifications (fuel : nat) (this : addr) (p : array3)
    (w w' : World G) (n : SpaceNode.SpaceNode) :
  nodes w !! this = Some n ->
  moveTo K fuel this p w = Done tt w' ->
  (exists w1,
      checkIfTriangulationIsStillValid K this p w = Done true w1 /\
      notifications w' =
        notifications w ++
        map (fun l => mkNotification l
                        (nodeAboutToMove this (Matrix.subtract p (SpaceNode.position_ n)))
                        (SpaceNode.position_ n))
            (SpaceNode.listeners_ n) ++
        map (fun l => mkNotification l (nodeMoved this) p) (SpaceNode.listeners_ n)) \/
  (exists w1 extra,
      checkIfTriangulationIsStillValid K this p w = Done false w1 /\
      notifications w' = notifications w ++ extra /\
      Forall (fun x => reinsertion_call this (call x) /\
                       is_nodeAboutToMove (call x) = false) extra).
Proof.
  intros Hn Hrun. unfold moveTo in Hrun.
  apply bind_done in Hrun as (valid & w1 & Hcheck & Hrun).
  pose proof (sat_done _ _ _ _ _ _
                (keeps_silent_checkIfTriangulationIsStillValid K this p) Hcheck)
    as [Hsame Hown].
  destruct valid.
  - left. exists w1. split; [exact Hcheck|].
    destruct (own_kept_lookup _ _ this n Hown Hn) as (n1 & Hn1 & Hown1).
    rewrite (moveTo_in_place_notifications fuel this p w1 w' n1 Hn1 Hrun).
    unfold own in Hown1. injection Hown1 as _ _ Hls Hpos.
    rewrite Hsame, Hls, Hpos. reflexivity.
  - right. apply moveTo_reinsert_notifications in Hrun as (extra & Hextra & Hall).
    exists w1, extra. split; [exact Hcheck|]. split; [congruence|].
    eapply Forall_impl; [exact Hall|]. cbn. intros x Hx. split; [exact Hx|].
    eapply reinsertion_call_not_move. exact Hx.
Qed.

(** *** The second branch, and what leaves [moveTo] *)

Lemma keeps_own_reinsert_position (fuel : nat) (this : addr) (p : array3) :
  keeps_own (reinsert_position K fuel this p).
Proof.
  apply sat_reinsert_position with (allowed := fun _ => True).
  - apply own_kept_refl.
  - apply own_kept_trans.
  - intros e. apply own_kept_trans.
  - intros. apply own_kept_refl.
  - intros. apply own_kept_command.
  - intros w l c q _ l'. reflexivity.
  - exact I.
  - exact I.
Qed.



End Motion.

Lemma moveTo_notifications_witness :
  match Triangulation.moveTo Examples.table_kernel 5 1%positive Examples.position_b
          Examples.hull_world with
  | Triangulation.Done _ w' =>
      Triangulation.count_nodeAboutToMove 7%positive (Triangulation.notifications w')
        = 1%nat
  | _ => False
  end.
Proof.
  destruct (Triangulation.moveTo Examples.table_kernel 5 1%positive
              Examples.position_b Examples.hull_world) as [[] w' | e w' | |] eqn:Hrun.
  - destruct (moveTo_notifications Examples.table_kernel 5 1%positive
                Examples.position_b Examples.hull_world w'
                (Examples.moving_node [Some 1%positive; Some 5%positive])
                eq_refl Hrun)
      as [(w1 & _ & Hn) | (w1 & extra & Hcheck & _)].
    + rewrite Hn. reflexivity.
    + vm_compute in Hcheck. discriminate Hcheck.
  - vm_compute in Hrun. discriminate Hrun.
  - vm_compute in Hrun. discriminate Hrun.
  - vm_compute in Hrun. discriminate Hrun.
Defined.

(** C5 (counterexample): the flat incident tetrahedron makes the check
    fail; the call completes, and the listener at address 7 has not been
    called with [nodeAboutToMove]. *)
Lemma moveTo_reinsert_not_announced :
  match Triangulation.moveTo Examples.table_kernel 5 1%positive Examples.position_b
          Examples.flat_world with
  | Triangulation.Done _ w' =>
      Triangulation.count_nodeAboutToMove 7%positive (Triangulation.notifications w')
        = 0%nat
  | _ => False
  end.
Proof. vm_compute. reflexivity. Qed.

(** ** [SpaceNode::checkIfTriangulationIsStillValid] *)

Section ValidityCheck.
Import Triangulation.
Context {G : Type} (K : Kernel G).
#[local] Arguments apply_effect : simpl never.

Lemma neighbor_isInfinite_true (inner : ptr) (number : Z) (w w' : World G) :
  neighbor_isInfinite K inner number w = Done true w' <->
  w' = w /\
  exists l neighbor,
    inner = Some l /\
    Tetrahedron_getAdjacentTetrahedron K w l number = Some neighbor /\
    Tetrahedron_isInfinite K w neighbor = true.
Proof.
  unfold neighbor_isInfinite, getAdjacentTetrahedron, isInfinite, read, bind, deref,
    query, ret.
  destruct inner as [l|]; cbn.
  - destruct (Tetrahedron_getAdjacentTetrahedron K w l number) as [nb|] eqn:Hnb; cbn.
    + split.
      * intros [= Hinf <-]. split; [reflexivity|]. exists l, nb. repeat split; assumption.
      * intros (-> & l0 & nb0 & Hl & Hnb' & Hinf).
        injection Hl as <-. rewrite Hnb in Hnb'. injection Hnb' as <-.
        rewrite Hinf. reflexivity.
    + split; [discriminate|]. intros (_ & l0 & nb0 & Hl & Hx & _).
      injection Hl as <-. rewrite Hnb in Hx. discriminate Hx.
  - split; [discriminate|]. intros (_ & l0 & nb0 & Hx & _). discriminate Hx.
Qed.

Lemma neighbor_isInfinite_pure (inner : ptr) (number : Z) (w w' : World G) (b : bool) :
  neighbor_isInfinite K inner number w = Done b w' -> w' = w.
Proof.
  unfold neighbor_isInfinite, getAdjacentTetrahedron, isInfinite, read, bind, deref,
    query, ret.
  destruct inner as [l|]; cbn; [|discriminate].
  destruct (Tetrahedron_getAdjacentTetrahedron K w l number) as [nb|]; cbn;
    [|discriminate].
  intros [= _ <-]. reflexivity.
Qed.

Lemma all_neighbors_infinite_true (inner : ptr) (w w' : World G) :
  all_neighbors_infinite K inner w = Done true w' <->
  w' = w /\
  exists l,
    inner = Some l /\
    forall number : Z, 0 <= number <= 3 ->
      exists neighbor,
        Tetrahedron_getAdjacentTetrahedron K w l number = Some neighbor /\
        Tetrahedron_isInfinite K w neighbor = true.
Proof.
  unfold all_neighbors_infinite. split.
  - intros Hrun.
    apply bind_done in Hrun as (b0 & w0 & H0 & Hrun).
    pose proof (neighbor_isInfinite_pure _ _ _ _ _ H0) as ->.
    destruct b0; [cbn in Hrun | discriminate Hrun].
    apply bind_done in Hrun as (b1 & w1 & H1 & Hrun).
    pose proof (neighbor_isInfinite_pure _ _ _ _ _ H1) as ->.
    destruct b1; [cbn in Hrun | discriminate Hrun].
    apply bind_done in Hrun as (b2 & w2 & H2 & Hrun).
    pose proof (neighbor_isInfinite_pure _ _ _ _ _ H2) as ->.
    destruct b2; [cbn in Hrun | discriminate Hrun].
    apply neighbor_isInfinite_true in H0 as (_ & l & n0 & -> & Hn0 & Hi0).
    apply neighbor_isInfinite_true in H1 as (_ & l1 & n1 & [= <-] & Hn1 & Hi1).
    apply neighbor_isInfinite_true in H2 as (_ & l2 & n2 & [= <-] & Hn2 & Hi2).
    apply neighbor_isInfinite_true in Hrun as (-> & l3 & n3 & [= <-] & Hn3 & Hi3).
    split; [reflexivity|]. exists l. split; [reflexivity|].
    intros number Hrange.
    assert (Hcases : number = 0 \/ number = 1 \/ number = 2 \/ number = 3) by lia.
    destruct Hcases as [-> | [-> | [-> | ->]]]; eauto.
  - intros (-> & l & -> & Hall).
    destruct (Hall 0 ltac:(lia)) as (n0 & Hn0 & Hi0).
    destruct (Hall 1 ltac:(lia)) as (n1 & Hn1 & Hi1).
    destruct (Hall 2 ltac:(lia)) as (n2 & Hn2 & Hi2).
    destruct (Hall 3 ltac:(lia)) as (n3 & Hn3 & Hi3).
    assert (H0 : neighbor_isInfinite K (Some l) 0 w = Done true w).
    { apply neighbor_isInfinite_true. split; [reflexivity|]. eauto 6. }
    assert (H1 : neighbor_isInfinite K (Some l) 1 w = Done true w).
    { apply neighbor_isInfinite_true. split; [reflexivity|]. eauto 6. }
    assert (H2 : neighbor_isInfinite K (Some l) 2 w = Done true w).
    { apply neighbor_isInfinite_true. split; [reflexivity|]. eauto 6. }
    assert (H3 : neighbor_isInfinite K (Some l) 3 w = Done true w).
    { apply neighbor_isInfinite_true. split; [reflexivity|]. eauto 6. }
    unfold bind. rewrite H0. cbn [negb]. rewrite H1. cbn [negb]. rewrite H2.
    cbn [negb]. exact H3.
Qed.

Lemma all_neighbors_infinite_pure (inner : ptr) (w w' : World G) (b : bool) :
  all_neighbors_infinite K inner w = Done b w' -> w' = w.
Proof.
  unfold all_neighbors_infinite. intros Hrun.
  apply bind_done in Hrun as (b0 & w0 & H0 & Hrun).
  pose proof (neighbor_isInfinite_pure _ _ _ _ _ H0) as ->.
  destruct b0; cbn in Hrun; [|injection Hrun as _ <-; reflexivity].
  apply bind_done in Hrun as (b1 & w1 & H1 & Hrun).
  pose proof (neighbor_isInfinite_pure _ _ _ _ _ H1) as ->.
  destruct b1; cbn in Hrun; [|injection Hrun as _ <-; reflexivity].
  apply bind_done in Hrun as (b2 & w2 & H2 & Hrun).
  pose proof (neighbor_isInfinite_pure _ _ _ _ _ H2) as ->.
  destruct b2; cbn in Hrun; [|injection Hrun as _ <-; reflexivity].
  eapply neighbor_isInfinite_pure. exact Hrun.
Qed.

(** One turn of the loop, for a tetrahedron that is flat, infinite, or
    finite. *)
Lemma check_cons_flat (this : addr) (p : array3) (t : addr) (rest : list ptr)
    (w : World G) :
  Tetrahedron_isFlat K w t = true ->
  check_tetrahedra K this p (Some t :: rest) w = Done false w.
Proof.
  intros Hflat. cbn [check_tetrahedra].
  unfold isFlat, read, bind, deref, query, ret. cbn. rewrite Hflat. reflexivity.
Qed.

Lemma check_cons_infinite (this : addr) (p : array3) (t : addr) (rest : list ptr)
    (w : World G) :
  Tetrahedron_isFlat K w t = false ->
  Tetrahedron_isInfinite K w t = true ->
  check_tetrahedra K this p (Some t :: rest) w =
  match all_neighbors_infinite K (Tetrahedron_getAdjacentTetrahedron K w t 0) w with
  | Done b w' => Done b w'
  | Raised e w' => Raised e w'
  | Fault => Fault
  | OutOfFuel => OutOfFuel
  end.
Proof.
  intros Hflat Hinf. cbn [check_tetrahedra].
  unfold isFlat, isInfinite, getAdjacentTetrahedron, read, bind, deref, query, ret.
  cbn. rewrite Hflat, Hinf. cbn.
  destruct (all_neighbors_infinite K _ w) as [[|] w' | e w' | |]; reflexivity.
Qed.

Lemma check_cons_finite (this : addr) (p : array3) (t : addr) (rest : list ptr)
    (w : World G) (triangle : addr) :
  Tetrahedron_isFlat K w t = false ->
  Tetrahedron_isInfinite K w t = false ->
  Tetrahedron_getOppositeTriangle K w t (Some this) = Some triangle ->
  check_tetrahedra K this p (Some t :: rest) w =
  match nodes (refreshed K this w t) !! this with
  | Some n =>
      if Triangle3D_trulyOnSameSide K (refreshed K this w t) triangle
           (SpaceNode.position_ n) p
      then check_tetrahedra K this p rest (refreshed K this w t)
      else match Tetrahedron_testPosition K (refreshed K this w t) t p with
           | Some e => Raised e (refreshed K this w t)
           | None => Done false (refreshed K this w t)
           end
  | None => Fault
  end.
Proof.
  intros Hflat Hinf Htri. cbn [check_tetrahedra].
  unfold refreshed. rewrite Htri.
  unfold isFlat, isInfinite, getOppositeTriangle, updatePlaneEquationIfNecessary,
    trulyOnSameSide, testPosition, read, run, bind, deref, query, command, ret, node,
    raise.
  cbn. rewrite Hflat, Hinf. cbn. rewrite Htri. cbn.
  destruct (nodes (apply_effect (Triangle3D_updatePlaneEquationIfNecessary K w triangle) w)
              !! this) as [n|]; [|reflexivity].
  cbn.
  destruct (Triangle3D_trulyOnSameSide K _ triangle (SpaceNode.position_ n) p); cbn.
  - reflexivity.
  - destruct (Tetrahedron_testPosition K _ t p); reflexivity.
Qed.

Lemma check_tetrahedra_true (this : addr) (p : array3) (ts : list ptr) (w w' : World G) :
  check_tetrahedra K this p ts w = Done true w' ->
  scan_succeeds K this p w ts w'.
Proof.
  revert w. induction ts as [| [t|] rest IH]; intros w.
  - cbn. intros [= <-].
    exists [], []. split; [reflexivity|]. split; [exact I|].
    split; [reflexivity | left; reflexivity].
  - destruct (Tetrahedron_isFlat K w t) eqn:Hflat.
    { rewrite check_cons_flat by exact Hflat. discriminate. }
    destruct (Tetrahedron_isInfinite K w t) eqn:Hinf.
    + rewrite check_cons_infinite by assumption.
      destruct (all_neighbors_infinite K _ w) as [b w1 | e w1 | |] eqn:Hall;
        try discriminate.
      intros [= -> ->].
      apply all_neighbors_infinite_true in Hall as (-> & inner & Hinner & Hall).
      exists [], (Some t :: rest). split; [reflexivity|]. split; [exact I|].
      split; [reflexivity|].
      right. exists t, rest. split; [reflexivity|].
      split; [exact Hflat|]. split; [exact Hinf|].
      exists inner. split; assumption.
    + destruct (Tetrahedron_getOppositeTriangle K w t (Some this)) as [triangle|] eqn:Htri.
      2:{ cbn [check_tetrahedra].
          unfold isFlat, isInfinite, getOppositeTriangle, updatePlaneEquationIfNecessary,
            read, run, bind, deref, query, ret.
          cbn. rewrite Hflat, Hinf. cbn. rewrite Htri. cbn. discriminate. }
      rewrite (check_cons_finite this p t rest w triangle) by assumption.
      destruct (nodes (refreshed K this w t) !! this) as [n|] eqn:Hn; [|discriminate].
      destruct (Triangle3D_trulyOnSameSide K (refreshed K this w t) triangle
                  (SpaceNode.position_ n) p) eqn:Hside.
      * intros Hrest.
        apply IH in Hrest as (passed & rest' & -> & Hpassed & -> & Hrest).
        exists (t :: passed), rest'. split; [reflexivity|].
        split; [|split; [reflexivity | exact Hrest]].
        split; [|exact Hpassed].
        split; [exact Hflat|]. split; [exact Hinf|].
        exists triangle, n. repeat split; assumption.
      * destruct (Tetrahedron_testPosition K _ t p); discriminate.
  - cbn [check_tetrahedra]. unfold isFlat, read, bind, deref. cbn. discriminate.
Qed.

Lemma scan_check_tetrahedra (this : addr) (p : array3) (ts : list ptr) (w w' : World G) :
  scan_succeeds K this p w ts w' ->
  check_tetrahedra K this p ts w = Done true w'.
Proof.
  intros (passed & rest & -> & Hpassed & -> & Hrest).
  revert w Hpassed Hrest.
  induction passed as [| t passed IH]; intros w Hpassed Hrest; cbn [map app refreshed_all].
  - cbn [refreshed_all] in Hrest.
    destruct Hrest as [-> | (t & rest' & -> & Hflat & Hinf & inner & Hinner & Hall)].
    + reflexivity.
    + rewrite check_cons_infinite by assumption.
      assert (Hrun : all_neighbors_infinite K
                       (Tetrahedron_getAdjacentTetrahedron K w t 0) w = Done true w).
      { apply all_neighbors_infinite_true. split; [reflexivity|].
        exists inner. split; assumption. }
      rewrite Hrun. reflexivity.
  - destruct Hpassed as [(Hflat & Hinf & triangle & n & Htri & Hn & Hside) Hmore].
    rewrite (check_cons_finite this p t _ w triangle) by assumption.
    rewrite Hn, Hside. apply IH; assumption.
Qed.

(** C3 (amended): [SpaceNode::moveTo] takes the first branch (the
    position is updated in place and [restoreDelaunay] is run) if and only
    if the scan of the incident tetrahedra, in list order, succeeds: every
    tetrahedron before the first infinite one is non-flat and, once the
    plane equation of its opposite triangle has been brought up to date,
    the node remains on the same side of that triangle; the first infinite
    one, if there is one, is non-flat and lies on an inner tetrahedron
    whose four neighbours are infinite; the tetrahedra after it are not
    examined.  Each tetrahedron is examined in the state that the updates
    of the plane equations before it have left, and the branch starts in
    the state after the scan.  When the check returns false the second
    branch (remove, reposition, reinsert) is taken. *)
Theorem moveTo_in_place_iff (fuel : nat) (this : addr) (p : array3)
    (w : World G) (n : SpaceNode.SpaceNode) :
  nodes w !! this = Some n ->
  (forall w1,
     checkIfTriangulationIsStillValid K this p w = Done true w1 <->
     scan_succeeds K this p w (SpaceNode.adjacent_tetrahedra_ n) w1) /\
  (forall w1,
     checkIfTriangulationIsStillValid K this p w = Done true w1 ->
     moveTo K fuel this p w = moveTo_in_place K fuel this p w1) /\
  (forall w1,
     checkIfTriangulationIsStillValid K this p w = Done false w1 ->
     moveTo K fuel this p w = moveTo_reinsert K fuel this p w1).
Proof.
  intros Hn.
  assert (Hunfold : checkIfTriangulationIsStillValid K this p w =
                    check_tetrahedra K this p (SpaceNode.adjacent_tetrahedra_ n) w).
  { unfold checkIfTriangulationIsStillValid, bind, node. rewrite Hn. reflexivity. }
  split; [|split].
  - intros w1. rewrite Hunfold. split.
    + apply check_tetrahedra_true.
    + apply scan_check_tetrahedra.
  - intros w1 Hcheck. unfold moveTo, bind. rewrite Hcheck. reflexivity.
  - intros w1 Hcheck. unfold moveTo, bind. rewrite Hcheck. reflexivity.
Qed.

End ValidityCheck.

(** The node has the finite tetrahedron 5 first in its list, then the
    infinite tetrahedron 1 and tetrahedron 3.  Tetrahedron 5 passes: the
    cached plane equation of its opposite triangle is out of date and says
    that the node changes sides, the check brings it up to date and finds
    that the node stays.  Tetrahedron 1 settles the answer, and tetrahedron
    3 is not examined. *)
Lemma moveTo_in_place_iff_witness :
  Triangulation.Triangle3D_trulyOnSameSide Examples.table_kernel Examples.convex_world
    10%positive Examples.position_a Examples.position_b = false /\
  Triangulation.scan_succeeds Examples.table_kernel 1%positive Examples.position_b
    Examples.convex_world [Some 5%positive; Some 1%positive; Some 3%positive]
    (Triangulation.refreshed_all Examples.table_kernel 1%positive
       Examples.convex_world [5%positive]) /\
  Triangulation.checkIfTriangulationIsStillValid Examples.table_kernel 1%positive
    Examples.position_b Examples.convex_world
    = Triangulation.Done true
        (Triangulation.refreshed_all Examples.table_kernel 1%positive
           Examples.convex_world [5%positive]) /\
  Triangulation.moveTo Examples.table_kernel 5 1%positive Examples.position_b
    Examples.convex_world
    = Triangulation.moveTo_in_place Examples.table_kernel 5 1%positive
        Examples.position_b
        (Triangulation.refreshed_all Examples.table_kernel 1%positive
           Examples.convex_world [5%positive]).
Proof.
  assert (Hscan :
    Triangulation.scan_succeeds Examples.table_kernel 1%positive Examples.position_b
      Examples.convex_world [Some 5%positive; Some 1%positive; Some 3%positive]
      (Triangulation.refreshed_all Examples.table_kernel 1%positive
         Examples.convex_world [5%positive])).
  { exists [5%positive], [Some 1%positive; Some 3%positive].
    split; [reflexivity|]. split; [|split; [reflexivity|]].
    - split; [|exact I]. split; [reflexivity|]. split; [reflexivity|].
      exists 10%positive, (Examples.moving_node
                             [Some 5%positive; Some 1%positive; Some 3%positive]).
      repeat split; reflexivity.
    - right. exists 1%positive, [Some 3%positive]. split; [reflexivity|].
      split; [reflexivity|]. split; [reflexivity|].
      exists 5%positive. split; [reflexivity|].
      intros number _. exists 1%positive. split; reflexivity. }
  destruct (moveTo_in_place_iff Examples.table_kernel 5 1%positive
              Examples.position_b Examples.convex_world
              (Examples.moving_node [Some 5%positive; Some 1%positive; Some 3%positive])
              eq_refl)
    as (Hiff & Hfast & _).
  split; [reflexivity|]. split; [exact Hscan|].
  assert (Hcheck := proj2 (Hiff _) Hscan).
  split; [exact Hcheck|]. apply Hfast. exact Hcheck.
Defined.

(** C3 (counterexample): the triangulation has the single finite
    tetrahedron 5; the node's list of incident tetrahedra starts with the
    infinite tetrahedron 1, so the check returns true at once and the first
    branch is taken, although tetrahedron 5 is finite and the node does not
    remain on the same side of its opposite triangle. *)
Lemma moveTo_in_place_despite_crossing :
  Triangulation.checkIfTriangulationIsStillValid Examples.table_kernel 1%positive
    Examples.position_b Examples.hull_world
    = Triangulation.Done true Examples.hull_world /\
  Triangulation.moveTo Examples.table_kernel 5 1%positive Examples.position_b
    Examples.hull_world
    = Triangulation.moveTo_in_place Examples.table_kernel 5 1%positive
        Examples.position_b Examples.hull_world /\
  ~ (forall t : addr,
       Some t ∈ [Some 1%positive; Some 5%positive] ->
       Triangulation.locally_valid Examples.table_kernel Examples.hull_world
         1%positive Examples.position_b t).
Proof.
  split; [reflexivity|]. split; [reflexivity|].
  intros Hall.
  destruct (Hall 5%positive) as [[_ (triangle & n & _ & _ & Hside)] | [Hinf _]].
  - apply list_elem_of_In. right. left. reflexivity.
  - discriminate Hside.
  - discriminate Hinf.
Qed.

(** ** The checking index during a restoration pass *)

Section RestorationPass.
Import Triangulation.
Context {G : Type} (K : Kernel G).
Local Open Scope Z_scope.

Lemma same_index_trans (a b c : World G) :
  same_index a b -> same_index b c -> same_index a c.
Proof. unfold same_index. congruence. Qed.

Lemma keeps_index_process_active (fuel : nat) (c : Z) (work : Work) :
  keeps_index (process_active K fuel c work).
Proof.
  apply sat_process_active;
    try solve [reflexivity | intros; eapply same_index_trans; eassumption].
Qed.

Lemma keeps_index_collect_flat (flat messed : list ptr) :
  keeps_index (collect_flat K flat messed).
Proof.
  apply sat_collect_flat;
    try solve [reflexivity | intros; eapply same_index_trans; eassumption].
Qed.

Lemma keeps_index_collect_problems (problem messed : list ptr) :
  keeps_index (collect_problems K problem messed).
Proof.
  apply sat_collect_problems;
    try solve [reflexivity | intros; eapply same_index_trans; eassumption].
Qed.

Lemma keeps_index_cleanUp (fuel : nat) (messed : list ptr) :
  keeps_index (cleanUp K fuel messed).
Proof.
  apply sat_cleanUp;
    try solve [reflexivity | intros; eapply same_index_trans; eassumption].
Qed.

Lemma keeps_index_update (this : addr) (ts : list ptr) :
  keeps_index
    (for_each ts (fun tetrahedron => updateCirumSphereAfterNodeMovement K tetrahedron this)).
Proof.
  apply sat_for_each;
    try solve [reflexivity | intros; eapply same_index_trans; eassumption].
  intros t. apply sat_run;
    try solve [reflexivity | intros; eapply same_index_trans; eassumption].
Qed.

(** The inner loop ends with no active tetrahedron left. *)
Lemma process_active_empties (fuel : nat) (c : Z) (work work' : Work) (w w' : World G) :
  process_active K fuel c work w = Done work' w' ->
  active_tetrahedra work' = [].
Proof.
  revert work w. induction fuel as [| fuel IH]; intros work w; cbn [process_active];
    destruct (active_tetrahedra work) as [| t rest] eqn:Hactive;
    try (intros [= <- <-]; exact Hactive); try discriminate.
  intros Hrun. apply bind_done in Hrun as ([] & w1 & _ & Hrun).
  - apply bind_done in Hrun as (_ & w2 & _ & Hrun).
    apply bind_done in Hrun as (tris & w3 & _ & Hrun).
    apply bind_done in Hrun as (ns & w4 & _ & Hrun).
    apply bind_done in Hrun as (inf & w5 & _ & Hrun).
    apply bind_done in Hrun as (work2 & w6 & _ & Hrun).
    eapply IH, Hrun.
  - eapply IH, Hrun.
Qed.

(** The loop [while (!active_tetrahedra.empty())] of [restoreDelaunay]
    allocates one checking index when there is an active tetrahedron and
    none otherwise. *)
Lemma restore_loop_checking_index (fuel : nat) (active : list ptr) (w w' : World G) :
  restore_loop K fuel active w = Done tt w' ->
  checking_index_ w' =
    match active with
    | [] => checking_index_ w
    | _ :: _ => fst (createNewCheckingIndex (checking_index_ w))
    end.
Proof.
  destruct active as [| t rest].
  { destruct fuel; intros [= <-]; reflexivity. }
  destruct fuel as [| fuel]; [discriminate|]. cbn [restore_loop].
  intros Hrun. apply bind_done in Hrun as (c & w1 & Hc & Hrun).
  apply bind_done in Hrun as (work & w2 & Hwork & Hrun).
  apply bind_done in Hrun as (m1 & w3 & Hflat & Hrun).
  apply bind_done in Hrun as (m2 & w4 & Hproblems & Hrun).
  apply bind_done in Hrun as ([] & w5 & Hclean & Hrun).
  rewrite (process_active_empties _ _ _ _ _ _ Hwork) in Hrun.
  assert (w' = w5) as -> by (destruct fuel; injection Hrun as <-; reflexivity).
  apply (sat_done _ _ _ _ _ _ (keeps_index_process_active _ _ _)) in Hwork.
  apply (sat_done _ _ _ _ _ _ (keeps_index_collect_flat _ _)) in Hflat.
  apply (sat_done _ _ _ _ _ _ (keeps_index_collect_problems _ _)) in Hproblems.
  assert (Hlast : same_index w4 w5).
  { destruct m2.
    - injection Hclean as <-. reflexivity.
    - apply (sat_done _ _ _ _ _ _ (keeps_index_cleanUp _ _)) in Hclean. exact Hclean. }
  unfold same_index in *. rewrite Hlast, Hproblems, Hflat, Hwork.
  unfold createNewCheckingIndex_call in Hc.
  destruct (createNewCheckingIndex (checking_index_ w)) as [c' r].
  injection Hc as <- <-. reflexivity.
Qed.

(** C7 (amended): a call of [restoreDelaunay] that returns allocates one
    checking index when the node has incident tetrahedra and none
    otherwise; the allocation stores the previous value plus one reduced
    modulo 2000000000, so the index stays in [0, 2000000000), and it is
    lower after the call than before exactly when the call allocates
    while the index is 1999999999, in which case it becomes 0. *)
Theorem restoreDelaunay_checking_index (fuel : nat) (this : addr) (w w' : World G) :
  0 <= checking_index_ w < 2000000000 ->
  restoreDelaunay K fuel this w = Done tt w' ->
  exists n : SpaceNode.SpaceNode,
    nodes w !! this = Some n /\
    checking_index_ w' =
      match SpaceNode.adjacent_tetrahedra_ n with
      | [] => checking_index_ w
      | _ :: _ => (checking_index_ w + 1) mod 2000000000
      end /\
    0 <= checking_index_ w' < 2000000000 /\
    (checking_index_ w' < checking_index_ w <->
     SpaceNode.adjacent_tetrahedra_ n <> [] /\ checking_index_ w = 1999999999) /\
    (checking_index_ w' < checking_index_ w -> checking_index_ w' = 0).
Proof.
  intros Hrange Hrun. unfold restoreDelaunay in Hrun.
  apply bind_done in Hrun as (n & w1 & Hn & Hrun).
  apply node_done in Hn as [-> Hn].
  apply bind_done in Hrun as ([] & w2 & Hupdate & Hrun).
  apply (sat_done _ _ _ _ _ _ (keeps_index_update _ _)) in Hupdate.
  apply restore_loop_checking_index in Hrun.
  unfold same_index in Hupdate. rewrite Hupdate in Hrun.
  exists n. split; [exact Hn|].
  pose proof (Z.mod_pos_bound (checking_index_ w + 1) 2000000000 ltac:(lia)) as Hm.
  destruct (SpaceNode.adjacent_tetrahedra_ n) as [| t rest].
  - rewrite Hrun. repeat split; try lia. intros [Hne _]. congruence.
  - rewrite createNewCheckingIndex_in_range in Hrun by exact Hrange.
    cbn [fst] in Hrun. rewrite Hrun. split; [reflexivity|]. split; [exact Hm|].
    destruct (Z.eq_dec (checking_index_ w) 1999999999) as [Heq | Hne].
    + rewrite Heq. cbn. repeat split; try lia; discriminate.
    + rewrite Z.mod_small by lia. repeat split; try lia.
Qed.

End RestorationPass.

Lemma restoreDelaunay_checking_index_witness :
  match Triangulation.restoreDelaunay Examples.table_kernel 5 1%positive
          Examples.hull_world with
  | Triangulation.Done _ w' =>
      Triangulation.checking_index_ Examples.hull_world = 0 /\
      Triangulation.checking_index_ w' = 1
  | _ => False
  end.
Proof.
  destruct (Triangulation.restoreDelaunay Examples.table_kernel 5 1%positive
              Examples.hull_world) as [[] w' | | |] eqn:Hrun;
    try (vm_compute in Hrun; discriminate).
  assert (Hrange : 0 <= Triangulation.checking_index_ Examples.hull_world < 2000000000)
    by (vm_compute; split; [discriminate | reflexivity]).
  destruct (restoreDelaunay_checking_index Examples.table_kernel 5 1%positive
              Examples.hull_world w' Hrange Hrun) as (n & Hn & Hindex & _).
  vm_compute in Hn. injection Hn as <-.
  split; [reflexivity | exact Hindex].
Defined.

(** C7 (counterexample): a restoration pass that starts with the checking
    index 1999999999, the value reached after 1999999999 allocations,
    returns with the index 0. *)
Lemma restoreDelaunay_lowers_checking_index :
  Triangulation.checking_index_ Examples.last_index_world
    = checking_index_after 1999999999 /\
  match Triangulation.restoreDelaunay Examples.table_kernel 5 1%positive
          Examples.last_index_world with
  | Triangulation.Done _ w' =>
      Triangulation.checking_index_ w' = 0 /\
      Triangulation.checking_index_ w'
        < Triangulation.checking_index_ Examples.last_index_world
  | _ => False
  end.
Proof.
  split.
  - rewrite checking_index_after_mod. reflexivity.
  - vm_compute. split; reflexivity.
Qed.

(* ===================================================================== *)
(** * The cross-section area of an edge *)
(* ===================================================================== *)

Section VectorRemove.
Context {A : Type} `{EqDecision A}.

Lemma vectorRemove_subseteq (v : list A) (x y : A) :
  y ∈ vectorRemove v x -> y ∈ v.
Proof.
  induction v as [|z v IH]; cbn; [easy|].
  destruct (decide (z = x)); rewrite ?elem_of_cons; intuition.
Qed.

Lemma vectorRemove_other (v : list A) (x y : A) :
  y <> x -> y ∈ v -> y ∈ vectorRemove v x.
Proof.
  intros Hne. induction v as [|z v IH]; cbn; [easy|].
  destruct (decide (z = x)) as [->|]; rewrite ?elem_of_cons; intuition.
Qed.

Lemma vectorRemove_NoDup (v : list A) (x : A) :
  NoDup v -> NoDup (vectorRemove v x).
Proof.
  induction v as [|z v IH]; cbn; [easy|].
  rewrite NoDup_cons. intros [Hz Hv].
  destruct (decide (z = x)); [assumption|].
  apply NoDup_cons. split; [|auto].
  intros Hin. apply Hz. eapply vectorRemove_subseteq, Hin.
Qed.

Lemma vectorRemove_gone (v : list A) (x : A) :
  NoDup v -> x ∉ vectorRemove v x.
Proof.
  induction v as [|z v IH]; cbn; [intros _; apply not_elem_of_nil|].
  rewrite NoDup_cons. intros [Hz Hv].
  destruct (decide (z = x)) as [->|Hne]; [assumption|].
  apply not_elem_of_cons. split; [congruence|auto].
Qed.

End VectorRemove.

Section CrossSectionFacts.
Import CrossSection.
Local Open Scope Q_scope.

Implicit Types (sh : gmap addr double) (l : list ptr) (t : addr) (s : Accounting double).

Lemma exact_total_ext sh sh' l :
  (forall x, x ∈ l -> share sh x = share sh' x) -> exact_total sh l = exact_total sh' l.
Proof.
  induction l as [|x l IH]; cbn; [reflexivity|]; intros Hext.
  rewrite (Hext x), IH; [reflexivity| |]; intros; try apply Hext; set_solver.
Qed.

Lemma exact_total_snoc sh l (x : ptr) :
  exact_total sh (l ++ [x]) == exact_total sh l + number (share sh x).
Proof.
  induction l as [|y l IH]; cbn.
  - lra.
  - rewrite IH. lra.
Qed.

(** The sum splits into the contribution of one incident tetrahedron and
    the sum over the others. *)
Lemma exact_total_split sh l (x : ptr) :
  x ∈ l -> exact_total sh l == number (share sh x) + exact_total sh (vectorRemove l x).
Proof.
  induction l as [|y l IH]; cbn; [intros Hin; inversion Hin|].
  rewrite elem_of_cons. intros Hin.
  destruct (decide (y = x)) as [->|Hne]; [reflexivity|].
  destruct Hin as [->|Hin]; [congruence|]. cbn.
  rewrite (IH Hin). lra.
Qed.

Lemma share_insert_ne sh t (c : double) (x : ptr) :
  x <> Some t -> share (<[t := c]> sh) x = share sh x.
Proof.
  destruct x as [l|]; cbn; [|reflexivity]. intros Hne.
  rewrite lookup_insert_ne; [reflexivity | congruence].
Qed.

Lemma share_delete_ne sh t (x : ptr) :
  x <> Some t -> share (delete t sh) x = share sh x.
Proof.
  destruct x as [l|]; cbn; [|reflexivity]. intros Hne.
  rewrite lookup_delete_ne; [reflexivity | congruence].
Qed.

Lemma share_insert sh t (c : double) : share (<[t := c]> sh) (Some t) = c.
Proof. cbn. rewrite lookup_insert_eq. reflexivity. Qed.

Lemma exact_total_insert_fresh sh l t (c : double) :
  Some t ∉ l -> exact_total (<[t := c]> sh) l = exact_total sh l.
Proof.
  intros Hnot. apply exact_total_ext. intros x Hin. apply share_insert_ne.
  intros ->. contradiction.
Qed.

Lemma exact_total_delete_fresh sh l t :
  Some t ∉ l -> exact_total (delete t sh) l = exact_total sh l.
Proof.
  intros Hnot. apply exact_total_ext. intros x Hin. apply share_delete_ne.
  intros ->. contradiction.
Qed.

Lemma number_value (x : double) (q : Q) : Double.value x = Some q -> number x = q.
Proof. unfold number. intros ->. reflexivity. Qed.

Lemma exactly_accounted_area edge s :
  exactly_accounted edge s -> area_is_exact_total edge s.
Proof. intros (e & q & He & Hq & Harea & _). exists e, q. repeat split; assumption. Qed.

Lemma edges_initializationHelper (this : addr) (h : Edge.Heap double) :
  Edge.edges (Edge.initializationHelper this h) = Edge.edges h.
Proof. unfold Edge.initializationHelper. destruct (_ !! _); reflexivity. Qed.

Lemma edges_remove (this : addr) (h : Edge.Heap double) :
  Edge.edges (Edge.remove this h) = Edge.edges h.
Proof. unfold Edge.remove. destruct (_ !! _); reflexivity. Qed.

Lemma exactly_accounted_initial h edge a b : exactly_accounted edge (initial h edge a b).
Proof.
  exists (Edge.new a b), 0. unfold initial, Edge.create; cbn.
  rewrite edges_initializationHelper; cbn. rewrite lookup_insert_eq.
  split; [reflexivity|]. split; [reflexivity|]. split; [reflexivity|].
  split; [constructor|]. split.
  - intros Hin. inversion Hin.
  - intros (t & _ & Hsome). rewrite lookup_empty in Hsome.
    destruct Hsome; discriminate.
Qed.

Lemma exactly_accounted_changeCrossSection edge t (c : double) s :
  is_Some (shares s !! t) -> exact_change edge t c s -> exactly_accounted edge s ->
  exactly_accounted edge (changeCrossSection edge t c s).
Proof.
  intros Hsome (e0 & He0 & Hdiff & Hsum) (e & q & He & Hq & Harea & Hnd & Hdom).
  rewrite He in He0. injection He0 as <-.
  destruct Hdiff as (qc & qold & qd & Hqc & Hqold & Hqd & Hd).
  destruct Hsum as (qa & qd' & qz & Hqa & Hqd' & Hqz & Hz).
  rewrite Hq in Hqa. injection Hqa as <-.
  rewrite Hqd in Hqd'. injection Hqd' as <-.
  assert (Hin : Some t ∈ Edge.adjacent_tetrahedra_ e) by (apply Hdom; eauto).
  exists (Edge.changeCrossSectionArea (s_sub c (share (shares s) (Some t))) e), qz.
  unfold changeCrossSection; cbn [heap shares Edge.at_edge Edge.edges].
  rewrite lookup_alter_eq, He. split; [reflexivity|].
  cbn [Edge.changeCrossSectionArea Edge.cross_section_area_ Edge.adjacent_tetrahedra_].
  split; [exact Hqz|]. split; [|split; [assumption|split]].
  - rewrite (exact_total_split _ _ _ Hin) in Harea.
    rewrite (exact_total_split (<[t:=c]> (shares s)) _ _ Hin), share_insert.
    rewrite (exact_total_insert_fresh _ _ _ c (vectorRemove_gone _ _ Hnd)).
    rewrite (number_value _ _ Hqold) in Harea. rewrite (number_value _ _ Hqc).
    lra.
  - intros Hx. apply Hdom in Hx as (t' & -> & Ht'). exists t'. split; [reflexivity|].
    rewrite lookup_insert. destruct (decide (t = t')); eauto.
  - intros (t' & -> & Ht'). apply Hdom. exists t'. split; [reflexivity|].
    rewrite lookup_insert in Ht'. destruct (decide (t = t')); subst; eauto.
Qed.

Lemma exactly_accounted_register edge t s :
  shares s !! t = None -> exactly_accounted edge s ->
  exactly_accounted edge (register_tetrahedron edge t s).
Proof.
  intros Hfresh (e & q & He & Hq & Harea & Hnd & Hdom).
  assert (Hnot : Some t ∉ Edge.adjacent_tetrahedra_ e).
  { intros Hin. apply Hdom in Hin as (t' & [= <-] & Hsome).
    rewrite Hfresh in Hsome. destruct Hsome; discriminate. }
  exists (Edge.addTetrahedron (Some t) e), q.
  unfold register_tetrahedron. cbn [heap shares Edge.at_edge Edge.edges].
  rewrite lookup_alter_eq, He. split; [reflexivity|].
  cbn [Edge.addTetrahedron Edge.cross_section_area_ Edge.adjacent_tetrahedra_].
  split; [exact Hq|]. split; [|split; [|split]].
  - rewrite exact_total_snoc, share_insert, exact_total_insert_fresh by assumption.
    change (number s_zero) with 0. lra.
  - apply NoDup_app. repeat split; [assumption | | apply NoDup_singleton].
    intros x Hx Hx'. apply list_elem_of_singleton in Hx' as ->. contradiction.
  - rewrite elem_of_app, list_elem_of_singleton. intros [Hx| ->].
    + apply Hdom in Hx as (t' & -> & Ht'). exists t'. split; [reflexivity|].
      rewrite lookup_insert. destruct (decide (t = t')); eauto.
    + exists t. rewrite lookup_insert_eq. eauto.
  - intros (t' & -> & Ht'). rewrite elem_of_app, list_elem_of_singleton.
    rewrite lookup_insert in Ht'. destruct (decide (t = t')) as [->|Hne]; [now right|].
    left. apply Hdom. eauto.
Qed.

Lemma exactly_accounted_create_tetrahedron edge t (c : double) s :
  shares s !! t = None ->
  exact_change edge t c (register_tetrahedron edge t s) ->
  exactly_accounted edge s ->
  exactly_accounted edge (create_tetrahedron edge t c s).
Proof.
  intros Hfresh Hexact Hacc. unfold create_tetrahedron.
  apply exactly_accounted_changeCrossSection.
  - unfold register_tetrahedron; cbn [shares]. rewrite lookup_insert_eq. eauto.
  - exact Hexact.
  - apply exactly_accounted_register; assumption.
Qed.

Lemma exactly_accounted_remove_tetrahedron edge t s :
  is_Some (shares s !! t) -> exact_change edge t Double.zero s ->
  exactly_accounted edge s ->
  exactly_accounted edge (remove_tetrahedron edge t s).
Proof.
  intros Hsome Hexact Hacc.
  pose proof (exactly_accounted_changeCrossSection edge t Double.zero s Hsome Hexact Hacc)
    as Hcleared.
  unfold remove_tetrahedron.
  change (@s_zero double double_Scalar) with Double.zero.
  set (cleared := changeCrossSection edge t Double.zero s) in *.
  destruct Hcleared as (e & q & He & Hq & Harea & Hnd & Hdom).
  assert (Hin : Some t ∈ Edge.adjacent_tetrahedra_ e).
  { apply Hdom. exists t. split; [reflexivity|]. unfold cleared; cbn.
    rewrite lookup_insert_eq. eauto. }
  assert (Hzero : share (shares cleared) (Some t) = Double.zero).
  { unfold cleared, changeCrossSection; cbn [shares]. apply share_insert. }
  exists (Edge.mkEdge (Edge.a_ e) (Edge.b_ e) (Edge.cross_section_area_ e)
            (vectorRemove (Edge.adjacent_tetrahedra_ e) (Some t))), q.
  cbn [heap shares]. split.
  { unfold Edge.removeTetrahedron. rewrite He.
    destruct (vectorRemove _ _); rewrite ?edges_remove; cbn;
      apply lookup_insert_eq. }
  cbn [Edge.cross_section_area_ Edge.adjacent_tetrahedra_].
  pose proof (vectorRemove_gone _ (Some t) Hnd) as Hgone.
  split; [exact Hq|]. split; [|split; [|split]].
  - rewrite (exact_total_split _ _ _ Hin), Hzero in Harea.
    rewrite (exact_total_delete_fresh _ _ _ Hgone).
    change (number Double.zero) with 0 in Harea. lra.
  - apply vectorRemove_NoDup, Hnd.
  - intros Hx. pose proof (vectorRemove_subseteq _ _ _ Hx) as Hx'.
    apply Hdom in Hx' as (t' & -> & Ht'). exists t'. split; [reflexivity|].
    rewrite lookup_delete_ne; [assumption|]. intros ->. contradiction.
  - intros (t' & -> & Ht'). rewrite lookup_delete in Ht'.
    destruct (decide (t = t')) as [->|Hne]; [destruct Ht'; discriminate|].
    apply vectorRemove_other; [congruence|]. apply Hdom. eauto.
Qed.

Lemma exactly_accounted_step edge s s' :
  exact_step edge s s' -> exactly_accounted edge s -> exactly_accounted edge s'.
Proof.
  destruct 1; auto using exactly_accounted_create_tetrahedron,
    exactly_accounted_changeCrossSection, exactly_accounted_remove_tetrahedron.
Qed.

(** The steps with exact operations are steps. *)
Lemma exactly_reachable_reachable (h : Edge.Heap double) (edge : addr) (a b : ptr) s :
  exactly_reachable h edge a b s -> reachable h edge a b s.
Proof.
  induction 1 as [| s s' _ IH Hstep]; [constructor|].
  eapply reachable_step; [exact IH|].
  destruct Hstep; constructor; assumption.
Qed.

(** C6 (amended): as long as none of the additions and subtractions by
    which the tetrahedra report their contributions to an edge is rounded,
    the cross-section area of the edge, a [double], stands for the sum of
    the contributions of its incident tetrahedra after every creation,
    change of a contribution and removal of a tetrahedron on that edge. *)
Theorem cross_section_area_is_total (h : Edge.Heap double) (edge : addr) (a b : ptr) s :
  exactly_reachable h edge a b s -> area_is_exact_total edge s.
Proof.
  intros Hreach. apply exactly_accounted_area.
  induction Hreach; eauto using exactly_accounted_initial, exactly_accounted_step.
Qed.

End CrossSectionFacts.

Ltac exact_operation :=
  eexists _, _, _;
  split; [vm_compute; reflexivity|]; split; [vm_compute; reflexivity|];
  split; [vm_compute; reflexivity|]; vm_compute; reflexivity.

Ltac exact_update :=
  eexists; split; [vm_compute; reflexivity|]; split; exact_operation.

Lemma settled_reachable :
  CrossSection.exactly_reachable Examples.empty_heap 1%positive None None Examples.settled.
Proof.
  unfold Examples.settled.
  eapply CrossSection.exactly_reachable_step;
    [|apply CrossSection.exact_step_remove; [vm_compute; eauto | exact_update]].
  eapply CrossSection.exactly_reachable_step;
    [|apply CrossSection.exact_step_create; [reflexivity | exact_update]].
  eapply CrossSection.exactly_reachable_step;
    [|apply CrossSection.exact_step_create; [reflexivity | exact_update]].
  apply CrossSection.exactly_reachable_initial.
Defined.

(** The tetrahedra 1 and 2 are created with the contributions 1 and 2 and
    tetrahedron 1 is removed: the area is 2.0, the contribution of
    tetrahedron 2. *)
Lemma cross_section_area_is_total_witness :
  CrossSection.exactly_reachable Examples.empty_heap 1%positive None None
    Examples.settled /\
  CrossSection.area_is_exact_total 1%positive Examples.settled /\
  exists e : Edge.Edge double,
    Edge.edges (CrossSection.heap Examples.settled) !! 1%positive = Some e /\
    Edge.adjacent_tetrahedra_ e = [Some 2%positive] /\
    Edge.cross_section_area_ e = Double.two.
Proof.
  split; [apply settled_reachable|]. split.
  - apply (cross_section_area_is_total Examples.empty_heap 1%positive None None).
    apply settled_reachable.
  - eexists. split; [vm_compute; reflexivity|]. split; vm_compute; reflexivity.
Defined.

(** C6 (counterexample): with double-precision areas, an edge on which a
    tetrahedron with the contribution 2^53 and one with the contribution 1
    are created and the first one is removed again ends with the area 0,
    while its only incident tetrahedron contributes 1. *)
Lemma cross_section_area_drifts :
  CrossSection.reachable Examples.empty_heap 1%positive None None Examples.drifted /\
  exists e : Edge.Edge double,
    Edge.edges (CrossSection.heap Examples.drifted) !! 1%positive = Some e /\
    Edge.adjacent_tetrahedra_ e = [Some 2%positive] /\
    Edge.cross_section_area_ e = Double.zero /\
    CrossSection.total (CrossSection.shares Examples.drifted)
      (Edge.adjacent_tetrahedra_ e) = Double.one /\
    ~ CrossSection.area_is_total 1%positive Examples.drifted.
Proof.
  split.
  { unfold Examples.drifted.
    eapply CrossSection.reachable_step;
      [|apply CrossSection.step_remove; vm_compute; eauto].
    eapply CrossSection.reachable_step;
      [|apply CrossSection.step_create; reflexivity].
    eapply CrossSection.reachable_step;
      [|apply CrossSection.step_create; reflexivity].
    apply CrossSection.reachable_initial. }
  eexists. split; [vm_compute; reflexivity|].
  repeat split; try (vm_compute; reflexivity).
  intros (e & He & Harea). vm_compute in He. injection He as <-.
  vm_compute in Harea. discriminate.
Qed.

(* ===================================================================== *)
(** * Further properties of the code *)
(* ===================================================================== *)

(** ** rational.cc : arithmetic on the stored double *)

Section RoundingFacts.
Local Open Scope Z_scope.
Import Rational.


Lemma shr_fexp_canonical (m : positive) (e : Z) :
  canonical_mantissa Double.prec Double.emax m e = true ->
  shr_fexp Double.prec Double.emax (Zpos m) e loc_Exact =
    (Build_shr_record (Zpos m) false false, e).
Proof.
  unfold canonical_mantissa. intros Hc. apply Z.eqb_eq in Hc.
  unfold shr_fexp. cbn [Zdigits2 shr_record_of_loc].
  rewrite Hc, Z.sub_diag. reflexivity.
Qed.

Lemma round_canonical (s : bool) (m : positive) (e : Z) :
  bounded Double.prec Double.emax m e = true ->
  binary_round_aux Double.prec Double.emax s (Zpos m) e loc_Exact = S754_finite s m e.
Proof.
  intros Hb. apply andb_true_iff in Hb as [Hc He].
  unfold binary_round_aux. rewrite (shr_fexp_canonical m e Hc).
  cbn [shr_m loc_of_shr_record round_nearest_even].
  rewrite (shr_fexp_canonical m e Hc). cbn [shr_m]. rewrite He. reflexivity.
Qed.

Lemma minus_one_eq : Double.minus_one = S754_finite true 4503599627370496 (-52).
Proof. reflexivity. Qed.

Lemma mul_minus_one (s : bool) (m : positive) (e : Z) :
  bounded Double.prec Double.emax m e = true ->
  Double.mul (S754_finite s m e) Double.minus_one = S754_finite (negb s) m e.
Proof.
  intros Hb. apply andb_true_iff in Hb as [Hc He]. pose proof Hc as Hc'.
  unfold canonical_mantissa in Hc. apply Z.eqb_eq in Hc.
  rewrite minus_one_eq. unfold Double.mul. cbn [SFmul].
  rewrite Pos.mul_comm. cbv [Pos.mul].
  unfold binary_round_aux. unfold shr_fexp at 1.
  cbn [Zdigits2 digits2_pos shr_record_of_loc].
  rewrite !Pos2Z.inj_succ.
  replace (fexp Double.prec Double.emax _ - (e + -52)) with 52.
  2:{ transitivity (fexp Double.prec Double.emax (Zpos (digits2_pos m) + e) - (e + -52)).
      - rewrite Hc. lia.
      - f_equal. f_equal. lia. }
  cbv [shr SpecFloat.iter_pos shr_1 orb].
  cbn [shr_m loc_of_shr_record round_nearest_even].
  replace (e + -52 + 52) with e by lia.
  rewrite (shr_fexp_canonical m e Hc'). cbn [shr_m]. rewrite He.
  rewrite xorb_true_r. reflexivity.
Qed.

Lemma negate_opp (r : Rational) :
  Double.is_double (value_ r) -> value_ (negate r) = Double.opp (value_ r).
Proof.
  destruct r as [[s | s | | s m e]]; unfold Double.is_double, negate;
    cbn [value_ valid_binary]; intros Hv.
  - destruct s; reflexivity.
  - destruct s; reflexivity.
  - reflexivity.
  - apply mul_minus_one, Hv.
Qed.

(** X2: [Rational::negate] flips the sign of a well-formed scalar exactly
    (also of a zero and of an infinity): [isZero] gives the same answer
    for the negated scalar, and negating twice gives the scalar back. *)
Theorem negate_involutive (r : Rational) :
  Double.is_double (value_ r) ->
  value_ (negate r) = Double.opp (value_ r) /\
  Double.is_double (value_ (negate r)) /\
  isZero (negate r) = isZero r /\
  negate (negate r) = r.
Proof.
  intros Hv. pose proof (negate_opp r Hv) as Hn.
  assert (Hv' : Double.is_double (value_ (negate r))).
  { rewrite Hn. destruct r as [[| | |]]; exact Hv. }
  split; [exact Hn|]. split; [exact Hv'|]. split.
  { unfold isZero. rewrite Hn. destruct r as [[| | |]]; reflexivity. }
  pose proof (negate_opp (negate r) Hv') as Hnn. rewrite Hn in Hnn.
  destruct r as [x]. cbn [value_] in *.
  destruct (negate (negate (create x))) as [y] eqn:Hy. cbn [value_] in Hnn.
  rewrite Hnn. f_equal. destruct x; cbn; rewrite ?negb_involutive; reflexivity.
Qed.

Lemma double_add_comm (x y : double) : Double.add x y = Double.add y x.
Proof.
  unfold Double.add.
  destruct x as [sx | sx | | sx mx ex], y as [sy | sy | | sy my ey];
    try reflexivity; try (destruct sx, sy; reflexivity).
  cbn [SFadd]. rewrite (Z.min_comm ey ex). cbv zeta. f_equal. apply Z.add_comm.
Qed.

(** X3: [Rational::compareTo] and [Rational::equalTo] are symmetric:
    [a.compareTo(b)] and [b.compareTo(a)] are the same number, because
    [subtract] adds. *)
Theorem compareTo_symmetric (a b : Rational) :
  compareTo a b = compareTo b a /\ equalTo a b = equalTo b a.
Proof.
  assert (H : compareTo a b = compareTo b a).
  { unfold compareTo, subtract. cbn [value_]. rewrite double_add_comm. reflexivity. }
  split; [exact H|]. unfold equalTo. rewrite H. reflexivity.
Qed.

Lemma shl_align_same (m : positive) (e : Z) : shl_align m e e = (m, e).
Proof. unfold shl_align. rewrite Z.sub_diag. reflexivity. Qed.

Lemma fexp_succ (d e : Z) :
  fexp Double.prec Double.emax (d + e) = e ->
  (d = 53 /\ fexp Double.prec Double.emax (d + 1 + e) = e + 1) \/
  (d < 53 /\ fexp Double.prec Double.emax (d + 1 + e) = e).
Proof. unfold fexp, emin, Double.prec, Double.emax. lia. Qed.

(** Rounding twice the mantissa of a well-formed double: a normal number
    gets the next exponent (or overflows), a subnormal one is doubled. *)
Lemma round_double (s : bool) (m : positive) (e : Z) :
  bounded Double.prec Double.emax m e = true ->
  binary_round Double.prec Double.emax s m~0 e =
    if Zpos (digits2_pos m) =? 53 then
      if e + 1 <=? Double.emax - Double.prec then S754_finite s m (e + 1)
      else S754_infinity s
    else S754_finite s m~0 e.
Proof.
  intros Hb. apply andb_true_iff in Hb as [Hc He]. pose proof Hc as Hc'.
  unfold canonical_mantissa in Hc. apply Z.eqb_eq in Hc.
  unfold binary_round. cbn [digits2_pos]. rewrite Pos2Z.inj_succ.
  replace (Z.succ (Zpos (digits2_pos m)) + e) with (Zpos (digits2_pos m) + 1 + e) by lia.
  destruct (fexp_succ _ _ Hc) as [[Hd Hf] | [Hd Hf]].
  - (* a normal number *)
    rewrite Hd at 2. rewrite Z.eqb_refl.
    unfold shl_align. rewrite Hf. replace (e + 1 - e) with 1 by lia.
    unfold binary_round_aux. unfold shr_fexp at 1.
    cbn [Zdigits2 digits2_pos shr_record_of_loc]. rewrite Pos2Z.inj_succ.
    replace (Z.succ (Zpos (digits2_pos m)) + e) with (Zpos (digits2_pos m) + 1 + e) by lia.
    rewrite Hf. replace (e + 1 - e) with 1 by lia.
    cbv [shr SpecFloat.iter_pos shr_1 orb].
    cbn [shr_m loc_of_shr_record round_nearest_even].
    assert (Hc1 : canonical_mantissa Double.prec Double.emax m (e + 1) = true).
    { unfold canonical_mantissa. apply Z.eqb_eq.
      replace (Zpos (digits2_pos m) + (e + 1)) with (Zpos (digits2_pos m) + 1 + e) by lia.
      exact Hf. }
    rewrite (shr_fexp_canonical m (e + 1) Hc1). cbn [shr_m]. reflexivity.
  - (* a subnormal number *)
    replace (Zpos (digits2_pos m) =? 53) with false by (symmetry; apply Z.eqb_neq; lia).
    unfold shl_align. rewrite Hf, Z.sub_diag.
    apply round_canonical. unfold bounded. rewrite He, andb_true_r.
    unfold canonical_mantissa. apply Z.eqb_eq. cbn [digits2_pos].
    rewrite Pos2Z.inj_succ.
    replace (Z.succ (Zpos (digits2_pos m)) + e) with (Zpos (digits2_pos m) + 1 + e) by lia.
    exact Hf.
Qed.

(** The sum of a finite double with itself. *)
Lemma double_add_self (s : bool) (m : positive) (e : Z) :
  bounded Double.prec Double.emax m e = true ->
  Double.add (S754_finite s m e) (S754_finite s m e) = S754_finite s m (e + 1) \/
  Double.add (S754_finite s m e) (S754_finite s m e) = S754_infinity s \/
  Double.add (S754_finite s m e) (S754_finite s m e) = S754_finite s m~0 e.
Proof.
  intros Hb.
  assert (Hsum : Double.add (S754_finite s m e) (S754_finite s m e)
                 = binary_round Double.prec Double.emax s m~0 e).
  { unfold Double.add. cbn [SFadd]. rewrite Z.min_id. cbv zeta.
    rewrite shl_align_same. cbn [fst].
    replace (cond_Zopp s (Zpos m) + cond_Zopp s (Zpos m)) with (cond_Zopp s (Zpos m~0))
      by (destruct s; cbn [cond_Zopp]; lia).
    destruct s; reflexivity. }
  rewrite Hsum, (round_double s m e Hb).
  destruct (Zpos (digits2_pos m) =? 53); [|auto].
  destruct (e + 1 <=? Double.emax - Double.prec); auto.
Qed.

Lemma sgn_finite (s : bool) (m : positive) (e : Z) :
  sgn (S754_finite s m e) = if s then -1 else 1.
Proof. destruct s; reflexivity. Qed.

Lemma sgn_infinity (s : bool) : sgn (S754_infinity s) = if s then -1 else 1.
Proof. destruct s; reflexivity. Qed.

(** A finite scalar that is not a zero, compared with itself and with
    its negation, as values. *)
Lemma equalTo_finite (a : Rational) (s : bool) (m : positive) (e : Z) :
  Double.is_double (value_ a) ->
  value_ a = S754_finite s m e ->
  compareTo a a = (if s then -1 else 1) /\
  equalTo a a = false /\
  equalTo a (negate a) = true.
Proof.
  intros Hv Ha.
  assert (Hb : bounded Double.prec Double.emax m e = true).
  { unfold Double.is_double in Hv. rewrite Ha in Hv. exact Hv. }
  assert (Hc : compareTo a a = (if s then -1 else 1)).
  { unfold compareTo, subtract. cbn [value_]. rewrite Ha.
    destruct (double_add_self s m e Hb) as [H | [H | H]]; rewrite H;
      first [apply sgn_finite | apply sgn_infinity]. }
  split; [exact Hc|]. split.
  - unfold equalTo. rewrite Hc. destruct s; reflexivity.
  - unfold equalTo, compareTo, subtract. cbn [value_].
    rewrite (negate_opp a Hv), Ha. cbn [Double.opp SFopp].
    unfold Double.add. cbn [SFadd]. rewrite Z.min_id. cbv zeta.
    rewrite shl_align_same. cbn [fst].
    replace (cond_Zopp s (Zpos m) + cond_Zopp (negb s) (Zpos m)) with 0
      by (destruct s; cbn [cond_Zopp negb]; lia).
    reflexivity.
Qed.

(** X4: a finite scalar that is not a zero does not equal itself:
    [p->compareTo(p)] is the sign of the scalar and [p->equalTo(p)] is
    false.  [p->equalTo(p->negate())] is false as well, because [negate]
    writes the receiver and returns it, so the negated object is compared
    with itself; a different object [q] holding the same value does equal
    the negated one: [q->equalTo(p->negate())] is true. *)
Theorem equalTo_self (store : SharedRational.Store) (p q : addr)
    (a : Rational) (s : bool) (m : positive) (e : Z) :
  Double.is_double (value_ a) ->
  value_ a = S754_finite s m e ->
  store !! p = Some a ->
  SharedRational.compareTo p p store = Some (if s then -1 else 1) /\
  SharedRational.equalTo p p store = Some false /\
  SharedRational.equalTo_negate p p store = Some false /\
  (q <> p -> store !! q = Some a ->
   SharedRational.equalTo_negate q p store = Some true).
Proof.
  intros Hv Ha Hp.
  destruct (equalTo_finite a s m e Hv Ha) as (Hc & Hsame & Hopp).
  assert (Hv' : Double.is_double (value_ (negate a))).
  { rewrite (negate_opp a Hv), Ha. rewrite Ha in Hv. exact Hv. }
  assert (Ha' : value_ (negate a) = S754_finite (negb s) m e).
  { rewrite (negate_opp a Hv), Ha. reflexivity. }
  destruct (equalTo_finite (negate a) (negb s) m e Hv' Ha') as (_ & Hnegated & _).
  unfold SharedRational.equalTo_negate, SharedRational.negate,
    SharedRational.equalTo, SharedRational.compareTo.
  rewrite Hp. cbv iota beta. rewrite Hc, Hsame, lookup_insert_eq, Hnegated.
  repeat split.
  intros Hne Hq. rewrite lookup_insert_ne by congruence.
  rewrite Hq, Hopp. reflexivity.
Qed.

(** X5: [decreaseBy] does subtract: a scalar that stands for a number,
    decreased by itself, is +0.0, which [isZero] accepts. *)
Theorem decreaseBy_self (a : Rational) :
  (exists q, Double.value (value_ a) = Some q) ->
  decreaseBy a a = create Double.zero /\ isZero (decreaseBy a a) = true.
Proof.
  intros [q Hq].
  assert (H : decreaseBy a a = create Double.zero).
  { destruct a as [[s | s | | s m e]]; cbn [value_ Double.value] in Hq; try discriminate.
    - destruct s; reflexivity.
    - unfold decreaseBy, Double.sub. cbn [value_ SFsub]. rewrite Z.min_id. cbv zeta.
      rewrite shl_align_same. cbn [fst]. rewrite Z.sub_diag. reflexivity. }
  split; [exact H|]. rewrite H. reflexivity.
Qed.

(** X1: [Rational(numerator, denominator)] divides the two integers
    before the conversion to [double]: a fraction whose numerator is
    smaller in magnitude than its denominator is stored as +0.0, which
    [isZero] accepts. *)
Theorem of_fraction_proper (numerator denominator : Z) :
  Z.abs numerator < Z.abs denominator ->
  of_fraction numerator denominator = Some (create Double.zero) /\
  isZero (create Double.zero) = true.
Proof.
  intros Hlt. split; [|reflexivity]. unfold of_fraction.
  rewrite (proj2 (Z.eqb_neq denominator 0)) by lia.
  assert (Hq : Z.quot numerator denominator = 0) by (apply Z.quot_small_iff; lia).
  rewrite Hq.
  destruct (numerator =? - 2 ^ 63) eqn:Hn; [|reflexivity].
  apply Z.eqb_eq in Hn. rewrite (proj2 (Z.eqb_neq denominator (-1))) by lia.
  reflexivity.
Qed.

End RoundingFacts.

Lemma of_fraction_proper_witness :
  Z.abs 1 < Z.abs 2 /\
  Rational.of_fraction 1 2 = Some (Rational.create Double.zero) /\
  Rational.isZero (Rational.create Double.zero) = true.
Proof. split; [reflexivity|]. apply (of_fraction_proper 1 2). reflexivity. Defined.

Lemma negate_involutive_witness :
  Double.is_double (Rational.value_ (Rational.create Double.one)) /\
  Rational.value_ (Rational.negate (Rational.create Double.one)) = Double.minus_one /\
  Rational.negate (Rational.negate (Rational.create Double.one)) = Rational.create Double.one.
Proof.
  split; [reflexivity|].
  destruct (negate_involutive (Rational.create Double.one) eq_refl)
    as (Hopp & _ & _ & Hinv).
  split; [exact Hopp | exact Hinv].
Defined.

Lemma equalTo_self_witness :
  let store : SharedRational.Store :=
    <[2%positive := Rational.create Double.two]>
      (<[1%positive := Rational.create Double.two]> ∅) in
  SharedRational.compareTo 1%positive 1%positive store = Some 1 /\
  SharedRational.equalTo 1%positive 1%positive store = Some false /\
  SharedRational.equalTo_negate 1%positive 1%positive store = Some false /\
  SharedRational.equalTo_negate 2%positive 1%positive store = Some true.
Proof.
  intros store.
  destruct (equalTo_self store 1%positive 2%positive (Rational.create Double.two)
              false 4503599627370496 (-51) eq_refl eq_refl eq_refl)
    as (Hc & Hsame & Hnegated & Hother).
  split; [exact Hc|]. split; [exact Hsame|]. split; [exact Hnegated|].
  apply Hother; [discriminate | reflexivity].
Defined.

Lemma decreaseBy_self_witness :
  Rational.decreaseBy (Rational.create Double.one) (Rational.create Double.one)
    = Rational.create Double.zero /\
  Rational.isZero
    (Rational.decreaseBy (Rational.create Double.one) (Rational.create Double.one)) = true.
Proof.
  apply (decreaseBy_self (Rational.create Double.one)).
  eexists. reflexivity.
Defined.

(** ** edge.cc : registration of an edge at its endpoints *)

Section EdgeRegistration.
Import Edge Neighbors.
Context {R : Type} `{Scalar R}.

Implicit Types (h : Heap R) (this : addr) (a b : ptr).

(** X6: [Edge::getOpposite] applied to what it returned gives the node
    back: for an endpoint, the opposite of the opposite is the endpoint. *)
Theorem getOpposite_round_trip (e : Edge R) (node opposite : ptr) :
  getOpposite e node = Returns opposite ->
  getOpposite e opposite = Returns node.
Proof.
  unfold getOpposite.
  destruct (ptr_eqb node (a_ e)) eqn:Ha.
  - apply ptr_eqb_eq in Ha. intros [= <-].
    destruct (ptr_eqb (b_ e) (a_ e)) eqn:Hba.
    + apply ptr_eqb_eq in Hba. congruence.
    + assert (Hbb : ptr_eqb (b_ e) (b_ e) = true) by (apply ptr_eqb_eq; reflexivity).
      rewrite Hbb. congruence.
  - destruct (ptr_eqb node (b_ e)) eqn:Hb; [|discriminate].
    apply ptr_eqb_eq in Hb. intros [= <-].
    assert (Haa : ptr_eqb (a_ e) (a_ e) = true) by (apply ptr_eqb_eq; reflexivity).
    rewrite Haa. congruence.
Qed.

Lemma vectorRemove_middle {A : Type} `{EqDecision A} (l r : list A) (x : A) :
  x ∉ l -> vectorRemove (l ++ x :: r) x = l ++ r.
Proof.
  induction l as [| y l IH]; cbn; intros Hnot.
  - rewrite decide_True by reflexivity. reflexivity.
  - apply not_elem_of_cons in Hnot as [Hne Hnot].
    rewrite decide_False by congruence. rewrite IH by exact Hnot. reflexivity.
Qed.

Lemma removeEdge_addEdge (n : SpaceNode.SpaceNode) (e : ptr) :
  e ∉ SpaceNode.adjacent_edges_ n ->
  SpaceNode.removeEdge e (SpaceNode.addEdge e n) = n.
Proof.
  intros Hnot. destruct n. unfold SpaceNode.removeEdge, SpaceNode.addEdge. cbn in *.
  rewrite (vectorRemove_middle _ [] _ Hnot), app_nil_r. reflexivity.
Qed.

Lemma removeEdge_addEdge_twice (n : SpaceNode.SpaceNode) (e : ptr) :
  e ∉ SpaceNode.adjacent_edges_ n ->
  SpaceNode.removeEdge e (SpaceNode.removeEdge e (SpaceNode.addEdge e (SpaceNode.addEdge e n))) = n.
Proof.
  intros Hnot. destruct n. unfold SpaceNode.removeEdge, SpaceNode.addEdge. cbn in *.
  rewrite <- app_assoc. cbn.
  rewrite (vectorRemove_middle _ [_] _ Hnot).
  rewrite (vectorRemove_middle _ [] _ Hnot), app_nil_r. reflexivity.
Qed.

Lemma edges_create this a b h :
  edges (create this a b h) !! this = Some (new a b).
Proof.
  unfold create, initializationHelper. cbn. rewrite lookup_insert_eq. cbn.
  apply lookup_insert_eq.
Qed.

Lemma endpoint_round_trip this a b (ns : NodeHeap) :
  (forall l n, ns !! l = Some n -> Some this ∉ SpaceNode.adjacent_edges_ n) ->
  endpoint_removeEdge this b
    (endpoint_removeEdge this a
       (endpoint_addEdge this b (endpoint_addEdge this a ns))) = ns.
Proof.
  intros Hfresh. apply map_eq. intros l.
  destruct a as [la|], b as [lb|]; cbn [endpoint_removeEdge endpoint_addEdge];
    rewrite ?lookup_alter; repeat case_decide; subst;
    destruct (ns !! l) as [n|] eqn:Hn; cbn; try reflexivity;
    rewrite ?lookup_alter; repeat case_decide; try congruence; cbn; rewrite ?Hn; cbn;
    try reflexivity; f_equal;
    first [apply removeEdge_addEdge_twice | apply removeEdge_addEdge]; eauto.
Qed.

(** X7: [Edge::create(a, b)] followed by [remove()] leaves every node as
    it was (also when [a] and [b] are the same node or null); the edge
    object keeps its endpoints. *)
Theorem create_remove_round_trip this a b h :
  unlisted h this ->
  nodes (remove this (create this a b h)) = nodes h /\
  edges (remove this (create this a b h)) !! this = Some (new a b).
Proof.
  intros Hfresh.
  assert (Hl : edges (create this a b h) !! this = Some (new a b)) by apply edges_create.
  unfold remove. rewrite Hl. cbn [a_ b_ new nodes edges]. split; [|exact Hl].
  unfold create, initializationHelper. cbn [edges nodes]. rewrite lookup_insert_eq.
  cbn [a_ b_ new nodes edges].
  apply endpoint_round_trip. exact Hfresh.
Qed.

(** X8: when the only tetrahedron of an edge is removed, the edge
    unregisters from its endpoints: the nodes are as before
    [Edge::create]; while another tetrahedron remains, the endpoints keep
    the edge. *)
Theorem removeTetrahedron_unregisters this a b (t u : ptr) h :
  unlisted h this ->
  let h1 := create this a b h in
  let h2 := at_edge this (addTetrahedron t) h1 in
  let h3 := at_edge this (addTetrahedron u) h2 in
  (nodes (removeTetrahedron this t h2) = nodes h /\
   edges (removeTetrahedron this t h2) !! this = Some (new a b)) /\
  (nodes (removeTetrahedron this t h3) = nodes h1 /\
   edges (removeTetrahedron this t h3) !! this = Some (addTetrahedron u (new a b))).
Proof.
  intros Hfresh h1 h2 h3.
  assert (Hl : edges h1 !! this = Some (new a b)) by apply edges_create.
  assert (Hl2 : edges h2 !! this = Some (addTetrahedron t (new a b))).
  { unfold h2, at_edge. cbn [edges]. rewrite lookup_alter_eq, Hl. reflexivity. }
  assert (Hl3 : edges h3 !! this = Some (addTetrahedron u (addTetrahedron t (new a b)))).
  { unfold h3, at_edge. cbn [edges]. rewrite lookup_alter_eq, Hl2. reflexivity. }
  split.
  - unfold removeTetrahedron. rewrite Hl2.
    cbn [addTetrahedron new adjacent_tetrahedra_ a_ b_ cross_section_area_ app vectorRemove].
    rewrite decide_True by reflexivity.
    unfold remove. cbn [edges nodes]. rewrite lookup_insert_eq. cbn [a_ b_ nodes edges].
    split; [|apply lookup_insert_eq].
    unfold h2, at_edge, h1, create, initializationHelper. cbn [edges nodes].
    rewrite lookup_insert_eq. cbn [a_ b_ new nodes edges].
    apply endpoint_round_trip. exact Hfresh.
  - unfold removeTetrahedron. rewrite Hl3.
    cbn [addTetrahedron new adjacent_tetrahedra_ a_ b_ cross_section_area_ app vectorRemove].
    rewrite decide_True by reflexivity. cbn [nodes edges].
    split; [reflexivity | apply lookup_insert_eq].
Qed.
End EdgeRegistration.

(** ** edge.cc : the neighbours of a node *)

Section NeighborFacts.
Import Edge Neighbors.
Context {R : Type} `{Scalar R}.

Implicit Types (h : Heap R) (this : addr).

Lemma opposite_of_not_throws h this (e : ptr) (x : exception) :
  opposite_of h this e <> Throws x.
Proof.
  unfold opposite_of, getOpposite. destruct e as [l|]; [|discriminate].
  destruct (edges h !! l) as [E|]; [|discriminate].
  destruct (ptr_eqb _ _); [discriminate|]. destruct (ptr_eqb _ _); discriminate.
Qed.

Lemma deref_node_not_throws (ns : NodeHeap) (p : ptr) (x : exception) :
  deref_node ns p <> Throws x.
Proof.
  unfold deref_node. destruct p as [l|]; [|discriminate].
  destruct (ns !! l); discriminate.
Qed.

Lemma collect_neighbors_permanent h this (es : list ptr) (l : list ptr) :
  collect_neighbors h this es = Returns l ->
  collect_permanent h this es = Returns l /\ length l = length es.
Proof.
  revert l. induction es as [| e es IH]; intros l; cbn [collect_neighbors collect_permanent].
  - intros [= <-]. split; reflexivity.
  - destruct (opposite_of h this e) as [opp | x |]; try discriminate.
    destruct (deref_node (nodes h) opp) as [n | x |] eqn:Hn; try discriminate.
    destruct (collect_neighbors h this es) as [rest | x |]; try discriminate.
    intros [= <-]. destruct (IH rest eq_refl) as [-> Hlen].
    assert (Hopp : ptr_eqb opp None = false).
    { apply ptr_eqb_neq. intros ->. discriminate Hn. }
    rewrite Hopp. cbn [negb]. split; [reflexivity | cbn; congruence].
Qed.

Lemma collect_neighbors_null h this (es : list ptr) (e : ptr) :
  e ∈ es -> opposite_of h this e = Returns None ->
  collect_neighbors h this es = Undefined.
Proof.
  intros Hin Hnull. induction es as [| e' es IH]; [inversion Hin|].
  cbn [collect_neighbors]. apply elem_of_cons in Hin as [<- | Hin].
  - rewrite Hnull. reflexivity.
  - rewrite (IH Hin).
    destruct (opposite_of h this e') as [opp | x |] eqn:Ho; [| |reflexivity].
    + destruct (deref_node (nodes h) opp) as [n | x |] eqn:Hn; [reflexivity | | reflexivity].
      exfalso. exact (deref_node_not_throws _ _ _ Hn).
    + exfalso. exact (opposite_of_not_throws _ _ _ _ Ho).
Qed.

(** X9: when [getNeighbors] returns, [getPermanentListOfNeighbors]
    returns the same list, one user object for each edge of the node; an
    edge whose other endpoint is null makes [getNeighbors] follow a null
    pointer. *)
Theorem getNeighbors_permanent h this (n : SpaceNode.SpaceNode) :
  nodes h !! this = Some n ->
  (forall l, getNeighbors h this = Returns l ->
     getPermanentListOfNeighbors h this = Returns l /\
     length l = length (SpaceNode.adjacent_edges_ n)) /\
  (forall e, e ∈ SpaceNode.adjacent_edges_ n -> opposite_of h this e = Returns None ->
     getNeighbors h this = Undefined).
Proof.
  intros Hn. unfold getNeighbors, getPermanentListOfNeighbors. rewrite Hn. split.
  - apply collect_neighbors_permanent.
  - apply collect_neighbors_null.
Qed.


Lemma extends_opposite_of h h' this (e o : ptr) :
  extends h h' -> opposite_of h this e = Returns o -> opposite_of h' this e = Returns o.
Proof.
  intros [He _]. unfold opposite_of. destruct e as [l|]; [|discriminate].
  destruct (edges h !! l) as [E|] eqn:Hl; [|discriminate].
  rewrite (He l E Hl). trivial.
Qed.

Lemma extends_deref h h' (p : ptr) (n : SpaceNode.SpaceNode) :
  extends h h' -> deref_node (nodes h) p = Returns n ->
  exists n', deref_node (nodes h') p = Returns n' /\
             SpaceNode.getUserObject n' = SpaceNode.getUserObject n.
Proof.
  intros [_ Hn]. unfold deref_node. destruct p as [l|]; [|discriminate].
  destruct (nodes h !! l) as [n0|] eqn:Hl; [|discriminate]. intros [= <-].
  destruct (Hn l n0 Hl) as (n' & -> & Hu). eauto.
Qed.

Lemma extends_collect_permanent h h' this (es l : list ptr) :
  extends h h' -> collect_permanent h this es = Returns l ->
  collect_permanent h' this es = Returns l.
Proof.
  intros Hext. revert l. induction es as [| e es IH]; intros l; cbn [collect_permanent];
    [trivial|].
  destruct (opposite_of h this e) as [opp | x |] eqn:Ho; try discriminate.
  rewrite (extends_opposite_of _ _ _ _ _ Hext Ho).
  destruct (negb (ptr_eqb opp None)); [|apply IH].
  destruct (deref_node (nodes h) opp) as [n | x |] eqn:Hn; try discriminate.
  destruct (extends_deref _ _ _ _ Hext Hn) as (n' & -> & <-).
  destruct (collect_permanent h this es) as [rest | x |]; try discriminate.
  rewrite (IH rest eq_refl). trivial.
Qed.

Lemma collect_permanent_app h this (es es' l l' : list ptr) :
  collect_permanent h this es = Returns l ->
  collect_permanent h this es' = Returns l' ->
  collect_permanent h this (es ++ es') = Returns (l ++ l').
Proof.
  intros Hl Hl'. revert l Hl. induction es as [| e es IH]; intros l; cbn [collect_permanent app].
  - intros [= <-]. exact Hl'.
  - destruct (opposite_of h this e) as [opp | x |]; try discriminate.
    destruct (negb (ptr_eqb opp None)); [|apply IH].
    destruct (deref_node (nodes h) opp) as [n | x |]; try discriminate.
    destruct (collect_permanent h this es) as [rest | x |]; try discriminate.
    intros [= <-]. rewrite (IH rest eq_refl). reflexivity.
Qed.

Lemma nodes_create_eq fresh (a b : ptr) h (l : addr) (n : SpaceNode.SpaceNode) :
  nodes h !! l = Some n ->
  nodes (create fresh a b h) !! l =
    Some (with_edges
            (SpaceNode.adjacent_edges_ n
               ++ (if bool_decide (a = Some l) then [Some fresh] else [])
               ++ (if bool_decide (b = Some l) then [Some fresh] else [])) n).
Proof.
  intros Hn. unfold create, initializationHelper. cbn [edges nodes].
  rewrite lookup_insert_eq. cbn [a_ b_ new nodes].
  destruct n as [i c ls p es ts v]. unfold with_edges. cbn.
  destruct a as [la|], b as [lb|]; cbn [endpoint_addEdge];
    rewrite ?lookup_alter; repeat case_decide; subst; rewrite ?Hn; cbn;
    rewrite ?lookup_alter; repeat case_decide; try congruence; rewrite ?Hn; cbn;
    repeat (rewrite bool_decide_eq_true_2 by congruence);
    repeat (rewrite bool_decide_eq_false_2 by congruence);
    unfold SpaceNode.addEdge; cbn;
    rewrite <- ?app_assoc, ?app_nil_r; reflexivity.
Qed.

Lemma nodes_create fresh (a b : ptr) h (l : addr) (n : SpaceNode.SpaceNode) :
  nodes h !! l = Some n ->
  exists n', nodes (create fresh a b h) !! l = Some n' /\
    SpaceNode.getUserObject n' = SpaceNode.getUserObject n /\
    SpaceNode.adjacent_edges_ n' =
      SpaceNode.adjacent_edges_ n
        ++ (if bool_decide (a = Some l) then [Some fresh] else [])
        ++ (if bool_decide (b = Some l) then [Some fresh] else []).
Proof.
  intros Hn. eexists. split; [apply nodes_create_eq, Hn|]. split; reflexivity.
Qed.

Lemma create_extends fresh (a b : ptr) h :
  edges h !! fresh = None -> extends h (create fresh a b h).
Proof.
  intros Hfresh. split.
  - intros l e Hl. unfold create, initializationHelper. cbn [edges].
    rewrite lookup_insert_eq. cbn [edges].
    rewrite lookup_insert_ne; [exact Hl | congruence].
  - intros l n Hn. destruct (nodes_create fresh a b h l n Hn) as (n' & Hn' & Hu & _).
    eauto.
Qed.

(** X10: [Edge::create] between two different nodes appends the user
    object of the one to the permanent list of neighbours of the other,
    whichever of them is the first endpoint. *)
Theorem create_adds_neighbor fresh (la lb : addr) h (neighbors : list ptr)
    (nb : SpaceNode.SpaceNode) :
  edges h !! fresh = None -> la <> lb ->
  nodes h !! lb = Some nb ->
  (getPermanentListOfNeighbors h la = Returns neighbors ->
   getPermanentListOfNeighbors (create fresh (Some la) (Some lb) h) la
     = Returns (neighbors ++ [SpaceNode.getUserObject nb])) /\
  (getPermanentListOfNeighbors h la = Returns neighbors ->
   getPermanentListOfNeighbors (create fresh (Some lb) (Some la) h) la
     = Returns (neighbors ++ [SpaceNode.getUserObject nb])).
Proof.
  intros Hfresh Hne Hnb.
  assert (Hgen : forall a b : ptr,
    (a = Some la /\ b = Some lb) \/ (a = Some lb /\ b = Some la) ->
    getPermanentListOfNeighbors h la = Returns neighbors ->
    getPermanentListOfNeighbors (create fresh a b h) la
      = Returns (neighbors ++ [SpaceNode.getUserObject nb])).
  { intros a b Hab. unfold getPermanentListOfNeighbors.
    destruct (nodes h !! la) as [na|] eqn:Hna; [|discriminate]. intros Hold.
    destruct (nodes_create fresh a b h la na Hna) as (na' & -> & _ & Hadj).
    destruct (nodes_create fresh a b h lb nb Hnb) as (nb' & Hnb' & Hub & _).
    pose proof (create_extends fresh a b h Hfresh) as Hext.
    assert (Hadj' : SpaceNode.adjacent_edges_ na' = SpaceNode.adjacent_edges_ na ++ [Some fresh]).
    { rewrite Hadj. destruct Hab as [[-> ->] | [-> ->]].
      - rewrite bool_decide_eq_true_2 by reflexivity.
        rewrite bool_decide_eq_false_2 by congruence. reflexivity.
      - rewrite bool_decide_eq_false_2 by congruence.
        rewrite bool_decide_eq_true_2 by reflexivity. reflexivity. }
    rewrite Hadj'. apply collect_permanent_app.
    - eapply extends_collect_permanent; eassumption.
    - cbn [collect_permanent]. unfold opposite_of. rewrite edges_create.
      assert (Ho : getOpposite (new a b) (Some la) = Returns (Some lb)).
      { unfold getOpposite. cbn [a_ b_ new].
        destruct Hab as [[-> ->] | [-> ->]].
        - rewrite (proj2 (ptr_eqb_eq _ _) eq_refl). reflexivity.
        - rewrite (proj2 (ptr_eqb_neq (Some la) (Some lb))) by congruence.
          rewrite (proj2 (ptr_eqb_eq _ _) eq_refl). reflexivity. }
      rewrite Ho. cbn [ptr_eqb negb deref_node].
      rewrite (proj2 (ptr_eqb_neq (Some lb) None)) by discriminate. cbn [negb].
      rewrite Hnb', Hub. reflexivity. }
  split; apply Hgen; auto.
Qed.


Lemma is_edge_to_true h (opp opposite_node : ptr) :
  is_edge_to h opp opposite_node = Returns true -> opp = opposite_node.
Proof.
  unfold is_edge_to, call_equalTo.
  destruct (ptr_eqb opp None); cbn [negb].
  - destruct (ptr_eqb opposite_node None); cbn [negb]; [discriminate|].
    destruct (deref_node (nodes h) opposite_node); try discriminate.
    intros [= Heq]. apply ptr_eqb_eq in Heq. exact Heq.
  - destruct (deref_node (nodes h) opp); try discriminate.
    destruct (ptr_eqb opposite_node opp) eqn:Heq.
    + intros _. apply ptr_eqb_eq in Heq. congruence.
    + destruct (ptr_eqb opposite_node None); cbn [negb]; [discriminate|].
      destruct (deref_node (nodes h) opposite_node); try discriminate.
      intros [= Heq']. apply ptr_eqb_eq in Heq'. exact Heq'.
Qed.

Lemma getOpposite_equals (e : Edge R) (node o : ptr) :
  getOpposite e node = Returns o -> equals e node o = true.
Proof.
  unfold getOpposite, equals.
  destruct (ptr_eqb node (a_ e)) eqn:Ha.
  - apply ptr_eqb_eq in Ha. intros [= <-]. subst node.
    rewrite !(proj2 (ptr_eqb_eq _ _) eq_refl). reflexivity.
  - destruct (ptr_eqb node (b_ e)) eqn:Hb; [|discriminate].
    apply ptr_eqb_eq in Hb. intros [= <-]. subst node.
    rewrite !(proj2 (ptr_eqb_eq _ _) eq_refl). cbn. apply orb_true_r.
Qed.

Lemma find_edge_found h this (opposite_node : ptr) (es : list ptr) (e : ptr) :
  find_edge h this opposite_node es = Returns (Some e) ->
  e ∈ es /\ opposite_of h this e = Returns opposite_node.
Proof.
  induction es as [| e' es IH]; cbn [find_edge]; [discriminate|].
  destruct (opposite_of h this e') as [opp | x |] eqn:Ho; try discriminate.
  destruct (is_edge_to h opp opposite_node) as [[] | x |] eqn:Ht; try discriminate.
  - intros [= <-]. apply is_edge_to_true in Ht as <-.
    split; [apply elem_of_cons; left; reflexivity | exact Ho].
  - intros Hf. destruct (IH Hf) as [Hin Ho']. split; [|exact Ho'].
    apply elem_of_cons. right. exact Hin.
Qed.

(** X11: the edge that [searchEdge] returns connects the node and
    [opposite_node], and the node lists it. *)
Theorem searchEdge_connects (fresh : addr) this (opposite_node e : ptr) h h' :
  searchEdge fresh this opposite_node h = Returns (e, h') ->
  exists (l : addr) (edge : Edge R),
    e = Some l /\ edges h' !! l = Some edge /\
    equals edge (Some this) opposite_node = true /\
    exists n', nodes h' !! this = Some n' /\ e ∈ SpaceNode.adjacent_edges_ n'.
Proof.
  unfold searchEdge. destruct (nodes h !! this) as [n|] eqn:Hn; [|discriminate].
  destruct (find_edge h this opposite_node (SpaceNode.adjacent_edges_ n))
    as [[found|] | x |] eqn:Hf; try discriminate.
  - intros [= <- <-]. apply find_edge_found in Hf as [Hin Ho].
    unfold opposite_of in Ho. destruct found as [l|]; [|discriminate].
    destruct (edges h !! l) as [edge|] eqn:Hl; [|discriminate].
    exists l, edge. split; [reflexivity|]. split; [exact Hl|].
    split; [apply getOpposite_equals, Ho|]. exists n. split; assumption.
  - intros [= <- <-]. exists fresh, (new (Some this) opposite_node).
    split; [reflexivity|]. split; [apply edges_create|]. split.
    + unfold equals. cbn [a_ b_ new]. rewrite !(proj2 (ptr_eqb_eq _ _) eq_refl). reflexivity.
    + destruct (nodes_create fresh (Some this) opposite_node h this n Hn)
        as (n' & Hn' & _ & Hadj).
      exists n'. split; [exact Hn'|]. rewrite Hadj.
      rewrite bool_decide_eq_true_2 by reflexivity.
      apply elem_of_app. right. apply elem_of_app. left.
      apply list_elem_of_singleton. reflexivity.
Qed.

Lemma extends_is_edge_to h h' (opp opposite_node : ptr) (r : bool) :
  extends h h' -> is_edge_to h opp opposite_node = Returns r ->
  is_edge_to h' opp opposite_node = Returns r.
Proof.
  intros Hext. unfold is_edge_to, call_equalTo.
  destruct (negb (ptr_eqb opp None)).
  - destruct (deref_node (nodes h) opp) as [n | x |] eqn:Hn; try discriminate.
    destruct (extends_deref _ _ _ _ Hext Hn) as (n' & -> & _).
    destruct (ptr_eqb opposite_node opp); [trivial|].
    destruct (negb (ptr_eqb opposite_node None)); [|trivial].
    destruct (deref_node (nodes h) opposite_node) as [m | x |] eqn:Hm; try discriminate.
    destruct (extends_deref _ _ _ _ Hext Hm) as (m' & -> & _). trivial.
  - destruct (negb (ptr_eqb opposite_node None)); [|trivial].
    destruct (deref_node (nodes h) opposite_node) as [m | x |] eqn:Hm; try discriminate.
    destruct (extends_deref _ _ _ _ Hext Hm) as (m' & -> & _). trivial.
Qed.

Lemma extends_find_edge h h' this (opposite_node : ptr) (es : list ptr) (r : option ptr) :
  extends h h' -> find_edge h this opposite_node es = Returns r ->
  find_edge h' this opposite_node es = Returns r.
Proof.
  intros Hext. induction es as [| e es IH]; cbn [find_edge]; [trivial|].
  destruct (opposite_of h this e) as [opp | x |] eqn:Ho; try discriminate.
  rewrite (extends_opposite_of _ _ _ _ _ Hext Ho).
  destruct (is_edge_to h opp opposite_node) as [b | x |] eqn:Ht; try discriminate.
  rewrite (extends_is_edge_to _ _ _ _ _ Hext Ht). destruct b; [trivial | exact IH].
Qed.

Lemma find_edge_app_none h this (opposite_node : ptr) (es es' : list ptr) :
  find_edge h this opposite_node es = Returns None ->
  find_edge h this opposite_node (es ++ es') = find_edge h this opposite_node es'.
Proof.
  induction es as [| e es IH]; cbn [find_edge app]; [trivial|].
  destruct (opposite_of h this e) as [opp | x |]; try discriminate.
  destruct (is_edge_to h opp opposite_node) as [[] | x |]; try discriminate.
  exact IH.
Qed.

(** X12: searching again for the same node finds the edge of the first
    search and creates nothing. *)
Theorem searchEdge_again (fresh fresh' : addr) this (lo : addr) (e : ptr) h h' :
  edges h !! fresh = None ->
  is_Some (nodes h !! lo) ->
  searchEdge fresh this (Some lo) h = Returns (e, h') ->
  searchEdge fresh' this (Some lo) h' = Returns (e, h').
Proof.
  intros Hfresh [no Hno]. unfold searchEdge.
  destruct (nodes h !! this) as [n|] eqn:Hn; [|discriminate].
  destruct (find_edge h this (Some lo) (SpaceNode.adjacent_edges_ n))
    as [[found|] | x |] eqn:Hf; try discriminate.
  - intros [= <- <-]. rewrite Hn, Hf. reflexivity.
  - intros [= <- <-].
    destruct (nodes_create fresh (Some this) (Some lo) h this n Hn) as (n' & -> & _ & Hadj).
    destruct (nodes_create fresh (Some this) (Some lo) h lo no Hno) as (no' & Hno' & _ & _).
    pose proof (create_extends fresh (Some this) (Some lo) h Hfresh) as Hext.
    rewrite Hadj, bool_decide_eq_true_2 by reflexivity.
    rewrite (find_edge_app_none _ _ _ _ _ (extends_find_edge _ _ _ _ _ _ Hext Hf)).
    cbn [app find_edge]. unfold opposite_of at 1. rewrite edges_create.
    unfold getOpposite. cbn [a_ b_ new]. rewrite (proj2 (ptr_eqb_eq _ _) eq_refl).
    unfold is_edge_to, call_equalTo. cbn [deref_node]. rewrite Hno'.
    rewrite (proj2 (ptr_eqb_neq (Some lo) None)) by discriminate. cbn [negb].
    rewrite (proj2 (ptr_eqb_eq _ _) eq_refl). reflexivity.
Qed.

Lemma is_edge_to_null h (opp : ptr) (r : bool) :
  is_edge_to h opp None = Returns r -> r = false.
Proof.
  unfold is_edge_to, call_equalTo.
  destruct (ptr_eqb opp None) eqn:Hopp; cbn [negb].
  - cbn. intros [= <-]. reflexivity.
  - destruct (deref_node (nodes h) opp); try discriminate.
    rewrite (proj2 (ptr_eqb_neq None opp)).
    + cbn. intros [= <-]. reflexivity.
    + apply ptr_eqb_neq in Hopp. congruence.
Qed.

Lemma find_edge_null h this (es : list ptr) (r : option ptr) :
  find_edge h this None es = Returns r -> r = None.
Proof.
  induction es as [| e es IH]; cbn [find_edge]; [congruence|].
  destruct (opposite_of h this e) as [opp | x |]; try discriminate.
  destruct (is_edge_to h opp None) as [b | x |] eqn:Ht; try discriminate.
  apply is_edge_to_null in Ht as ->. exact IH.
Qed.

(** X13: [searchEdge(nullptr)] never returns an edge that exists: it
    creates an edge to the null pointer, after which [getNeighbors] follows
    a null pointer. *)
Theorem searchEdge_null (fresh : addr) this (e : ptr) h h' :
  searchEdge fresh this None h = Returns (e, h') ->
  e = Some fresh /\ h' = create fresh (Some this) None h /\
  getNeighbors h' this = Undefined.
Proof.
  unfold searchEdge. destruct (nodes h !! this) as [n|] eqn:Hn; [|discriminate].
  destruct (find_edge h this None (SpaceNode.adjacent_edges_ n)) as [r | x |] eqn:Hf;
    try discriminate.
  apply find_edge_null in Hf as ->. intros [= <- <-].
  split; [reflexivity|]. split; [reflexivity|].
  destruct (nodes_create fresh (Some this) None h this n Hn) as (n' & Hn' & _ & Hadj).
  unfold getNeighbors. rewrite Hn'.
  apply (collect_neighbors_null _ _ _ (Some fresh)).
  - rewrite Hadj, bool_decide_eq_true_2 by reflexivity.
    apply elem_of_app. right. apply elem_of_app. left.
    apply list_elem_of_singleton. reflexivity.
  - unfold opposite_of. rewrite edges_create. unfold getOpposite. cbn [a_ b_ new].
    rewrite (proj2 (ptr_eqb_eq _ _) eq_refl). reflexivity.
Qed.

End NeighborFacts.

(** ** edge.cc : numbering and creation of nodes *)

Section NewInstanceFacts.
Import Edge Neighbors NewInstance.
Context {R : Type} `{Scalar R}.

Implicit Types (h : Heap R) (this : addr).

Lemma construct_all_spec (c : Z) (arguments : list (array3 * ptr))
    (ns : list SpaceNode.SpaceNode) (c' : Z) :
  c <= 2 ^ 31 - 1 ->
  construct_all c arguments = Returns (ns, c') ->
  c' = c + Z.of_nat (length arguments) /\ c' <= 2 ^ 31 - 1 /\
  map SpaceNode.id_ ns = seqZ c (Z.of_nat (length arguments)).
Proof.
  revert c ns. induction arguments as [| [position content] rest IH]; intros c ns Hc;
    cbn [construct_all].
  - intros [= <- <-]. cbn [length map]. rewrite Z.add_0_r.
    split; [reflexivity|]. split; [exact Hc | reflexivity].
  - unfold construct. destruct (c =? 2 ^ 31 - 1) eqn:Hmax; [discriminate|].
    apply Z.eqb_neq in Hmax.
    destruct (construct_all (c + 1) rest) as [[ns' last] | x |] eqn:Hrest; try discriminate.
    intros [= <- <-]. destruct (IH (c + 1) ns' ltac:(lia) Hrest) as (Hlast & Hle & Hids).
    cbn [length map SpaceNode.create SpaceNode.id_]. rewrite Nat2Z.inj_succ.
    split; [lia|]. split; [exact Hle|].
    rewrite Hids. rewrite (seqZ_cons c) by lia. f_equal. f_equal. lia.
Qed.

Lemma construct_all_defined (c : Z) (arguments : list (array3 * ptr)) :
  c + Z.of_nat (length arguments) <= 2 ^ 31 - 1 ->
  exists ns c', construct_all c arguments = Returns (ns, c').
Proof.
  revert c. induction arguments as [| [position content] rest IH]; intros c;
    cbn [construct_all length].
  - eauto.
  - rewrite Nat2Z.inj_succ. intros Hle. unfold construct.
    rewrite (proj2 (Z.eqb_neq _ _)) by lia.
    destruct (IH (c + 1) ltac:(lia)) as (ns & c' & ->). eauto.
Qed.

Lemma construct_all_overflow (c : Z) (arguments : list (array3 * ptr)) :
  c <= 2 ^ 31 - 1 -> 2 ^ 31 - 1 < c + Z.of_nat (length arguments) ->
  construct_all c arguments = Undefined.
Proof.
  revert c. induction arguments as [| [position content] rest IH]; intros c Hc;
    cbn [construct_all length].
  - lia.
  - rewrite Nat2Z.inj_succ. intros Hlt. unfold construct.
    destruct (c =? 2 ^ 31 - 1) eqn:Hmax; [reflexivity|]. apply Z.eqb_neq in Hmax.
    rewrite (IH (c + 1)) by lia. reflexivity.
Qed.

(** X14: nodes constructed one after the other get consecutive, pairwise
    different ids, as long as [id_counter_] does not pass the largest
    [int]; constructing more nodes than that has no defined behaviour. *)
Theorem construct_all_ids (c : Z) (arguments : list (array3 * ptr)) :
  c <= 2 ^ 31 - 1 ->
  (c + Z.of_nat (length arguments) <= 2 ^ 31 - 1 ->
   exists ns,
     construct_all c arguments = Returns (ns, c + Z.of_nat (length arguments)) /\
     map SpaceNode.id_ ns = seqZ c (Z.of_nat (length arguments)) /\
     NoDup (map SpaceNode.id_ ns)) /\
  (2 ^ 31 - 1 < c + Z.of_nat (length arguments) ->
   construct_all c arguments = Undefined).
Proof.
  intros Hc. split; [|apply construct_all_overflow, Hc].
  intros Hle. destruct (construct_all_defined c arguments Hle) as (ns & c' & Hrun).
  destruct (construct_all_spec c arguments ns c' Hc Hrun) as (-> & _ & Hids).
  exists ns. split; [exact Hrun|]. split; [exact Hids|].
  rewrite Hids. apply NoDup_seqZ.
Qed.

(** X15: [getNewInstance] on a node with one edge and no tetrahedron
    creates the new node with the listeners of the node and the next id,
    joins the two by an edge, and creates a second edge both endpoints of
    which are the new node: [adjacent_edges_.back()] is the edge just
    created, so its opposite endpoint is the new node itself. *)
Theorem getNewInstance_second_edge
    (createInitialTetrahedron : addr -> addr -> ptr -> ptr -> Heap R -> result (Heap R))
    (insert : addr -> ptr -> Heap R -> result (Heap R))
    (id_counter_ : Z) (insert_point edge1 edge2 : addr) this
    (position : array3) (user_object e0 : ptr) h (n : SpaceNode.SpaceNode) :
  nodes h !! this = Some n ->
  SpaceNode.adjacent_tetrahedra_ n = [] ->
  SpaceNode.adjacent_edges_ n = [e0] ->
  nodes h !! insert_point = None ->
  edge1 <> edge2 ->
  id_counter_ < 2 ^ 31 - 1 ->
  exists h',
    getNewInstance createInitialTetrahedron insert id_counter_ insert_point edge1 edge2
      this position user_object h = Returns (Some insert_point, id_counter_ + 1, h') /\
    edges h' !! edge1 = Some (new (Some this) (Some insert_point)) /\
    edges h' !! edge2 = Some (new (Some insert_point) (Some insert_point)) /\
    nodes h' !! this = Some (with_edges [e0; Some edge1] n) /\
    nodes h' !! insert_point =
      Some (with_edges [Some edge1; Some edge2; Some edge2]
              (SpaceNode.setListenerList (SpaceNode.listeners_ n)
                 (SpaceNode.create id_counter_ position user_object))).
Proof.
  intros Hn Htet Hedges Hfresh Hne Hid.
  assert (Hthis : this <> insert_point) by congruence.
  unfold getNewInstance. rewrite Hn. unfold construct.
  rewrite (proj2 (Z.eqb_neq _ _)) by lia. rewrite Htet, Hedges. cbn [length Nat.eqb].
  set (m0 := SpaceNode.setListenerList (SpaceNode.listeners_ n)
               (SpaceNode.create id_counter_ position user_object)).
  set (h0 := mkHeap (<[insert_point := m0]> (nodes h)) (edges h)).
  assert (Hn0 : nodes h0 !! this = Some n).
  { unfold h0. cbn [nodes]. rewrite lookup_insert_ne by congruence. exact Hn. }
  assert (Hm0 : nodes h0 !! insert_point = Some m0).
  { unfold h0. cbn [nodes]. apply lookup_insert_eq. }
  unfold new_edges.
  set (h1 := create edge1 (Some this) (Some insert_point) h0).
  pose proof (nodes_create_eq edge1 (Some this) (Some insert_point) h0 this n Hn0) as Hn1.
  pose proof (nodes_create_eq edge1 (Some this) (Some insert_point) h0 insert_point m0 Hm0)
    as Hm1.
  rewrite bool_decide_eq_true_2 in Hn1 by reflexivity.
  rewrite bool_decide_eq_false_2 in Hn1 by congruence.
  rewrite bool_decide_eq_false_2 in Hm1 by congruence.
  rewrite bool_decide_eq_true_2 in Hm1 by reflexivity.
  rewrite Hedges in Hn1. cbn [app SpaceNode.adjacent_edges_ m0 SpaceNode.setListenerList
    SpaceNode.create] in Hn1, Hm1.
  fold h1 in Hn1, Hm1. rewrite Hn1.
  cbn [with_edges SpaceNode.adjacent_edges_ length Nat.eqb List.last].
  assert (Hl1 : edges h1 !! edge1 = Some (new (Some this) (Some insert_point)))
    by apply edges_create.
  unfold opposite_of. rewrite Hl1. unfold getOpposite. cbn [a_ b_ new].
  rewrite (proj2 (ptr_eqb_eq _ _) eq_refl).
  eexists. split; [reflexivity|]. split.
  { unfold create at 1, initializationHelper. cbn [edges].
    rewrite lookup_insert_eq. cbn [edges]. rewrite lookup_insert_ne by congruence.
    exact Hl1. }
  split; [apply edges_create|].
  split.
  - rewrite (nodes_create_eq edge2 (Some insert_point) (Some insert_point) h1 this _ Hn1).
    rewrite !bool_decide_eq_false_2 by congruence.
    cbn [with_edges SpaceNode.adjacent_edges_ app SpaceNode.id_ SpaceNode.content_
         SpaceNode.listeners_ SpaceNode.position_ SpaceNode.adjacent_tetrahedra_
         SpaceNode.volume_]. reflexivity.
  - rewrite (nodes_create_eq edge2 (Some insert_point) (Some insert_point) h1
               insert_point _ Hm1).
    rewrite !bool_decide_eq_true_2 by reflexivity. reflexivity.
Qed.

End NewInstanceFacts.

(** ** edge.cc : what the listeners of a node are told *)

Section Protocols.
Import Triangulation.
Context {G : Type} (K : Kernel G).

Ltac silent_side :=
  first [ apply silent_refl | apply silent_trans
        | intros ?; apply silent_trans
        | intros; apply silent_refl
        | intros; apply silent_command ].

(** A step that is silent keeps the listener calls and the node. *)
Lemma silent_step {A : Type} (m : M G A) (a : A) (w w' : World G)
    (this : addr) (n : SpaceNode.SpaceNode) :
  keeps_silent m -> m w = Done a w' -> nodes w !! this = Some n ->
  notifications w' = notifications w /\
  exists n', nodes w' !! this = Some n' /\ own n' = own n.
Proof.
  intros Hm Hrun Hn. destruct (sat_done _ _ _ _ _ _ Hm Hrun) as [Hsame Hown].
  split; [exact Hsame|]. eapply own_kept_lookup; eassumption.
Qed.

Lemma own_fields (n n' : SpaceNode.SpaceNode) :
  own n' = own n ->
  SpaceNode.listeners_ n' = SpaceNode.listeners_ n /\
  SpaceNode.position_ n' = SpaceNode.position_ n.
Proof. unfold own. intros [= _ _ Hl Hp]. split; assumption. Qed.

Lemma keeps_silent_removal_scan (this oto : addr) (ts messed : list ptr) :
  keeps_silent (remove_adjacent K this oto ts messed).
Proof. apply sat_remove_adjacent; silent_side. Qed.

Lemma keeps_silent_sweep (oto : addr) (messed : list ptr) :
  keeps_silent
    (for_each messed (fun tetrahedron =>
       let* valid := isValid K tetrahedron in
       if valid then removeAllTetrahedraInSphere K oto tetrahedron else ret tt)).
Proof.
  apply sat_for_each; try silent_side. intros t.
  apply sat_bind; try silent_side.
  - apply sat_read; silent_side.
  - intros []; [apply sat_command | apply sat_ret]; silent_side.
Qed.

(** The listener calls of [removeAndReturnCreatedTetrahedron]. *)
Lemma removal_protocol
    (this : addr) (w w' : World G) (n : SpaceNode.SpaceNode) (created : ptr) :
  nodes w !! this = Some n ->
  removeAndReturnCreatedTetrahedron K this w = Done created w' ->
  notifications w' =
    notifications w ++
    map (fun l => mkNotification l (nodeAboutToBeRemoved this) (SpaceNode.position_ n))
        (SpaceNode.listeners_ n) ++
    map (fun l => mkNotification l (nodeRemoved this) (SpaceNode.position_ n))
        (SpaceNode.listeners_ n) /\
  exists n', nodes w' !! this = Some n' /\ own n' = own n.
Proof.
  intros Hn Hrun. unfold removeAndReturnCreatedTetrahedron in Hrun.
  apply bind_done in Hrun as ([] & w1 & Hnot & Hrun).
  rewrite (notify_listeners_done this _ n w Hn) in Hnot. injection Hnot as <-.
  apply bind_done in Hrun as (oto & w2 & Hoto & Hrun).
  eapply silent_step in Hoto as (Hs2 & n2 & Hn2 & Ho2);
    [| apply sat_command; silent_side | exact Hn].
  apply bind_done in Hrun as (n2' & w2' & Hnode & Hrun).
  apply node_done in Hnode as [-> Hn2']. rewrite Hn2 in Hn2'. injection Hn2' as <-.
  apply bind_done in Hrun as (messed & w3 & Hscan & Hrun).
  eapply silent_step in Hscan as (Hs3 & n3 & Hn3 & Ho3);
    [| apply keeps_silent_removal_scan | exact Hn2].
  apply bind_done in Hrun as ([] & w4 & Hsweep & Hrun).
  eapply silent_step in Hsweep as (Hs4 & n4 & Hn4 & Ho4);
    [| apply keeps_silent_sweep | exact Hn3].
  apply bind_done in Hrun as ([] & w5 & Htri & Hrun).
  eapply silent_step in Htri as (Hs5 & n5 & Hn5 & Ho5);
    [| apply sat_command; silent_side | exact Hn4].
  apply bind_done in Hrun as ([] & w6 & Hnot & Hrun).
  rewrite (notify_listeners_done this _ n5 w5 Hn5) in Hnot. injection Hnot as <-.
  unfold getANewTetrahedron, query in Hrun. injection Hrun as _ <-.
  assert (Hown : own n5 = own n) by congruence.
  destruct (own_fields _ _ Hown) as [Hl Hp].
  cbn [notifications nodes]. split.
  - rewrite Hs5, Hs4, Hs3, Hs2. cbn [notifications]. rewrite Hl, Hp.
    rewrite <- app_assoc. reflexivity.
  - exists n5. split; assumption.
Qed.

Lemma keeps_silent_search (fuel : nat) (start : ptr) (c : array3) :
  keeps_silent (searchInitialInsertionTetrahedron K fuel start c).
Proof. apply sat_searchInitialInsertionTetrahedron; silent_side. Qed.

(** The listener calls of [insert]. *)
Lemma insertion_protocol
    (fuel : nat) (this : addr) (start created : ptr) (w w' : World G)
    (n : SpaceNode.SpaceNode) :
  nodes w !! this = Some n ->
  insert K fuel this start w = Done created w' ->
  (exists (insertion_start : ptr) (w1 : World G),
     searchInitialInsertionTetrahedron K fuel start (SpaceNode.position_ n) w
       = Done insertion_start w1 /\
     notifications w' =
       notifications w ++
       map (fun l => mkNotification l
                       (nodeAboutToBeAdded this (SpaceNode.position_ n)
                          (vertice_contents_at K w1 insertion_start))
                       (SpaceNode.position_ n))
           (SpaceNode.listeners_ n) ++
       map (fun l => mkNotification l (nodeAdded this) (SpaceNode.position_ n))
           (SpaceNode.listeners_ n)) /\
  exists n', nodes w' !! this = Some n' /\ own n' = own n.
Proof.
  intros Hn Hrun. unfold insert in Hrun.
  apply bind_done in Hrun as (n0 & w0 & Hnode & Hrun).
  apply node_done in Hnode as [-> Hn0]. rewrite Hn in Hn0. injection Hn0 as <-.
  apply bind_done in Hrun as (insertion_start & w1 & Hsearch & Hrun).
  pose proof Hsearch as Hfound.
  eapply silent_step in Hsearch as (Hs1 & n1 & Hn1 & Ho1);
    [| apply keeps_silent_search | exact Hn].
  apply bind_done in Hrun as (n1' & w1' & Hnode & Hrun).
  apply node_done in Hnode as [-> Hn1']. rewrite Hn1 in Hn1'. injection Hn1' as <-.
  destruct (own_fields _ _ Ho1) as [Hl1 Hp1].
  apply bind_done in Hrun as ([] & w2 & Habout & Hrun).
  assert (Hw2 :
    notifications w2 =
      notifications w ++
      map (fun l => mkNotification l
                      (nodeAboutToBeAdded this (SpaceNode.position_ n)
                         (vertice_contents_at K w1 insertion_start))
                      (SpaceNode.position_ n))
          (SpaceNode.listeners_ n) /\
    exists n2, nodes w2 !! this = Some n2 /\ own n2 = own n).
  { rewrite Hl1, Hp1 in Habout.
    destruct (SpaceNode.listeners_ n) as [| l ls] eqn:Hls; cbn [length Nat.eqb negb] in Habout.
    - injection Habout as <-. cbn [map]. rewrite app_nil_r.
      split; [assumption|]. exists n1. split; assumption.
    - apply bind_done in Habout as (vc & w1' & Hvc & Habout).
      assert (Hcontents : vc = vertice_contents_at K w1 insertion_start /\ w1' = w1).
      { unfold getVerticeContents, read, bind, deref in Hvc.
        destruct insertion_start as [t|]; [|discriminate Hvc].
        cbn in Hvc. unfold query in Hvc. injection Hvc as <- <-.
        split; reflexivity. }
      destruct Hcontents as [-> ->].
      rewrite (notify_listeners_done this _ n1 w1 Hn1) in Habout. injection Habout as <-.
      cbn [notifications nodes].
      rewrite Hs1, Hl1, Hp1. split; [reflexivity|].
      exists n1. split; assumption. }
  destruct Hw2 as (Hnot2 & n2 & Hn2 & Ho2).
  apply bind_done in Hrun as (oto & w3 & Hoto & Hrun).
  eapply silent_step in Hoto as (Hs3 & n3 & Hn3 & Ho3);
    [| apply sat_command; silent_side | exact Hn2].
  apply bind_done in Hrun as (queue & w4 & Hproc & Hrun).
  eapply silent_step in Hproc as (Hs4 & n4 & Hn4 & Ho4);
    [| apply sat_processTetrahedron; silent_side | exact Hn3].
  apply bind_done in Hrun as (outer & w5 & Hqueue & Hrun).
  eapply silent_step in Hqueue as (Hs5 & n5 & Hn5 & Ho5);
    [| apply sat_process_queue; silent_side | exact Hn4].
  apply bind_done in Hrun as (star & w6 & Hstar & Hrun).
  eapply silent_step in Hstar as (Hs6 & n6 & Hn6 & Ho6);
    [| apply sat_create_star; silent_side | exact Hn5].
  apply bind_done in Hrun as ([] & w7 & Hadded & Hrun).
  rewrite (notify_listeners_done this _ n6 w6 Hn6) in Hadded. injection Hadded as <-.
  injection Hrun as _ <-.
  assert (Hown : own n6 = own n) by congruence.
  destruct (own_fields _ _ Hown) as [Hl Hp].
  cbn [notifications nodes]. split.
  - exists insertion_start, w1. split; [exact Hfound|].
    rewrite Hs6, Hs5, Hs4, Hs3, Hnot2, Hl, Hp.
    rewrite <- app_assoc. reflexivity.
  - exists n6. split; assumption.
Qed.


Lemma keeps_own_removal (this : addr) :
  keeps_own (removeAndReturnCreatedTetrahedron K this).
Proof.
  apply sat_removeAndReturnCreatedTetrahedron with (allowed := fun _ => True).
  - apply own_kept_refl.
  - apply own_kept_trans.
  - intros e. apply own_kept_trans.
  - intros. apply own_kept_command.
  - intros w l c p _ l'. reflexivity.
  - exact I.
  - exact I.
Qed.

(** X16: a completed [remove] calls every listener of the node with
    [nodeAboutToBeRemoved] first and with [nodeRemoved] last, once each and
    in the order of [listeners_], and calls no listener in between; every
    node keeps its id, user object, listeners and position. *)
Theorem remove_notifications (this : addr) (w w' : World G) (n : SpaceNode.SpaceNode) :
  nodes w !! this = Some n ->
  remove K this w = Done tt w' ->
  notifications w' =
    notifications w ++
    map (fun l => mkNotification l (nodeAboutToBeRemoved this) (SpaceNode.position_ n))
        (SpaceNode.listeners_ n) ++
    map (fun l => mkNotification l (nodeRemoved this) (SpaceNode.position_ n))
        (SpaceNode.listeners_ n) /\
  forall l, own <$> (nodes w' !! l) = own <$> (nodes w !! l).
Proof.
  intros Hn Hrun. unfold remove in Hrun.
  apply bind_done in Hrun as (created & w1 & Hrem & Hrun). injection Hrun as <-.
  destruct (removal_protocol this w w1 n created Hn Hrem) as [Hnot _].
  split; [exact Hnot|].
  exact (sat_done _ _ _ _ _ _ (keeps_own_removal this) Hrem).
Qed.

(** X17: a completed [insert] calls every listener of the node with
    [nodeAboutToBeAdded], passing the position of the node and the vertex
    contents of the tetrahedron that [searchInitialInsertionTetrahedron]
    has found for it (read in the state the search ends in), and with
    [nodeAdded] at the end, once each; every node keeps its id, user
    object, listeners and position. *)
Theorem insert_notifications
    (fuel : nat) (this : addr) (start created : ptr) (w w' : World G)
    (n : SpaceNode.SpaceNode) :
  nodes w !! this = Some n ->
  insert K fuel this start w = Done created w' ->
  (exists (insertion_start : ptr) (w1 : World G),
     searchInitialInsertionTetrahedron K fuel start (SpaceNode.position_ n) w
       = Done insertion_start w1 /\
     notifications w' =
       notifications w ++
       map (fun l => mkNotification l
                       (nodeAboutToBeAdded this (SpaceNode.position_ n)
                          (vertice_contents_at K w1 insertion_start))
                       (SpaceNode.position_ n))
           (SpaceNode.listeners_ n) ++
       map (fun l => mkNotification l (nodeAdded this) (SpaceNode.position_ n))
           (SpaceNode.listeners_ n)) /\
  forall l, own <$> (nodes w' !! l) = own <$> (nodes w !! l).
Proof.
  intros Hn Hrun.
  destruct (insertion_protocol fuel this start created w w' n Hn Hrun) as [Hnot _].
  split; [exact Hnot|].
  exact (sat_done _ _ _ _ _ _ (keeps_own_insert K fuel this start) Hrun).
Qed.

Lemma lookup_move_node (this : addr) (p : array3) (w : World G) (n : SpaceNode.SpaceNode) :
  nodes w !! this = Some n ->
  nodes (move_node this p w) !! this = Some (SpaceNode.set_position p n).
Proof. intros Hn. cbn. rewrite lookup_alter_eq, Hn. reflexivity. Qed.

(** X18: the second branch of [moveTo], when it completes, has told
    every listener [nodeAboutToBeRemoved] and [nodeRemoved] while the node
    was at its old position, then [nodeAboutToBeAdded] (with the new
    position) and [nodeAdded] while it was at the new one, and nothing
    else. *)
Theorem moveTo_reinsert_protocol (fuel : nat) (this : addr) (p : array3)
    (w w' : World G) (n : SpaceNode.SpaceNode) :
  nodes w !! this = Some n ->
  moveTo_reinsert K fuel this p w = Done tt w' ->
  exists vertice_contents : list ptr,
    notifications w' =
      notifications w ++
      map (fun l => mkNotification l (nodeAboutToBeRemoved this) (SpaceNode.position_ n))
          (SpaceNode.listeners_ n) ++
      map (fun l => mkNotification l (nodeRemoved this) (SpaceNode.position_ n))
          (SpaceNode.listeners_ n) ++
      map (fun l => mkNotification l (nodeAboutToBeAdded this p vertice_contents) p)
          (SpaceNode.listeners_ n) ++
      map (fun l => mkNotification l (nodeAdded this) p) (SpaceNode.listeners_ n).
Proof.
  intros Hn Hrun. unfold moveTo_reinsert in Hrun.
  apply bind_done in Hrun as (ip & w1 & Hpos & Hrun).
  unfold reinsert_position in Hpos.
  apply bind_done in Hpos as (n0 & w0 & Hnode & Hpos).
  apply node_done in Hnode as [-> Hn0]. rewrite Hn in Hn0. injection Hn0 as <-.
  apply bind_done in Hpos as (front & w0 & Hfront & Hpos).
  assert (w0 = w) as ->.
  { destruct (SpaceNode.adjacent_tetrahedra_ n); [discriminate|].
    injection Hfront as _ <-. reflexivity. }
  apply bind_done in Hpos as (found & w2 & Hsearch & Hpos).
  eapply silent_step in Hsearch as (Hs2 & n2 & Hn2 & Ho2);
    [| apply keeps_silent_search | exact Hn].
  apply bind_done in Hpos as (created & w3 & Hrem & Hpos).
  destruct (removal_protocol this w2 w3 n2 created Hn2 Hrem)
    as (Hs3 & n3 & Hn3 & Ho3).
  apply bind_done in Hpos as (valid & w4 & Hvalid & Hpos).
  eapply silent_step in Hvalid as (Hs4 & n4 & Hn4 & Ho4);
    [| apply sat_read; silent_side | exact Hn3].
  injection Hpos as _ <-.
  apply bind_done in Hrun as (n4' & w4' & Hnode & Hrun).
  apply node_done in Hnode as [-> Hn4']. rewrite Hn4 in Hn4'. injection Hn4' as <-.
  apply bind_done in Hrun as ([] & w5 & Hupd & Hrun).
  unfold update_node in Hupd. injection Hupd as <-.
  apply bind_done in Hrun as (star & w6 & Hins & Hrun). injection Hrun as <-.
  destruct (insertion_protocol fuel this ip star _ w6 (SpaceNode.set_position p n4)
              (lookup_move_node this p w4 n4 Hn4) Hins)
    as ((insertion_start & w5 & _ & Hs6) & _).
  exists (vertice_contents_at K w5 insertion_start). rewrite Hs6. unfold move_node. cbn [notifications SpaceNode.set_position
    SpaceNode.position_ SpaceNode.listeners_].
  destruct (own_fields _ _ Ho2) as [Hl2 Hp2].
  assert (Hown4 : own n4 = own n) by congruence.
  destruct (own_fields _ _ Hown4) as [Hl4 Hp4].
  rewrite Hs4, Hs3, Hs2, Hl2, Hp2, Hl4. rewrite <- !app_assoc. reflexivity.
Qed.

(** The stages of a completed [moveTo]: up to the assignment of the new
    position, and after it. *)
Lemma moveTo_stages (fuel : nat) (this : addr) (p : array3)
    (w w' : World G) (n : SpaceNode.SpaceNode) :
  nodes w !! this = Some n ->
  moveTo K fuel this p w = Done tt w' ->
  exists w1 w2,
    own_kept w w1 /\ own_kept (move_node this p w1) w2 /\ own_kept w2 w'.
Proof.
  intros Hn Hrun.
  unfold moveTo in Hrun.
  apply bind_done in Hrun as (valid & w1 & Hcheck & Hrun).
  destruct (sat_done _ _ _ _ _ _
              (keeps_silent_checkIfTriangulationIsStillValid K this p) Hcheck)
    as [Hs1 Ho1].
  destruct (own_kept_lookup _ _ this n Ho1 Hn) as (n1 & Hn1 & Hon1).
  destruct valid.
  - unfold moveTo_in_place in Hrun.
    apply bind_done in Hrun as (n1' & w1' & Hnode & Hrun).
    apply node_done in Hnode as [-> _].
    apply bind_done in Hrun as ([] & w2 & Hnot & Hrun).
    rewrite (notify_listeners_done this _ n1 w1 Hn1) in Hnot. injection Hnot as <-.
    apply bind_done in Hrun as ([] & w3 & Hupd & Hrun).
    unfold update_node in Hupd. cbn [nodes geo checking_index_ notifications] in Hupd.
    injection Hupd as <-.
    apply bind_done in Hrun as ([] & w4 & Hrestore & Hrun).
    destruct (sat_done _ _ _ _ _ _ (keeps_silent_restoreDelaunay K fuel this) Hrestore)
      as [_ Ho4].
    destruct (own_kept_lookup _ _ this (SpaceNode.set_position p n1) Ho4)
      as (n4 & Hn4 & _).
    { cbn. rewrite lookup_alter_eq, Hn1. reflexivity. }
    rewrite (notify_listeners_done this _ n4 w4 Hn4) in Hrun. injection Hrun as <-.
    exists w1, w4. split; [exact Ho1|]. split; [| intros l; reflexivity].
    intros l. rewrite Ho4. reflexivity.
  - unfold moveTo_reinsert in Hrun.
    apply bind_done in Hrun as (ip & w2 & Hpos & Hrun).
    pose proof (sat_done _ _ _ _ _ _ (keeps_own_reinsert_position K fuel this p) Hpos)
      as Ho2.
    apply bind_done in Hrun as (n2 & w2' & Hnode & Hrun).
    apply node_done in Hnode as [-> _].
    apply bind_done in Hrun as ([] & w3 & Hupd & Hrun).
    unfold update_node in Hupd. injection Hupd as <-.
    apply bind_done in Hrun as (star & w4 & Hins & Hrun). injection Hrun as <-.
    pose proof (sat_done _ _ _ _ _ _ (keeps_own_insert K fuel this ip) Hins) as Ho4.
    exists w2, w4. split; [eapply own_kept_trans; eassumption|].
    split; [exact Ho4 | intros l; reflexivity].
Qed.

(** X19: after a completed [moveTo], on either branch, the node is at
    [new_position] with the id, user object and listeners it had, and every
    other node has kept its id, user object, listeners and position. *)
Theorem moveTo_position (fuel : nat) (this : addr) (p : array3)
    (w w' : World G) (n : SpaceNode.SpaceNode) :
  nodes w !! this = Some n ->
  moveTo K fuel this p w = Done tt w' ->
  (exists n', nodes w' !! this = Some n' /\
     SpaceNode.position_ n' = p /\
     SpaceNode.id_ n' = SpaceNode.id_ n /\
     SpaceNode.content_ n' = SpaceNode.content_ n /\
     SpaceNode.listeners_ n' = SpaceNode.listeners_ n) /\
  (forall l, l <> this -> own <$> (nodes w' !! l) = own <$> (nodes w !! l)).
Proof.
  intros Hn Hrun.
  destruct (moveTo_stages fuel this p w w' n Hn Hrun) as (w1 & w2 & Ho1 & Ho2 & Ho3).
  destruct (own_kept_lookup _ _ this n Ho1 Hn) as (n1 & Hn1 & Hon1).
  destruct (own_kept_lookup _ _ this _ Ho2 (lookup_move_node this p w1 n1 Hn1))
    as (n2 & Hn2 & Hon2).
  destruct (own_kept_lookup _ _ this _ Ho3 Hn2) as (n3 & Hn3 & Hon3).
  split.
  - exists n3. split; [exact Hn3|].
    assert (Hown : own n3 = own (SpaceNode.set_position p n1)) by congruence.
    unfold own in Hown, Hon1. cbn in Hown. injection Hown as Hid Hc Hl Hp.
    injection Hon1 as Hid1 Hc1 Hl1 _. repeat split; congruence.
  - intros l Hne. rewrite Ho3, Ho2. cbn [move_node nodes].
    rewrite lookup_alter_ne by congruence. apply Ho1.
Qed.


(** X20: [moveTo] on a node without incident tetrahedra always
    completes, whatever the triangulation and the fuel: the position is
    written in place, between the [nodeAboutToMove] and the [nodeMoved]
    calls of the listeners, and nothing else changes. *)
Theorem moveTo_isolated (fuel : nat) (this : addr) (p : array3)
    (w : World G) (n : SpaceNode.SpaceNode) :
  nodes w !! this = Some n ->
  SpaceNode.adjacent_tetrahedra_ n = [] ->
  moveTo K fuel this p w =
    Done tt
      (mkWorld (alter (SpaceNode.set_position p) this (nodes w)) (geo w)
         (checking_index_ w)
         (notifications w ++
          map (fun l => mkNotification l
                          (nodeAboutToMove this (Matrix.subtract p (SpaceNode.position_ n)))
                          (SpaceNode.position_ n))
              (SpaceNode.listeners_ n) ++
          map (fun l => mkNotification l (nodeMoved this) p) (SpaceNode.listeners_ n))).
Proof.
  intros Hn Hempty.
  assert (Hcheck : checkIfTriangulationIsStillValid K this p w = Done true w).
  { unfold checkIfTriangulationIsStillValid, bind, node. rewrite Hn, Hempty. reflexivity. }
  assert (Hrestore : forall (v : World G) (m : SpaceNode.SpaceNode),
    nodes v !! this = Some m -> SpaceNode.adjacent_tetrahedra_ m = [] ->
    restoreDelaunay K fuel this v = Done tt v).
  { intros v m Hm Hm'. unfold restoreDelaunay, bind, node. rewrite Hm, Hm'.
    cbn [for_each ret]. destruct fuel; reflexivity. }
  unfold moveTo, bind. rewrite Hcheck.
  unfold moveTo_in_place, bind, node, update_node. rewrite Hn.
  rewrite (notify_listeners_done this _ n w Hn).
  cbn [nodes geo checking_index_ notifications].
  erewrite Hrestore;
    [| cbn [nodes]; rewrite lookup_alter_eq, Hn; reflexivity | exact Hempty].
  erewrite notify_listeners_done
    by (cbn [nodes]; rewrite lookup_alter_eq, Hn; reflexivity).
  cbn [nodes geo checking_index_ notifications SpaceNode.set_position
       SpaceNode.position_ SpaceNode.listeners_].
  rewrite <- app_assoc. reflexivity.
Qed.


(** X21: [restoreDelaunay], with the clean-up it runs, calls no listener
    and leaves the id, the user object, the listeners and the position of
    every node as they are. *)
Theorem restoreDelaunay_frame (fuel : nat) (this : addr) (w w' : World G) :
  restoreDelaunay K fuel this w = Done tt w' ->
  notifications w' = notifications w /\
  forall l, own <$> (nodes w' !! l) = own <$> (nodes w !! l).
Proof.
  intros Hrun.
  destruct (sat_done _ _ _ _ _ _ (keeps_silent_restoreDelaunay K fuel this) Hrun)
    as [Hsame Hown].
  split; [exact Hsame | exact Hown].
Qed.

End Protocols.

(** ** The properties at concrete configurations *)

Lemma getOpposite_round_trip_witness :
  Edge.getOpposite Examples.edge12 (Some 1%positive) = Returns (Some 2%positive) /\
  Edge.getOpposite Examples.edge12 (Some 2%positive) = Returns (Some 1%positive).
Proof.
  split; [reflexivity|].
  apply (getOpposite_round_trip Examples.edge12 (Some 1%positive) (Some 2%positive)).
  reflexivity.
Defined.

(** The three nodes of [Examples.unlinked] have no edges. *)
Lemma unlinked_unlisted (e : addr) : Neighbors.unlisted Examples.unlinked e.
Proof.
  intros l n Hn. unfold Examples.unlinked, Examples.three_nodes in Hn.
  cbn [Edge.nodes] in Hn. rewrite !lookup_insert in Hn.
  repeat case_decide; try (injection Hn as <-; apply not_elem_of_nil).
  rewrite lookup_empty in Hn. discriminate.
Qed.

Lemma create_remove_round_trip_witness :
  Edge.nodes (Edge.remove 5%positive Examples.linked) = Edge.nodes Examples.unlinked /\
  Edge.edges (Edge.remove 5%positive Examples.linked) !! 5%positive
    = Some (Edge.new (Some 1%positive) (Some 2%positive)).
Proof.
  apply (create_remove_round_trip 5%positive (Some 1%positive) (Some 2%positive)
           Examples.unlinked).
  apply unlinked_unlisted.
Defined.

Lemma removeTetrahedron_unregisters_witness :
  Edge.nodes
    (Edge.removeTetrahedron 5%positive (Some 9%positive)
       (Edge.at_edge 5%positive (Edge.addTetrahedron (Some 9%positive)) Examples.linked))
    = Edge.nodes Examples.unlinked /\
  Edge.nodes
    (Edge.removeTetrahedron 5%positive (Some 9%positive)
       (Edge.at_edge 5%positive (Edge.addTetrahedron (Some 8%positive))
          (Edge.at_edge 5%positive (Edge.addTetrahedron (Some 9%positive)) Examples.linked)))
    = Edge.nodes Examples.linked.
Proof.
  destruct (removeTetrahedron_unregisters 5%positive (Some 1%positive) (Some 2%positive)
              (Some 9%positive) (Some 8%positive) Examples.unlinked
              (unlinked_unlisted 5%positive)) as [[Hlast _] [Hother _]].
  split; [exact Hlast | exact Hother].
Defined.

Lemma getNeighbors_permanent_witness :
  Neighbors.getNeighbors Examples.linked 1%positive = Returns [Some 12%positive] /\
  Neighbors.getPermanentListOfNeighbors Examples.linked 1%positive
    = Returns [Some 12%positive] /\
  Neighbors.getNeighbors Examples.dangling 1%positive = Undefined.
Proof.
  destruct (getNeighbors_permanent Examples.linked 1%positive
              (Neighbors.with_edges [Some 5%positive] Examples.node1) eq_refl)
    as [Hsame _].
  destruct (getNeighbors_permanent Examples.dangling 1%positive
              (Neighbors.with_edges [Some 5%positive; Some 6%positive] Examples.node1)
              eq_refl) as [_ Hnull].
  split; [reflexivity|]. split.
  - apply (Hsame [Some 12%positive]). reflexivity.
  - apply (Hnull (Some 6%positive)); [|reflexivity].
    apply elem_of_cons. right. apply elem_of_cons. left. reflexivity.
Defined.

Lemma create_adds_neighbor_witness :
  Neighbors.getPermanentListOfNeighbors Examples.unlinked 1%positive = Returns [] /\
  Neighbors.getPermanentListOfNeighbors Examples.linked 1%positive
    = Returns [Some 12%positive].
Proof.
  split; [reflexivity|].
  apply (create_adds_neighbor 5%positive 1%positive 2%positive Examples.unlinked []
           Examples.node2); [reflexivity | discriminate | reflexivity | reflexivity].
Defined.

Lemma searchEdge_connects_witness :
  Neighbors.searchEdge 7%positive 1%positive (Some 2%positive) Examples.linked
    = Returns (Some 5%positive, Examples.linked) /\
  exists (l : addr) (edge : Edge.Edge double),
    Some 5%positive = Some l /\ Edge.edges Examples.linked !! l = Some edge /\
    Edge.equals edge (Some 1%positive) (Some 2%positive) = true /\
    exists n', Edge.nodes Examples.linked !! 1%positive = Some n' /\
               Some 5%positive ∈ SpaceNode.adjacent_edges_ n'.
Proof.
  split; [reflexivity|].
  apply (searchEdge_connects 7%positive 1%positive (Some 2%positive) (Some 5%positive)
           Examples.linked Examples.linked).
  reflexivity.
Defined.

Lemma searchEdge_again_witness :
  Neighbors.searchEdge 5%positive 1%positive (Some 2%positive) Examples.unlinked
    = Returns (Some 5%positive, Examples.linked) /\
  Neighbors.searchEdge 9%positive 1%positive (Some 2%positive) Examples.linked
    = Returns (Some 5%positive, Examples.linked).
Proof.
  split; [reflexivity|].
  apply (searchEdge_again 5%positive 9%positive 1%positive 2%positive (Some 5%positive)
           Examples.unlinked Examples.linked).
  - reflexivity.
  - eexists. reflexivity.
  - reflexivity.
Defined.

Lemma searchEdge_null_witness :
  Neighbors.searchEdge 6%positive 1%positive None Examples.linked
    = Returns (Some 6%positive, Examples.dangling) /\
  Neighbors.getNeighbors Examples.dangling 1%positive = Undefined.
Proof.
  split; [reflexivity|].
  apply (searchEdge_null 6%positive 1%positive (Some 6%positive) Examples.linked
           Examples.dangling).
  reflexivity.
Defined.

Lemma construct_all_ids_witness :
  exists ns,
    NewInstance.construct_all 0
      [(Examples.origin, Some 11%positive); (Examples.origin, Some 12%positive)]
      = Returns (ns, 2) /\
    map SpaceNode.id_ ns = [0; 1] /\ NoDup (map SpaceNode.id_ ns).
Proof.
  destruct (construct_all_ids 0
              [(Examples.origin, Some 11%positive); (Examples.origin, Some 12%positive)])
    as [Hfits _]; [discriminate|].
  apply Hfits. discriminate.
Defined.

Lemma getNewInstance_second_edge_witness :
  exists h' : Edge.Heap double,
    NewInstance.getNewInstance (fun _ _ _ _ _ => Undefined) (fun _ _ _ => Undefined)
      3 4%positive 6%positive 7%positive 1%positive Examples.origin (Some 14%positive)
      Examples.linked = Returns (Some 4%positive, 4, h') /\
    Edge.edges h' !! 7%positive = Some (Edge.new (Some 4%positive) (Some 4%positive)).
Proof.
  destruct (getNewInstance_second_edge (fun _ _ _ _ _ => Undefined) (fun _ _ _ => Undefined)
              3 4%positive 6%positive 7%positive 1%positive Examples.origin
              (Some 14%positive) (Some 5%positive) Examples.linked
              (Neighbors.with_edges [Some 5%positive] Examples.node1))
    as (h' & Hrun & _ & Hloop & _);
    [reflexivity | reflexivity | reflexivity | reflexivity | discriminate | reflexivity |].
  exists h'. split; [exact Hrun | exact Hloop].
Defined.

Lemma remove_notifications_witness :
  match Triangulation.remove Examples.table_kernel 1%positive Examples.flat_world with
  | Triangulation.Done _ w' =>
      map Triangulation.call (Triangulation.notifications w')
        = [Triangulation.nodeAboutToBeRemoved 1%positive;
           Triangulation.nodeRemoved 1%positive]
  | _ => False
  end.
Proof.
  destruct (Triangulation.remove Examples.table_kernel 1%positive Examples.flat_world)
    as [[] w' | | |] eqn:Hrun; try (vm_compute in Hrun; discriminate).
  destruct (remove_notifications Examples.table_kernel 1%positive Examples.flat_world w'
              (Examples.moving_node [Some 1%positive]) eq_refl Hrun) as [Hnot _].
  rewrite Hnot. reflexivity.
Defined.

Lemma insert_notifications_witness :
  match Triangulation.insert Examples.table_kernel 5 1%positive (Some 1%positive)
          Examples.walk_world with
  | Triangulation.Done _ w' =>
      map Triangulation.call (Triangulation.notifications w')
        = [Triangulation.nodeAboutToBeAdded 1%positive Examples.position_a
             [Some 11%positive];
           Triangulation.nodeAdded 1%positive]
  | _ => False
  end.
Proof.
  destruct (Triangulation.insert Examples.table_kernel 5 1%positive (Some 1%positive)
              Examples.walk_world) as [created w' | | |] eqn:Hrun;
    try (vm_compute in Hrun; discriminate).
  destruct (insert_notifications Examples.table_kernel 5 1%positive (Some 1%positive)
              created Examples.walk_world w' (Examples.moving_node [Some 1%positive])
              eq_refl Hrun) as [(insertion_start & w1 & Hsearch & Hnot) _].
  vm_compute in Hsearch. injection Hsearch as <- <-.
  rewrite Hnot. reflexivity.
Defined.

Lemma moveTo_reinsert_protocol_witness :
  match Triangulation.moveTo_reinsert Examples.table_kernel 5 1%positive
          Examples.position_b Examples.flat_world with
  | Triangulation.Done _ w' =>
      map Triangulation.observed_position (Triangulation.notifications w')
        = [Examples.position_a; Examples.position_a;
           Examples.position_b; Examples.position_b]
  | _ => False
  end.
Proof.
  destruct (Triangulation.moveTo_reinsert Examples.table_kernel 5 1%positive
              Examples.position_b Examples.flat_world) as [[] w' | | |] eqn:Hrun;
    try (vm_compute in Hrun; discriminate).
  destruct (moveTo_reinsert_protocol Examples.table_kernel 5 1%positive
              Examples.position_b Examples.flat_world w'
              (Examples.moving_node [Some 1%positive]) eq_refl Hrun) as [vc Hnot].
  rewrite Hnot. reflexivity.
Defined.

Lemma moveTo_position_witness :
  match Triangulation.moveTo Examples.table_kernel 5 1%positive Examples.position_b
          Examples.flat_world with
  | Triangulation.Done _ w' =>
      exists n', Triangulation.nodes w' !! 1%positive = Some n' /\
                 SpaceNode.position_ n' = Examples.position_b
  | _ => False
  end.
Proof.
  destruct (Triangulation.moveTo Examples.table_kernel 5 1%positive Examples.position_b
              Examples.flat_world) as [[] w' | | |] eqn:Hrun;
    try (vm_compute in Hrun; discriminate).
  destruct (moveTo_position Examples.table_kernel 5 1%positive Examples.position_b
              Examples.flat_world w' (Examples.moving_node [Some 1%positive])
              eq_refl Hrun) as [(n' & Hn' & Hp & _) _].
  exists n'. split; [exact Hn' | exact Hp].
Defined.




Lemma moveTo_isolated_witness :
  exists w',
    Triangulation.moveTo Examples.table_kernel 0 1%positive Examples.position_b
      (Examples.world_with [] Examples.plain_tables 0) = Triangulation.Done tt w' /\
    map Triangulation.call (Triangulation.notifications w')
      = [Triangulation.nodeAboutToMove 1%positive
           (Matrix.subtract Examples.position_b Examples.position_a);
         Triangulation.nodeMoved 1%positive].
Proof.
  eexists. split.
  - apply (moveTo_isolated Examples.table_kernel 0 1%positive Examples.position_b
             (Examples.world_with [] Examples.plain_tables 0) (Examples.moving_node []));
      reflexivity.
  - reflexivity.
Defined.

Lemma restoreDelaunay_frame_witness :
  match Triangulation.restoreDelaunay Examples.table_kernel 5 1%positive
          Examples.hull_world with
  | Triangulation.Done _ w' =>
      Triangulation.notifications w' = Triangulation.notifications Examples.hull_world
  | _ => False
  end.
Proof.
  destruct (Triangulation.restoreDelaunay Examples.table_kernel 5 1%positive
              Examples.hull_world) as [[] w' | | |] eqn:Hrun;
    try (vm_compute in Hrun; discriminate).
  destruct (restoreDelaunay_frame Examples.table_kernel 5 1%positive
              Examples.hull_world w' Hrun) as [Hnot _].
  exact Hnot.
Defined.

Section SearchFacts.
Import Triangulation.
Context {G : Type} (K : Kernel G).

(** Where the loop of the search stops. *)
Lemma walk_result (fuel : nat) (c : array3) (current last r : ptr) (w w' : World G) :
  walk K fuel c current last w = Done r w' ->
  (r = current /\ current = last /\ w' = w) \/
  exists l, r = Some l /\
    (Tetrahedron_isInfinite K w' l = true \/
     exists order, Tetrahedron_walkToPoint K w' l c order = inr (Some l)).
Proof.
  revert current last w. induction fuel as [| fuel IH]; intros current last w;
    cbn [walk]; destruct (ptr_eqb current last) eqn:Heq;
    try (intros [= <- <-]; left; apply ptr_eqb_eq in Heq; auto).
  - intros Hrun. apply bind_done in Hrun as (infinite & w1 & Hinf & Hrun).
    apply read_done in Hinf as (-> & l & -> & ->).
    destruct (Tetrahedron_isInfinite K w l) eqn:Hi; [|discriminate].
    injection Hrun as <- <-. right. exists l. split; [reflexivity|]. left. exact Hi.
  - intros Hrun. apply bind_done in Hrun as (infinite & w1 & Hinf & Hrun).
    apply read_done in Hinf as (-> & l & -> & ->).
    destruct (Tetrahedron_isInfinite K w l) eqn:Hi.
    { injection Hrun as <- <-. right. exists l. split; [reflexivity|]. left. exact Hi. }
    apply bind_done in Hrun as (order & w1 & _ & Hrun).
    apply bind_done in Hrun as (next & w2 & Hwalk & Hrun).
    unfold walkToPoint in Hwalk.
    apply bind_done in Hwalk as (res & w1' & Hread & Hwalk).
    apply read_done in Hread as (-> & l' & [= <-] & ->).
    destruct (Tetrahedron_walkToPoint K w1 l c order) as [e | next'] eqn:Hw; [discriminate|].
    injection Hwalk as <- <-.
    destruct (IH _ _ _ Hrun) as [(-> & -> & ->) | Hlater]; [|right; exact Hlater].
    right. exists l. split; [reflexivity|]. right. exists order. exact Hw.
Qed.

(** X22: whatever [searchInitialInsertionTetrahedron] returns is a null
    pointer, an infinite tetrahedron, or a tetrahedron from which the walk
    towards the coordinate leads to itself (for the triangle order the
    last round of the loop was given), all read in the state the search
    ends in. *)
Theorem searchInitialInsertionTetrahedron_result
    (fuel : nat) (start r : ptr) (c : array3) (w w' : World G) :
  searchInitialInsertionTetrahedron K fuel start c w = Done r w' ->
  r = None \/
  exists l, r = Some l /\
    (Tetrahedron_isInfinite K w' l = true \/
     exists order, Tetrahedron_walkToPoint K w' l c order = inr (Some l)).
Proof.
  unfold searchInitialInsertionTetrahedron. intros Hrun.
  apply bind_done in Hrun as (infinite & w1 & _ & Hrun).
  apply bind_done in Hrun as (current & w2 & _ & Hrun).
  destruct (walk_result _ _ _ _ _ _ _ Hrun) as [(-> & -> & _) | Hres].
  - left. reflexivity.
  - right. exact Hres.
Qed.
End SearchFacts.

Lemma searchInitialInsertionTetrahedron_result_witness :
  Some 2%positive = None \/
  exists l, Some 2%positive = Some l /\
    (Triangulation.Tetrahedron_isInfinite Examples.table_kernel Examples.walk_world l = true \/
     exists order,
       Triangulation.Tetrahedron_walkToPoint Examples.table_kernel Examples.walk_world l
         Examples.position_b order = inr (Some l)).
Proof.
  apply (searchInitialInsertionTetrahedron_result Examples.table_kernel 5
           (Some 1%positive) (Some 2%positive) Examples.position_b
           Examples.walk_world Examples.walk_world).
  vm_compute. reflexivity.
Defined.
